(** * Batched beam search ([modules/nn/beam_search.py])

    A shallow embedding of [BeamSearch.search] and the properties of its
    bookkeeping: beam width, backpointers, cumulative scores, early stop,
    reconstruction, errors and effects on the caller's objects.

    Conventions of the embedding.
    - A tensor of shape [(n, m)] is a list of [n] rows of [m] entries; a
      tensor of shape [(n,)] is a list.  [reshape] between [(batch, beam)]
      and [(batch * beam,)] is [concat] and its inverse [chunks].
    - Token ids, top-k indices and backpointers are [LongTensor] entries:
      integers ([Z]).  Configuration fields are Python ints ([Z]).
    - Log-probabilities are floats.  Their arithmetic is kept abstract: a
      type [Score] with the sum [add], the constants [zero] and [neg_inf]
      and the strict order [gtb] used by [topk].  Statements that need a
      law of the arithmetic take it as a hypothesis.
    - [torch.topk] leaves the order among equal values unspecified.  The
      embedding takes that order as a parameter ([TieOrder]); definitions
      and theorems hold for every order, and an example names the order it
      is computed with.
    - The state is a Python [dict] object: dicts live in a heap and are
      passed by reference, so that aliasing between the caller's
      [start_state] and the dict a scoring function returns is visible.
    - A scoring function is supplied by the caller.  It is a function of
      the tokens, the state reference, the heap and a hidden environment
      (caches, random generators), and returns scores, a state reference,
      a heap and an environment.  Every call is logged.
    - Array operations raise where torch raises: [topk] beyond the size of
      the dimension, [gather] outside the range, [reshape] to another number
      of elements, indexing an empty list.  Scores whose shape differs from
      the documented [(group_size, num_classes)] raise in [torch.where];
      torch itself would first try to broadcast a dimension of size one.
    - Integers are those of Python; an index is taken to fit the 64 bits of
      a tensor index ([int64]), beyond which torch fails before indexing. *)

From Stdlib Require Import ZArith Lia Bool.
From stdpp Require Import base option list sorting gmap strings.

Local Open Scope Z_scope.

(** ** Exceptions *)

Inductive error : Type :=
| ConfigurationError
| IndexError
| RuntimeError
| AttributeError.

Inductive result (A : Type) : Type :=
| Ok (a : A)
| Raise (e : error).

Arguments Ok {A} a.
Arguments Raise {A} e.

Definition bind {A B : Type} (m : result A) (f : A -> result B) : result B :=
  match m with
  | Ok a => f a
  | Raise e => Raise e
  end.

Notation "x <- m ;; k" := (bind m (fun x => k))
  (at level 100, m at next level, right associativity).

Fixpoint mapM {A B : Type} (f : A -> result B) (l : list A) : result (list B) :=
  match l with
  | [] => Ok []
  | x :: l' => y <- f x ;; ys <- mapM f l' ;; Ok (y :: ys)
  end.

(** ** Index and shape primitives *)

(** [l[i]] for a tensor index [i >= 0] (no wrap-around: [gather] refuses
    negative indices). *)
Definition lookupZ {A : Type} (l : list A) (i : Z) : option A :=
  if i <? 0 then None else l !! Z.to_nat i.

(** The integers a tensor index can hold. *)
Definition int64 (i : Z) : Prop := - 2 ^ 63 <= i < 2 ^ 63.

(** Python indexing [t[:, i]] of a dimension of size [n], for an index [i]
    that is an [int64]: negative indices count from the end, anything else
    out of range raises. *)
Definition normalize_index (n : nat) (i : Z) : result nat :=
  if (0 <=? i) && (i <? Z.of_nat n) then Ok (Z.to_nat i)
  else if (- Z.of_nat n <=? i) && (i <? 0) then Ok (Z.to_nat (Z.of_nat n + i))
  else Raise IndexError.

(** [n] consecutive rows of [m] entries. *)
Fixpoint chunks {A : Type} (n m : nat) (l : list A) : list (list A) :=
  match n with
  | O => []
  | S n' => take m l :: chunks n' m (drop m l)
  end.

(** [t.reshape(n)] of a two-dimensional tensor. *)
Definition reshape1 {A : Type} (n : nat) (t : list (list A)) : result (list A) :=
  if (length (concat t) =? n)%nat then Ok (concat t) else Raise RuntimeError.

(** [t.reshape(n, m)] of a two-dimensional tensor. *)
Definition reshape2 {A : Type} (n m : nat) (t : list (list A)) : result (list (list A)) :=
  if (length (concat t) =? n * m)%nat then Ok (chunks n m (concat t))
  else Raise RuntimeError.

(** [row.gather(0, idx)]. *)
Definition gather_row {A : Type} (row : list A) (idx : list Z) : result (list A) :=
  mapM (fun i => match lookupZ row i with
                 | Some x => Ok x
                 | None => Raise RuntimeError
                 end) idx.

(** [t.gather(1, index)]: [out[i][j] = t[i][index[i][j]]]. *)
Definition gather {A : Type} (t : list (list A)) (index : list (list Z))
  : result (list (list A)) :=
  if (length index <=? length t)%nat
  then mapM (fun p => gather_row p.1 p.2) (zip t index)
  else Raise RuntimeError.

(** ** Scores and top-k selection *)

(** ** The order of equal values

    [torch.topk] returns the [k] largest values in descending order; which of
    several equal values it returns, and in which order, is left to the
    implementation.  [tie k row i j] tells whether [row.topk(k)] puts the
    index [i] before the index [j] when their values are equal.  It is a
    parameter of the whole development: what is proved holds for every such
    order. *)
Class TieOrder (Score : Type) : Type :=
  tie : Z -> list Score -> nat -> nat -> bool.

Section BeamSearch.

(** Floats, the trailing dimensions of a state tensor, and whatever the
    scoring functions keep behind the scenes. *)
Context {Score Cell Env : Type} {tie_order : TieOrder Score}.
Variable add : Score -> Score -> Score.
Variables zero neg_inf : Score.
Variable gtb : Score -> Score -> bool.

(** A tensor of scores of shape [(length rows, num_cols)], as a scoring
    function returns it; [num_cols] is what [.size()[1]] reads. *)
Record ScoreTensor : Type := mkScores {
  num_cols : nat;
  rows : list (list Score)
}.

(** Insertion into a list sorted by descending score.  An entry [y] of the
    list stays before [x] when its score is greater, and also when the
    scores are equal and [before] puts the index of [y] first; where
    [before] says nothing, the entry inserted last, which has the lowest
    index, comes first. *)
Fixpoint insert_desc (before : nat -> nat -> bool) (x : Score * nat)
    (l : list (Score * nat)) : list (Score * nat) :=
  match l with
  | [] => [x]
  | y :: l' =>
      if gtb y.1 x.1 || (negb (gtb x.1 y.1) && before y.2 x.2)
      then y :: insert_desc before x l'
      else x :: l
  end.

Definition sort_desc (before : nat -> nat -> bool) (l : list (Score * nat))
  : list (Score * nat) :=
  foldr (insert_desc before) [] l.

Definition enumerate (row : list Score) : list (Score * nat) :=
  imap (fun i v => (v, i)) row.

(** [row.topk(k)]: the [k] largest values in descending order, with their
    indices; equal values in the order [tie k row]. *)
Definition topk_row (k : Z) (row : list Score) : result (list Score * list Z) :=
  if (k <? 0) || (Z.of_nat (length row) <? k) then Raise RuntimeError
  else
    let sel := take (Z.to_nat k) (sort_desc (tie k row) (enumerate row)) in
    Ok (sel.*1, (fun p => Z.of_nat p.2) <$> sel).

(** [t.topk(k)] along the last dimension of a tensor with [ncols] columns. *)
Definition topk (k : Z) (ncols : nat) (t : list (list Score))
  : result (list (list Score) * list (list Z)) :=
  if (k <? 0) || (Z.of_nat ncols <? k) then Raise RuntimeError
  else rs <- mapM (topk_row k) t ;; Ok (rs.*1, rs.*2).

(** [start_class_log_probabilities.new_full((n, num_classes), -inf)] followed
    by [log_probs_after_end[:, end_index] = 0.]. *)
Definition log_probs_after_end (n num_classes : nat) (end_index : Z)
  : result (list (list Score)) :=
  j <- normalize_index num_classes end_index ;;
  Ok (replicate n (<[j := zero]> (replicate num_classes neg_inf))).

(** The rows [torch.where] selects: [last_predictions_expanded ==
    end_index] is constant along a row, so row [i] is the forced-end row when
    [last_predictions[i]] is [end_index], and the row of the scores
    otherwise. *)
Definition select_rows (end_index : Z) (last_predictions : list Z)
    (forced scores : list (list Score)) : list (list Score) :=
  zip_with (fun c r => if c.1 =? end_index then c.2 else r)
    (zip last_predictions forced) scores.

(** [torch.where(last_predictions_expanded == end_index, log_probs_after_end,
    class_log_probabilities)], the first two of shape [(n, num_classes)].
    The scores of [step] must have that shape too: a mismatch raises (torch
    would first try to broadcast a dimension of size one). *)
Definition where_end (end_index : Z) (n num_classes : nat)
    (last_predictions : list Z) (forced : list (list Score))
    (class_log_probabilities : ScoreTensor) : result (list (list Score)) :=
  if (length (rows class_log_probabilities) =? n)%nat
     && (num_cols class_log_probabilities =? num_classes)%nat
  then Ok (select_rows end_index last_predictions forced (rows class_log_probabilities))
  else Raise RuntimeError.

(** [top_log_probabilities + expanded_last_log_probabilities]: row
    [b * beam_size + k] receives [last_log_probabilities[b][k]]. *)
Definition add_expanded_last (top_log_probabilities last_log_probabilities : list (list Score))
  : list (list Score) :=
  zip_with (fun row l => (fun v => add v l) <$> row)
    top_log_probabilities (concat last_log_probabilities).

(** ** The configuration object *)

Record BeamSearch : Type := mkBeamSearch {
  _end_index : Z;
  max_steps : Z;
  beam_size : Z;
  per_node_beam_size : Z
}.

(** [__init__]: [per_node_beam_size or beam_size]. *)
Definition BeamSearch_init (end_index max_steps beam_size : Z)
    (per_node_beam_size : option Z) : BeamSearch :=
  {| _end_index := end_index;
     max_steps := max_steps;
     beam_size := beam_size;
     per_node_beam_size :=
       match per_node_beam_size with
       | Some p => if p =? 0 then beam_size else p
       | None => beam_size
       end |}.

(** ** One expansion of the beam (the array part of a loop iteration) *)

Record StepLocals : Type := mkLocals {
  cleaned_log_probabilities : list (list Score);
  top_log_probabilities : list (list Score);
  predicted_classes : list (list Z);
  summed_top_log_probabilities : list (list Score);
  restricted_beam_log_probs : list (list Score);
  restricted_beam_indices : list (list Z);
  restricted_predicted_classes : list (list Z);
  backpointer : list (list Z)
}.

(** From [cleaned_log_probabilities] to [backpointer].  The backpointer is
    [restricted_beam_indices / self.per_node_beam_size] on a [LongTensor]:
    integer division, which truncates ([Z.quot]). *)
Definition expand_beam (self : BeamSearch) (batch_size num_classes : nat)
    (forced : list (list Score)) (last_predictions : list Z)
    (last_log_probabilities : list (list Score))
    (class_log_probabilities : ScoreTensor) : result StepLocals :=
  let beam := Z.to_nat (beam_size self) in
  let per_node := Z.to_nat (per_node_beam_size self) in
  cleaned <- where_end (_end_index self) (batch_size * beam) num_classes
               last_predictions forced class_log_probabilities ;;
  tp <- topk (per_node_beam_size self) num_classes cleaned ;;
  let summed := add_expanded_last tp.1 last_log_probabilities in
  reshaped_summed <- reshape2 batch_size (beam * per_node) summed ;;
  reshaped_predicted_classes <- reshape2 batch_size (beam * per_node) tp.2 ;;
  r <- topk (beam_size self) (beam * per_node) reshaped_summed ;;
  classes <- gather reshaped_predicted_classes r.2 ;;
  Ok {| cleaned_log_probabilities := cleaned;
        top_log_probabilities := tp.1;
        predicted_classes := tp.2;
        summed_top_log_probabilities := summed;
        restricted_beam_log_probs := r.1;
        restricted_beam_indices := r.2;
        restricted_predicted_classes := classes;
        backpointer :=
          (fun row : list Z => (fun i => Z.quot i (per_node_beam_size self)) <$> row) <$> r.2 |}.

(** ** Objects, scoring functions and the world *)

(** A state tensor of shape [(n, ...)] is a list of [n] slices; the trailing
    dimensions stay opaque.  A [dict] keeps its insertion order. *)
Definition StateType : Type := list (string * list Cell).

Record StepResult : Type := mkStepResult {
  sr_scores : ScoreTensor;
  sr_state : nat;
  sr_heap : gmap nat StateType;
  sr_env : Env
}.

(** [step(last_predictions, state)] run in a heap and an environment. *)
Definition StepFunctionType : Type :=
  list Z -> nat -> gmap nat StateType -> Env -> StepResult.

(** Which argument of [search] a call went to. *)
Inductive Callee : Type := FirstStepArg | StepArg.

Record Call : Type := mkCall {
  callee : Callee;
  call_tokens : list Z;
  call_state : nat;
  call_scores : ScoreTensor
}.

Record World : Type := mkWorld {
  self_fields : BeamSearch;
  heap : gmap nat StateType;
  env : Env;
  calls : list Call
}.

(** Calling a scoring function: the heap and environment it leaves behind
    replace the current ones, and the call is logged. *)
Definition call (c : Callee) (f : StepFunctionType) (tokens : list Z) (st : nat)
    (w : World) : World * (ScoreTensor * nat) :=
  let r := f tokens st (heap w) (env w) in
  ({| self_fields := self_fields w;
      heap := sr_heap r;
      env := sr_env r;
      calls := calls w ++ [mkCall c tokens st (sr_scores r)] |},
   (sr_scores r, sr_state r)).

(** [for key, state_tensor in state.items(): state[key] = f(state_tensor)]:
    the entries are rebound in order; when [f] raises, the entries before
    it have already been rebound. *)
Fixpoint update_items (f : list Cell -> result (list Cell)) (d : StateType)
  : StateType * result unit :=
  match d with
  | [] => ([], Ok tt)
  | (key, state_tensor) :: d' =>
      match f state_tensor with
      | Ok t' => let r := update_items f d' in ((key, t') :: r.1, r.2)
      | Raise e => (d, Raise e)
      end
  end.

Definition update_state (f : list Cell -> result (list Cell)) (st : nat) (w : World)
  : World * result unit :=
  match heap w !! st with
  | None => (w, Raise AttributeError)
  | Some d =>
      let r := update_items f d in
      ({| self_fields := self_fields w;
          heap := <[st := r.1]> (heap w);
          env := env w;
          calls := calls w |}, r.2)
  end.

(** [state_tensor.unsqueeze(1).expand(batch_size, beam_size, *last_dims)
    .reshape(batch_size * beam_size, *last_dims)]: [expand] accepts a leading
    dimension equal to [batch_size], or of size one. *)
Definition expand_state (batch_size beam : nat) (state_tensor : list Cell)
  : result (list Cell) :=
  if (length state_tensor =? batch_size)%nat
  then Ok (state_tensor ≫= replicate beam)
  else if (length state_tensor =? 1)%nat
  then Ok (state_tensor ≫= replicate (batch_size * beam))
  else Raise RuntimeError.

(** [state_tensor.reshape(batch_size, beam_size, *last_dims)
    .gather(1, expanded_backpointer).reshape(batch_size * beam_size, *last_dims)]. *)
Definition gather_state (batch_size beam : nat) (backpointer : list (list Z))
    (state_tensor : list Cell) : result (list Cell) :=
  if (length state_tensor =? batch_size * beam)%nat
  then g <- gather (chunks batch_size beam state_tensor) backpointer ;; Ok (concat g)
  else Raise RuntimeError.

(** ** The search loop *)

Record LoopState : Type := mkLoopState {
  predictions : list (list (list Z));
  backpointers : list (list (list Z));
  last_log_probabilities : list (list Score);
  state : nat
}.

Section Loop.

Variable self : BeamSearch.
Variable step : StepFunctionType.
Variables batch_size num_classes : nat.
Variable forced : list (list Score).

Let beam : nat := Z.to_nat (beam_size self).

(** [predictions[-1].reshape(batch_size * beam_size)]. *)
Definition last_predictions_of (s : LoopState) : result (list Z) :=
  match last (predictions s) with
  | Some p => reshape1 (batch_size * beam) p
  | None => Raise IndexError
  end.

(** [(last_predictions == self._end_index).all()]. *)
Definition all_ended (last_predictions : list Z) : bool :=
  forallb (fun t => t =? _end_index self) last_predictions.

(** The body of the loop after the early-stop test. *)
Definition loop_body (s : LoopState) (last_predictions : list Z) (w : World)
  : World * result LoopState :=
  let c := call StepArg step last_predictions (state s) w in
  match expand_beam self batch_size num_classes forced last_predictions
          (last_log_probabilities s) c.2.1 with
  | Raise e => (c.1, Raise e)
  | Ok loc =>
      let s' := {| predictions := predictions s ++ [restricted_predicted_classes loc];
                   backpointers := backpointers s ++ [backpointer loc];
                   last_log_probabilities := restricted_beam_log_probs loc;
                   state := c.2.2 |} in
      let u := update_state (gather_state batch_size beam (backpointer loc)) c.2.2 c.1 in
      match u.2 with
      | Ok _ => (u.1, Ok s')
      | Raise e => (u.1, Raise e)
      end
  end.

(** [for timestep in range(n): ...] with its [break]. *)
Fixpoint loop (n : nat) (s : LoopState) (w : World) : World * result LoopState :=
  match n with
  | O => (w, Ok s)
  | S n' =>
      match last_predictions_of s with
      | Raise e => (w, Raise e)
      | Ok last_predictions =>
          if all_ended last_predictions then (w, Ok s)
          else
            let r := loop_body s last_predictions w in
            match r.2 with
            | Ok s' => loop n' s' r.1
            | Raise e => (r.1, Raise e)
            end
      end
  end.

End Loop.

(** ** Reconstruction *)

(** [t.unsqueeze(2)]. *)
Definition unsqueeze2 (t : list (list Z)) : list (list (list Z)) :=
  (fun row : list Z => (fun x => [x]) <$> row) <$> t.

(** Python [l[i]] for [i >= 0]. *)
Definition index {A : Type} (l : list A) (i : nat) : result A :=
  match l !! i with
  | Some x => Ok x
  | None => Raise IndexError
  end.

(** [for timestep in range(len(predictions) - 2, 0, -1): ...], entered at
    [timestep]. *)
Fixpoint walk_back (predictions backpointers : list (list (list Z)))
    (timestep : nat) (cur_backpointers : list (list Z))
    (reconstructed_predictions : list (list (list (list Z))))
  : result (list (list (list (list Z))) * list (list Z)) :=
  match timestep with
  | O => Ok (reconstructed_predictions, cur_backpointers)
  | S t' =>
      p <- index predictions timestep ;;
      cur_preds <- gather p cur_backpointers ;;
      bp <- index backpointers t' ;;
      cur' <- gather bp cur_backpointers ;;
      walk_back predictions backpointers t' cur'
        (reconstructed_predictions ++ [unsqueeze2 cur_preds])
  end.

(** [torch.cat([a, b], 2)]: the first two dimensions must agree. *)
Definition cat_pair (a b : list (list (list Z))) : result (list (list (list Z))) :=
  if (length a =? length b)%nat
     && forallb (fun p => (length p.1 =? length p.2)%nat) (zip a b)
  then Ok (zip_with (zip_with app) a b)
  else Raise RuntimeError.

(** [torch.cat(ts, 2)]. *)
Fixpoint cat2 (ts : list (list (list (list Z)))) : result (list (list (list Z))) :=
  match ts with
  | [] => Raise RuntimeError
  | [t] => Ok t
  | t :: ts' => r <- cat2 ts' ;; cat_pair t r
  end.

Definition reconstruct (predictions backpointers : list (list (list Z)))
  : result (list (list (list Z))) :=
  last_p <- match last predictions with Some p => Ok p | None => Raise IndexError end ;;
  cur_backpointers <-
    match last backpointers with Some b => Ok b | None => Raise IndexError end ;;
  wb <- walk_back predictions backpointers (length predictions - 2) cur_backpointers
          [unsqueeze2 last_p] ;;
  p0 <- index predictions 0 ;;
  final_preds <- gather p0 wb.2 ;;
  cat2 (reverse (wb.1 ++ [unsqueeze2 final_preds])).

(** ** [search] *)

(** Everything before the loop. *)
Record Prologue : Type := mkPrologue {
  pr_batch_size : nat;
  pr_num_classes : nat;
  pr_start_scores : ScoreTensor;
  pr_forced : list (list Score);
  pr_loop_state : LoopState
}.

(** [first_step = first_step or step]. *)
Definition first_step_or (first_step : option StepFunctionType) (step : StepFunctionType)
  : StepFunctionType :=
  match first_step with
  | Some f => f
  | None => step
  end.

Definition first_callee (first_step : option StepFunctionType) : Callee :=
  match first_step with
  | Some _ => FirstStepArg
  | None => StepArg
  end.

Definition search_init (start_predictions : list Z) (start_state : nat)
    (step : StepFunctionType) (first_step : option StepFunctionType) (w : World)
  : World * result Prologue :=
  let self := self_fields w in
  let batch_size := length start_predictions in
  let c := call (first_callee first_step) (first_step_or first_step step)
             start_predictions start_state w in
  let start_class_log_probabilities := c.2.1 in
  let num_classes := num_cols start_class_log_probabilities in
  if Z.of_nat num_classes <? per_node_beam_size self
  then (c.1, Raise ConfigurationError)
  else
    match topk (beam_size self) num_classes (rows start_class_log_probabilities) with
    | Raise e => (c.1, Raise e)
    | Ok tp =>
        let beam := Z.to_nat (beam_size self) in
        match log_probs_after_end (batch_size * beam) num_classes (_end_index self) with
        | Raise e => (c.1, Raise e)
        | Ok forced =>
            let u := update_state (expand_state batch_size beam) c.2.2 c.1 in
            match u.2 with
            | Raise e => (u.1, Raise e)
            | Ok _ =>
                (u.1, Ok {| pr_batch_size := batch_size;
                            pr_num_classes := num_classes;
                            pr_start_scores := start_class_log_probabilities;
                            pr_forced := forced;
                            pr_loop_state :=
                              {| predictions := [tp.2];
                                 backpointers := [];
                                 last_log_probabilities := tp.1;
                                 state := c.2.2 |} |})
            end
        end
    end.

(** The prologue and the loop: the state the reconstruction starts from. *)
Definition search_loop (start_predictions : list Z) (start_state : nat)
    (step : StepFunctionType) (first_step : option StepFunctionType) (w : World)
  : World * result LoopState :=
  let i := search_init start_predictions start_state step first_step w in
  match i.2 with
  | Raise e => (i.1, Raise e)
  | Ok pr =>
      loop (self_fields w) step (pr_batch_size pr) (pr_num_classes pr) (pr_forced pr)
        (Z.to_nat (max_steps (self_fields w) - 1)) (pr_loop_state pr) i.1
  end.

Definition search (start_predictions : list Z) (start_state : nat)
    (step : StepFunctionType) (first_step : option StepFunctionType) (w : World)
  : World * result (list (list (list Z)) * list (list Score)) :=
  let l := search_loop start_predictions start_state step first_step w in
  match l.2 with
  | Raise e => (l.1, Raise e)
  | Ok s =>
      (l.1, all_predictions <- reconstruct (predictions s) (backpointers s) ;;
            Ok (all_predictions, last_log_probabilities s))
  end.

(** ** Notions the statements are phrased with *)

(** [iterates ... n s w s' w']: [n] iterations of the loop lead from [s] in
    the world [w] to [s'] in [w']; none of them stopped early, none raised. *)
Inductive iterates (self : BeamSearch) (step : StepFunctionType)
    (batch_size num_classes : nat) (forced : list (list Score))
  : nat -> LoopState -> World -> LoopState -> World -> Prop :=
| iterates_O s w : iterates self step batch_size num_classes forced 0 s w s w
| iterates_S n s w s1 w1 last_predictions s2 w2 :
    iterates self step batch_size num_classes forced n s w s1 w1 ->
    last_predictions_of self batch_size s1 = Ok last_predictions ->
    all_ended self last_predictions = false ->
    loop_body self step batch_size num_classes forced s1 last_predictions w1
      = (w2, Ok s2) ->
    iterates self step batch_size num_classes forced (S n) s w s2 w2.

(** The scores a logged call of [step] contributes, after the forced-end
    replacement. *)
Definition cleaned_of_call (self : BeamSearch) (forced : list (list Score)) (c : Call)
  : list (list Score) :=
  select_rows (_end_index self) (call_tokens c) forced (rows (call_scores c)).

(** Entry [[b][k]] of a two-dimensional tensor. *)
Definition entry {A : Type} (t : list (list A)) (b k : nat) : option A :=
  t !! b ≫= (.!! k).

(** Cumulative log-probability of the hypothesis that sits in slot [k] of
    batch element [b] at timestep [t]: the score of its token at each step,
    following the backpointers to the first step, summed in the order the
    loop sums them.  [cleaned] holds the scores of timesteps [1, 2, ...]. *)
Fixpoint path_score (beam : nat) (start : list (list Score))
    (cleaned : list (list (list Score)))
    (predictions backpointers : list (list (list Z))) (t b k : nat) : option Score :=
  match t with
  | O =>
      tok ← predictions !! 0%nat ≫= (fun p => entry p b k);
      start !! b ≫= (fun row => lookupZ row tok)
  | S t' =>
      tok ← predictions !! t ≫= (fun p => entry p b k);
      p ← backpointers !! t' ≫= (fun bp => entry bp b k);
      v ← cleaned !! t' ≫= (fun c => c !! (b * beam + Z.to_nat p)%nat
                                      ≫= (fun row => lookupZ row tok));
      s ← path_score beam start cleaned predictions backpointers t' b (Z.to_nat p);
      Some (add v s)
  end.

(** The slot at timestep [t] of the hypothesis that sits in slot [k] at
    timestep [t + d]; [backpointers !! i] leads from timestep [i + 1] to
    timestep [i]. *)
Fixpoint ancestor (backpointers : list (list (list Z))) (b t d : nat) (k : Z)
  : option Z :=
  match d with
  | O => Some k
  | S d' =>
      k' ← backpointers !! (t + d')%nat
             ≫= (fun bp => bp !! b ≫= (fun row => lookupZ row k));
      ancestor backpointers b t d' k'
  end.

(** The shape the loop keeps: every recorded tensor has [beam] entries per
    row, there is one more [predictions] entry than [backpointers], and the
    scores have a row per row of the last predictions. *)
Definition shaped (beam : nat) (s : LoopState) : Prop :=
  Forall (Forall (fun row : list Z => length row = beam)) (predictions s) /\
  Forall (Forall (fun row : list Z => length row = beam)) (backpointers s) /\
  Forall (fun row : list Score => length row = beam) (last_log_probabilities s) /\
  length (predictions s) = S (length (backpointers s)) /\
  exists p, last (predictions s) = Some p /\
            length p = length (last_log_probabilities s).

(** Token [[b][a]] of the predictions of timestep [t]. *)
Definition token_at (predictions : list (list (list Z))) (t b : nat) (a : Z)
  : option Z :=
  predictions !! t ≫= (fun p => p !! b ≫= (fun row => lookupZ row a)).

(** A scoring function is deterministic when its scores, the state it
    returns and what it does to the heap do not depend on the hidden
    environment. *)
Definition deterministic (f : StepFunctionType) : Prop :=
  forall tokens st h e1 e2,
    sr_scores (f tokens st h e1) = sr_scores (f tokens st h e2) /\
    sr_state (f tokens st h e1) = sr_state (f tokens st h e2) /\
    sr_heap (f tokens st h e1) = sr_heap (f tokens st h e2).

(** Two worlds that show the same configuration and the same objects. *)
Definition same_inputs (w w' : World) : Prop :=
  self_fields w = self_fields w' /\ heap w = heap w'.

(** A scoring function that neither modifies the object [r] nor returns it
    as its state. *)
Definition keeps_away (r : nat) (f : StepFunctionType) : Prop :=
  forall tokens st h e,
    sr_state (f tokens st h e) <> r /\ sr_heap (f tokens st h e) !! r = h !! r.

(** Two state mappings with the same keys in the same order, whose tensors
    are related by [R] key by key. *)
Definition same_keys (R : list Cell -> list Cell -> Prop) (d d' : StateType) : Prop :=
  Forall2 (fun kv kv' => kv'.1 = kv.1 /\ R kv.2 kv'.2) d d'.

(** [t'] holds every slice of [t] [beam] times in a row: slice
    [b * beam + k] of [t'] is slice [b] of [t]. *)
Definition broadcast (beam : nat) (t t' : list Cell) : Prop :=
  length t' = (length t * beam)%nat /\
  forall b k, (k < beam)%nat -> t' !! (b * beam + k)%nat = t !! b.

(** [t'] holds, in slot [k] of batch element [b], the slice [t] held in the
    slot [backpointer[b][k]] of that batch element. *)
Definition regathered (beam : nat) (backpointer : list (list Z)) (t t' : list Cell)
  : Prop :=
  length t' = length t /\
  forall b k p, entry backpointer b k = Some p ->
    t' !! (b * beam + k)%nat = t !! (b * beam + Z.to_nat p)%nat.

(** The hypotheses in the slots [k1] and [k2] of batch element [b] after [n]
    iterations have the same token at every timestep. *)
Definition same_path (preds bps : list (list (list Z))) (b n : nat) (k1 k2 : Z) : Prop :=
  forall t, (t <= n)%nat ->
    exists a1 a2 tok,
      ancestor bps b t (n - t) k1 = Some a1 /\
      ancestor bps b t (n - t) k2 = Some a2 /\
      token_at preds t b a1 = Some tok /\ token_at preds t b a2 = Some tok.

(** A score tensor whose rows all have [num_cols] entries. *)
Definition well_formed (t : ScoreTensor) : Prop :=
  Forall (fun row => length row = num_cols t) (rows t).

(** A scoring function over a vocabulary of [num_classes] classes: every
    score tensor it returns is well formed and has [num_classes] columns. *)
Definition over_vocabulary (num_classes : nat) (f : StepFunctionType) : Prop :=
  forall tokens st h e,
    well_formed (sr_scores (f tokens st h e)) /\
    num_cols (sr_scores (f tokens st h e)) = num_classes.

(** A tensor of shape [(batch, beam)]. *)
Definition grid {A : Type} (batch beam : nat) (t : list (list A)) : Prop :=
  length t = batch /\ Forall (fun row => length row = beam) t.

(** Once an iteration has run, every recorded tensor is a
    [(batch, beam)] grid and every backpointer is a beam slot. *)
Definition gridded (batch beam : nat) (s : LoopState) : Prop :=
  Forall (grid batch beam) (predictions s) /\
  Forall (grid batch beam) (backpointers s) /\
  Forall (Forall (Forall (fun i => 0 <= i < Z.of_nat beam))) (backpointers s).

End BeamSearch.

(** A result that is not the configuration error. *)
Definition no_config {A : Type} (r : result A) : Prop := r <> Raise ConfigurationError.

(** * Concrete searches

    Integers with minus infinity stand in for the floats, a state tensor
    holds one number per row, and the hidden environment counts the calls. *)

Module Example.

Inductive xscore : Type := NegInf | Fin (z : Z).

Definition xadd (a b : xscore) : xscore :=
  match a, b with
  | Fin x, Fin y => Fin (x + y)
  | _, _ => NegInf
  end.

Definition xgtb (a b : xscore) : bool :=
  match a, b with
  | Fin x, Fin y => y <? x
  | Fin _, NegInf => true
  | NegInf, _ => false
  end.

(** The order of equal values in the examples, unless stated otherwise:
    the lowest index first. *)
#[export] Instance lowest_first : TieOrder xscore := fun _ _ _ _ => false.

Definition xsearch :=
  search (Cell:=nat) (Env:=nat) xadd (Fin 0) NegInf xgtb.
Definition xsearch_init :=
  search_init (Cell:=nat) (Env:=nat) (Fin 0) NegInf xgtb.
Definition xsearch_loop :=
  search_loop (Cell:=nat) (Env:=nat) xadd (Fin 0) NegInf xgtb.
Definition xloop_body := loop_body (Cell:=nat) (Env:=nat) xadd xgtb.
Definition xiterates := iterates (Cell:=nat) (Env:=nat) xadd xgtb.

(** The caller's state: one entry, one row per batch element. *)
Definition start_state : StateType (Cell:=nat) := [("h"%string, [7%nat])].

Definition world (self : BeamSearch) (e : nat)
  : World (Score:=xscore) (Cell:=nat) (Env:=nat) :=
  {| self_fields := self; heap := {[ 0%nat := start_state ]}; env := e; calls := [] |}.

(** A scoring function that gives every hypothesis the same scores and
    hands back the state mapping it was given. *)
Definition scores_in_place (row : list xscore)
  : StepFunctionType (Score:=xscore) (Cell:=nat) (Env:=nat) :=
  fun tokens st h e =>
    {| sr_scores := mkScores (length row) (replicate (length tokens) row);
       sr_state := st; sr_heap := h; sr_env := S e |}.

(** The same scores, with the state written to a mapping of its own (the
    object [1]). *)
Definition scores_in_copy (row : list xscore)
  : StepFunctionType (Score:=xscore) (Cell:=nat) (Env:=nat) :=
  fun tokens st h e =>
    {| sr_scores := mkScores (length row) (replicate (length tokens) row);
       sr_state := 1%nat;
       sr_heap := <[1%nat := default [] (h !! st)]> h;
       sr_env := S e |}.

Definition first_row : list xscore := [Fin (-5); Fin (-1); Fin (-2)].
Definition step_row : list xscore := [Fin (-1); Fin (-2); Fin (-3)].

(** [BeamSearch(end_index=0, max_steps=5, beam_size=2, per_node_beam_size=2)]. *)
Definition self5 : BeamSearch := BeamSearch_init 0 5 2 (Some 2).

(** The same with [max_steps=1]. *)
Definition self1 : BeamSearch := BeamSearch_init 0 1 2 (Some 2).

(** [per_node_beam_size=4], larger than the vocabulary of three. *)
Definition self_wide : BeamSearch := BeamSearch_init 0 3 2 (Some 4).

(** [beam_size=1]: the only hypothesis can end at the first step. *)
Definition self_narrow : BeamSearch := BeamSearch_init 0 3 1 None.

(** *** The running example

    One batch element, [first_step] preferring tokens [1] and [2], [step]
    preferring the end token [0]. *)

Definition first3 := scores_in_place first_row.
Definition step3 := scores_in_place step_row.

Definition no_prologue : Prologue (Score:=xscore) :=
  mkPrologue 0 0 (mkScores 0 []) [] (mkLoopState [] [] [] 0).

Definition get {A : Type} (d : A) (r : result A) : A :=
  match r with Ok a => a | Raise _ => d end.

Definition init3 := xsearch_init [9] 0%nat step3 (Some first3) (world self5 0).

(** After the prologue. *)
Definition w3_0 : World (Score:=xscore) (Cell:=nat) (Env:=nat) :=
  Eval vm_compute in (xsearch_init [9] 0%nat step3 (Some first3) (world self5 0)).1.
Definition pr3 : Prologue (Score:=xscore) :=
  Eval vm_compute in
    get no_prologue (xsearch_init [9] 0%nat step3 (Some first3) (world self5 0)).2.
Definition forced3 : list (list xscore) := Eval vm_compute in pr_forced pr3.
Definition s3_0 : LoopState (Score:=xscore) := Eval vm_compute in pr_loop_state pr3.

(** After one and two iterations; every hypothesis has then ended. *)
Definition lp3_0 : list Z := [1; 2].
Definition w3_1 : World (Score:=xscore) (Cell:=nat) (Env:=nat) :=
  Eval vm_compute in (xloop_body self5 step3 1 3 forced3 s3_0 lp3_0 w3_0).1.
Definition s3_1 : LoopState (Score:=xscore) :=
  Eval vm_compute in
    get s3_0 (xloop_body self5 step3 1 3 forced3 s3_0 lp3_0 w3_0).2.
Definition lp3_1 : list Z := [0; 1].
Definition w3_2 : World (Score:=xscore) (Cell:=nat) (Env:=nat) :=
  Eval vm_compute in (xloop_body self5 step3 1 3 forced3 s3_1 lp3_1 w3_1).1.
Definition s3_2 : LoopState (Score:=xscore) :=
  Eval vm_compute in
    get s3_1 (xloop_body self5 step3 1 3 forced3 s3_1 lp3_1 w3_1).2.

(** What the search of the running example returns. *)
Definition w3_end : World (Score:=xscore) (Cell:=nat) (Env:=nat) :=
  Eval vm_compute in (xsearch [9] 0%nat step3 (Some first3) (world self5 0)).1.
Definition out3 : list (list (list Z)) := [[[1; 0; 0]; [1; 1; 0]]].
Definition lps3 : list (list xscore) := [[Fin (-2); Fin (-4)]].

(** *** [max_steps=1] *)

Definition w1_0 : World (Score:=xscore) (Cell:=nat) (Env:=nat) :=
  Eval vm_compute in (xsearch_init [9] 0%nat step3 (Some first3) (world self1 0)).1.
Definition pr1 : Prologue (Score:=xscore) :=
  Eval vm_compute in
    get no_prologue (xsearch_init [9] 0%nat step3 (Some first3) (world self1 0)).2.

(** *** A beam of one that ends at once *)

Definition narrow_first : LoopState (Score:=xscore) :=
  Eval vm_compute in
    pr_loop_state
      (get no_prologue (xsearch_init [9] 0%nat step3 None (world self_narrow 0)).2).

(** *** A finished hypothesis that continues

    Three tokens with [end_index = 0], a beam of three and two candidates
    per node, one iteration ([max_steps = 2]).  [first_step] prefers the
    token [1], then the end token, and gives the token [2] probability zero;
    [step] gives the end token probability one.  The pruning then has two
    finite candidates and four candidates of score [-inf] for three slots. *)

Definition self_tie : BeamSearch := BeamSearch_init 0 2 3 (Some 2).
Definition tie_first_row : list xscore := [Fin (-2); Fin (-1); NegInf].
Definition tie_step_row : list xscore := [Fin 0; NegInf; NegInf].

(** The order of equal values that a selection by partitioning
    ([std::nth_element], as in torch's CPU kernel) yields on the six
    candidates of that pruning: the candidate of rank [3] comes before the
    other candidates of score [-inf].  Every other [topk] of the example
    is settled without it. *)
Definition partition_order : TieOrder xscore :=
  fun k row i j => (k =? 3) && (length row =? 6)%nat && (i =? 3)%nat.

Definition tie_search_loop :=
  search_loop (Cell:=nat) (Env:=nat) (tie_order:=partition_order)
    xadd (Fin 0) NegInf xgtb [9] 0%nat
    (scores_in_place tie_step_row) (Some (scores_in_place tie_first_row))
    (world self_tie 0).
Definition tie_search :=
  search (Cell:=nat) (Env:=nat) (tie_order:=partition_order)
    xadd (Fin 0) NegInf xgtb [9] 0%nat
    (scores_in_place tie_step_row) (Some (scores_in_place tie_first_row))
    (world self_tie 0).
Definition tie_before : LoopState (Score:=xscore) :=
  Eval vm_compute in
    pr_loop_state
      (get no_prologue
         (search_init (Cell:=nat) (Env:=nat) (tie_order:=partition_order)
            (Fin 0) NegInf xgtb [9] 0%nat
            (scores_in_place tie_step_row) (Some (scores_in_place tie_first_row))
            (world self_tie 0)).2).
Definition tie_after : LoopState (Score:=xscore) :=
  Eval vm_compute in get tie_before tie_search_loop.2.

(** *** Configurations and states the search refuses *)

(** A beam of four over the vocabulary of three. *)
Definition self_broad : BeamSearch := BeamSearch_init 0 3 4 (Some 2).

(** An end token that is not in the vocabulary of three. *)
Definition self_far : BeamSearch := BeamSearch_init 7 3 2 (Some 2).

(** A beam of five and the default [per_node_beam_size]. *)
Definition self_default : BeamSearch := BeamSearch_init 0 3 5 None.

(** A state whose second tensor has two slices for a batch of one. *)
Definition two_entries : StateType (Cell:=nat) :=
  [("h"%string, [7%nat]); ("c"%string, [1%nat; 2%nat])].

Definition world_two (self : BeamSearch) (e : nat)
  : World (Score:=xscore) (Cell:=nat) (Env:=nat) :=
  {| self_fields := self; heap := {[ 0%nat := two_entries ]}; env := e; calls := [] |}.

(** The expansion of the beam in the second iteration of the running
    example. *)
Definition no_locals : StepLocals (Score:=xscore) := mkLocals [] [] [] [] [] [] [] [].
Definition loc3_2 : StepLocals (Score:=xscore) :=
  Eval vm_compute in
    get no_locals
      (expand_beam xadd xgtb self5 1 3 forced3 lp3_1 (last_log_probabilities s3_1)
         (sr_scores (step3 lp3_1 (state s3_1) (heap w3_1) (env w3_1)))).

End Example.

(** * Properties *)

(** ** The error monad and the list primitives *)

Lemma bind_ok {A B : Type} (m : result A) (f : A -> result B) (b : B) :
  bind m f = Ok b -> exists a, m = Ok a /\ f a = Ok b.
Proof. destruct m as [a|e]; simpl; [eauto | discriminate]. Qed.

Ltac inv_bind H :=
  let a := fresh "a" in
  let Ha := fresh "Ha" in
  apply bind_ok in H; destruct H as (a & Ha & H).

Lemma mapM_Forall2 {A B : Type} (f : A -> result B) (l : list A) (l' : list B) :
  mapM f l = Ok l' <-> Forall2 (fun x y => f x = Ok y) l l'.
Proof.
  revert l'. induction l as [|x l IH]; intros l'; simpl.
  - split; [intros [= <-]; constructor | intros H; inversion H; reflexivity].
  - split.
    + intros H. inv_bind H. inv_bind H. injection H as <-.
      constructor; [assumption | by apply IH].
    + intros H. inversion H as [|? y ? ys Hf Hl]; subst.
      rewrite Hf; simpl. apply IH in Hl. rewrite Hl. reflexivity.
Qed.

Lemma mapM_length {A B : Type} (f : A -> result B) (l : list A) (l' : list B) :
  mapM f l = Ok l' -> length l' = length l.
Proof. intros H. apply mapM_Forall2 in H. symmetry. eapply Forall2_length, H. Qed.

Lemma mapM_lookup {A B : Type} (f : A -> result B) (l : list A) (l' : list B) i y :
  mapM f l = Ok l' -> l' !! i = Some y -> exists x, l !! i = Some x /\ f x = Ok y.
Proof.
  intros H Hy. apply mapM_Forall2 in H.
  destruct (Forall2_lookup_r _ _ _ _ _ H Hy) as (x & Hx & Hf). eauto.
Qed.

Lemma mapM_total {A B : Type} (f : A -> result B) (l : list A) :
  Forall (fun x => exists y, f x = Ok y) l -> exists l', mapM f l = Ok l'.
Proof.
  induction l as [|x l IH]; intros H; simpl; [eauto|].
  inversion H as [|? ? [y Hy] Hl]; subst.
  destruct (IH Hl) as [ys Hys]. rewrite Hy; simpl. rewrite Hys; simpl. eauto.
Qed.

Lemma lookupZ_Some {A : Type} (l : list A) (i : Z) (x : A) :
  lookupZ l i = Some x <-> 0 <= i /\ l !! Z.to_nat i = Some x.
Proof.
  unfold lookupZ. destruct (Z.ltb_spec i 0) as [Hi|Hi]; split.
  - discriminate.
  - intros [? _]. exfalso. lia.
  - intros H. split; [exact Hi | exact H].
  - intros [_ H]. exact H.
Qed.

Lemma chunks_length {A : Type} (n m : nat) (l : list A) : length (chunks n m l) = n.
Proof. revert l. induction n as [|n IH]; intros l; simpl; [done | by rewrite IH]. Qed.

Lemma chunks_lookup {A : Type} (n m : nat) (l : list A) (b : nat) :
  (b < n)%nat -> chunks n m l !! b = Some (take m (drop (b * m) l)).
Proof.
  revert l b. induction n as [|n IH]; intros l b Hb; [lia|].
  destruct b as [|b]; simpl; [done|].
  rewrite IH by lia. by rewrite drop_drop.
Qed.

Lemma chunks_row_length {A : Type} (n m : nat) (l : list A) :
  length l = (n * m)%nat -> Forall (fun row => length row = m) (chunks n m l).
Proof.
  revert l. induction n as [|n IH]; intros l Hl; simpl; constructor.
  - rewrite length_take. lia.
  - apply IH. rewrite length_drop. lia.
Qed.

Lemma chunks_entry {A : Type} (n m : nat) (l : list A) (b j : nat) (row : list A) :
  chunks n m l !! b = Some row -> (j < m)%nat -> row !! j = l !! (b * m + j)%nat.
Proof.
  intros Hrow Hj.
  assert (b < n)%nat as Hb.
  { apply lookup_lt_Some in Hrow. by rewrite chunks_length in Hrow. }
  rewrite chunks_lookup in Hrow by done. injection Hrow as <-.
  rewrite lookup_take_lt by done. by rewrite lookup_drop.
Qed.

Lemma concat_chunks {A : Type} (n m : nat) (l : list A) :
  length l = (n * m)%nat -> concat (chunks n m l) = l.
Proof.
  revert l. induction n as [|n IH]; intros l Hl; simpl.
  - destruct l; [done | simpl in Hl; lia].
  - rewrite IH; [apply take_drop | rewrite length_drop; lia].
Qed.

(** Entry [r * m + j] of the flattening of rows of [m] entries. *)
Lemma concat_lookup_uniform {A : Type} (t : list (list A)) (m r j : nat) :
  Forall (fun row => length row = m) t -> (j < m)%nat ->
  concat t !! (r * m + j)%nat = t !! r ≫= (.!! j).
Proof.
  intros Ht Hj. revert r. induction Ht as [|row t Hrow _ IH]; intros r; simpl.
  - by rewrite !lookup_nil.
  - destruct r as [|r]; simpl.
    + rewrite lookup_app_l by lia. done.
    + rewrite lookup_app_r by lia.
      replace (m + r * m + j - length row)%nat with (r * m + j)%nat by lia.
      apply IH.
Qed.

Lemma concat_length_uniform {A : Type} (t : list (list A)) (m : nat) :
  Forall (fun row => length row = m) t -> length (concat t) = (length t * m)%nat.
Proof.
  induction 1 as [|row t Hrow _ IH]; simpl; [done|].
  rewrite length_app, IH, Hrow. lia.
Qed.

Lemma gather_row_spec {A : Type} (row : list A) (idx : list Z) (out : list A) :
  gather_row row idx = Ok out ->
  length out = length idx /\
  forall k x, out !! k = Some x ->
    exists i, idx !! k = Some i /\ 0 <= i /\ row !! Z.to_nat i = Some x.
Proof.
  unfold gather_row. intros H. split; [eapply mapM_length, H|].
  intros k x Hx. destruct (mapM_lookup _ _ _ _ _ H Hx) as (i & Hi & Hf).
  exists i. split; [done|].
  destruct (lookupZ row i) as [y|] eqn:Hy; [|discriminate].
  injection Hf as ->. by apply lookupZ_Some.
Qed.

Lemma gather_spec {A : Type} (t : list (list A)) (index : list (list Z))
    (out : list (list A)) :
  gather t index = Ok out ->
  length out = length index /\
  forall b orow, out !! b = Some orow ->
    exists row idx, t !! b = Some row /\ index !! b = Some idx /\
                    gather_row row idx = Ok orow.
Proof.
  unfold gather. destruct (length index <=? length t)%nat eqn:Hle; [|discriminate].
  apply Nat.leb_le in Hle. intros H. split.
  - rewrite (mapM_length _ _ _ H), length_zip. lia.
  - intros b orow Ho. destruct (mapM_lookup _ _ _ _ _ H Ho) as ([row idx] & Hp & Hf).
    apply lookup_zip_with_Some in Hp as (r & i & [= <- <-] & Hr & Hi). eauto.
Qed.

Lemma gather_total {A : Type} (t : list (list A)) (index : list (list Z)) (m : nat) :
  (length index <= length t)%nat ->
  Forall (fun row => length row = m) t ->
  Forall (Forall (fun i => 0 <= i < Z.of_nat m)) index ->
  exists out, gather t index = Ok out.
Proof.
  intros Hle Ht Hi. unfold gather.
  destruct (Nat.leb_spec (length index) (length t)); [|lia].
  apply mapM_total. apply Forall_forall. intros [row idx] Hin.
  apply list_elem_of_lookup in Hin as [b Hb].
  apply lookup_zip_with_Some in Hb as (r & i & [= <- <-] & Hr & Hidx).
  simpl.
  assert (Forall (fun i => 0 <= i < Z.of_nat m) idx) as Hidxr
    by (eapply Forall_lookup_1 in Hi; eauto).
  assert (length row = m) as Hrow by (eapply Forall_lookup_1 in Ht; eauto).
  apply mapM_total. eapply Forall_impl; [exact Hidxr|]. intros j Hjr. simpl in Hjr |- *.
  destruct (lookupZ row j) as [x|] eqn:Hx; [eauto|].
  exfalso. unfold lookupZ in Hx. destruct (Z.ltb_spec j 0); [lia|].
  apply lookup_ge_None in Hx. lia.
Qed.

Section Properties.

Context {Score Cell Env : Type} {tie_order : TieOrder Score}.
Variable add : Score -> Score -> Score.
Variables zero neg_inf : Score.
Variable gtb : Score -> Score -> bool.

(** ** Top-k selection *)

Lemma insert_desc_perm (before : nat -> nat -> bool) (x : Score * nat)
    (l : list (Score * nat)) :
  insert_desc gtb before x l ≡ₚ x :: l.
Proof.
  induction l as [|y l IH]; simpl; [done|].
  destruct (_ || _); [|done].
  rewrite IH. apply Permutation_swap.
Qed.

Lemma sort_desc_perm (before : nat -> nat -> bool) (l : list (Score * nat)) :
  sort_desc gtb before l ≡ₚ l.
Proof.
  induction l as [|x l IH]; simpl; [done|].
  rewrite insert_desc_perm. by rewrite IH.
Qed.

Lemma enumerate_elem (row : list Score) (v : Score) (i : nat) :
  (v, i) ∈ enumerate row <-> row !! i = Some v.
Proof.
  unfold enumerate. rewrite elem_of_lookup_imap. split.
  - intros (j & x & [= -> ->] & Hx). done.
  - intros H. eauto.
Qed.

(** What every use of [topk] relies on: exactly [k] entries come back, and
    each returned value is the entry of the row at the returned index. *)
Lemma topk_row_spec (k : Z) (row vals : list Score) (idxs : list Z) :
  topk_row gtb k row = Ok (vals, idxs) ->
  0 <= k <= Z.of_nat (length row) /\
  length vals = Z.to_nat k /\ length idxs = Z.to_nat k /\
  forall j, (j < Z.to_nat k)%nat ->
    exists v n, vals !! j = Some v /\ idxs !! j = Some (Z.of_nat n) /\
                row !! n = Some v.
Proof.
  unfold topk_row.
  destruct (Z.ltb_spec k 0) as [Hk|Hk]; simpl; [discriminate|].
  destruct (Z.ltb_spec (Z.of_nat (length row)) k) as [Hl|Hl]; [discriminate|].
  intros [= <- <-].
  set (sorted := sort_desc gtb (tie k row) (enumerate row)).
  assert (length sorted = length row) as Hlen.
  { unfold sorted. rewrite sort_desc_perm. unfold enumerate. by rewrite length_imap. }
  split; [lia|].
  rewrite !length_fmap, length_take.
  split; [lia|]. split; [lia|].
  intros j Hj.
  destruct (lookup_lt_is_Some_2 (take (Z.to_nat k) sorted) j) as [[v n] Hvn].
  { rewrite length_take. lia. }
  exists v, n. rewrite !list_lookup_fmap, Hvn. simpl.
  split; [done|]. split; [done|].
  apply enumerate_elem. rewrite <- (sort_desc_perm (tie k row) (enumerate row)).
  rewrite lookup_take_lt in Hvn by done.
  eapply list_elem_of_lookup_2, Hvn.
Qed.

Lemma topk_spec (k : Z) (ncols : nat) (t V : list (list Score)) (I : list (list Z)) :
  topk gtb k ncols t = Ok (V, I) ->
  0 <= k <= Z.of_nat ncols /\
  length V = length t /\ length I = length t /\
  forall r, (r < length t)%nat ->
    exists row vals idxs, t !! r = Some row /\ V !! r = Some vals /\
      I !! r = Some idxs /\ topk_row gtb k row = Ok (vals, idxs).
Proof.
  unfold topk.
  destruct (Z.ltb_spec k 0) as [Hk|Hk]; simpl; [discriminate|].
  destruct (Z.ltb_spec (Z.of_nat ncols) k) as [Hl|Hl]; [discriminate|].
  intros H. inv_bind H. injection H as <- <-.
  pose proof (mapM_length _ _ _ Ha) as Hlen.
  split; [lia|]. rewrite !length_fmap. split; [done|]. split; [done|].
  intros r Hr.
  destruct (lookup_lt_is_Some_2 a r) as [[vals idxs] Hvi]; [lia|].
  destruct (mapM_lookup _ _ _ _ _ Ha Hvi) as (row & Hrow & Hf).
  exists row, vals, idxs. rewrite !list_lookup_fmap, Hvi. done.
Qed.

(** Rows of a [topk] result have exactly [k] entries. *)
Lemma topk_row_lengths (k : Z) (ncols : nat) (t V : list (list Score)) (I : list (list Z)) :
  topk gtb k ncols t = Ok (V, I) ->
  Forall (fun row => length row = Z.to_nat k) V /\
  Forall (fun row => length row = Z.to_nat k) I.
Proof.
  intros H. destruct (topk_spec _ _ _ _ _ H) as (_ & HV & HI & Hrows).
  split; apply Forall_lookup_2; intros r x Hx.
  - destruct (Hrows r) as (row & vals & idxs & _ & Hv & _ & Hk).
    { apply lookup_lt_Some in Hx. lia. }
    rewrite Hv in Hx. injection Hx as <-.
    by destruct (topk_row_spec _ _ _ _ Hk) as (_ & ? & _).
  - destruct (Hrows r) as (row & vals & idxs & _ & _ & Hi & Hk).
    { apply lookup_lt_Some in Hx. lia. }
    rewrite Hi in Hx. injection Hx as <-.
    by destruct (topk_row_spec _ _ _ _ Hk) as (_ & _ & ? & _).
Qed.

(** ** One expansion of the beam *)

Lemma entry_Some {A : Type} (t : list (list A)) (b k : nat) (x : A) :
  entry t b k = Some x <-> exists row, t !! b = Some row /\ row !! k = Some x.
Proof.
  unfold entry. destruct (t !! b) as [row|]; simpl; split.
  - eauto.
  - by intros (? & [= <-] & ?).
  - discriminate.
  - by intros (? & ? & _).
Qed.

Lemma select_rows_length (e : Z) (lp : list Z) (forced scores : list (list Score)) (n : nat) :
  length lp = n -> length forced = n -> length scores = n ->
  length (select_rows e lp forced scores) = n.
Proof.
  intros H1 H2 H3. unfold select_rows.
  rewrite length_zip_with, length_zip. lia.
Qed.

Lemma where_end_spec (e : Z) (n C : nat) (lp : list Z) (forced : list (list Score))
    (clp : ScoreTensor) (cleaned : list (list Score)) :
  where_end e n C lp forced clp = Ok cleaned ->
  cleaned = select_rows e lp forced (rows clp) /\
  length (rows clp) = n /\ num_cols clp = C.
Proof.
  unfold where_end.
  destruct (Nat.eqb_spec (length (rows clp)) n); simpl; [|discriminate].
  destruct (Nat.eqb_spec (num_cols clp) C); [|discriminate].
  by intros [= <-].
Qed.

Lemma reshape2_spec {A : Type} (n m : nat) (t out : list (list A)) :
  reshape2 n m t = Ok out ->
  length (concat t) = (n * m)%nat /\ out = chunks n m (concat t).
Proof.
  unfold reshape2. destruct (Nat.eqb_spec (length (concat t)) (n * m)); [|discriminate].
  by intros [= <-].
Qed.

Lemma add_expanded_last_length (T last : list (list Score)) (n : nat) :
  length T = n -> length (concat last) = n ->
  length (add_expanded_last add T last) = n.
Proof. intros H1 H2. unfold add_expanded_last. rewrite length_zip_with. lia. Qed.

Lemma add_expanded_last_rows (T last : list (list Score)) (m : nat) :
  Forall (fun row => length row = m) T ->
  Forall (fun row => length row = m) (add_expanded_last add T last).
Proof.
  intros HT. unfold add_expanded_last. apply Forall_lookup_2. intros r row Hrow.
  apply lookup_zip_with_Some in Hrow as (x & l & -> & Hx & _).
  rewrite length_fmap. eapply Forall_lookup_1 in HT; eauto.
Qed.

(** Entry [n] of row [b] of a [(batch, beam * m)] reshape of [batch * beam]
    rows of [m] entries. *)
Lemma regroup_entry {A : Type} (batch beam m : nat) (t : list (list A))
    (b n : nat) (row : list A) :
  Forall (fun r => length r = m) t ->
  chunks batch (beam * m) (concat t) !! b = Some row ->
  (n < beam * m)%nat ->
  row !! n = entry t (b * beam + n / m) (n mod m).
Proof.
  intros Ht Hrow Hn.
  assert (m <> 0)%nat as Hm by lia.
  rewrite (chunks_entry _ _ _ _ _ _ Hrow Hn).
  unfold entry. rewrite <- (concat_lookup_uniform t m) by (done || by apply Nat.mod_upper_bound).
  f_equal. pose proof (Nat.div_mod_eq n m). nia.
Qed.

(** Shapes after one expansion. *)
Lemma expand_beam_shape (self : BeamSearch) (batch_size num_classes : nat)
    (forced : list (list Score)) (lp : list Z) (last : list (list Score))
    (clp : ScoreTensor) (loc : StepLocals) :
  expand_beam add gtb self batch_size num_classes forced lp last clp = Ok loc ->
  0 <= beam_size self /\
  0 <= per_node_beam_size self <= Z.of_nat num_classes /\
  length (restricted_beam_log_probs loc) = batch_size /\
  length (restricted_beam_indices loc) = batch_size /\
  length (restricted_predicted_classes loc) = batch_size /\
  length (backpointer loc) = batch_size /\
  Forall (fun row => length row = Z.to_nat (beam_size self)) (restricted_beam_log_probs loc) /\
  Forall (fun row => length row = Z.to_nat (beam_size self)) (restricted_beam_indices loc) /\
  Forall (fun row => length row = Z.to_nat (beam_size self)) (restricted_predicted_classes loc) /\
  Forall (fun row => length row = Z.to_nat (beam_size self)) (backpointer loc).
Proof.
  unfold expand_beam. intros H.
  apply bind_ok in H as (cleaned & Hc & H).
  apply bind_ok in H as ([T P] & Htp & H). simpl in H.
  apply bind_ok in H as (rs & Hrs & H).
  apply bind_ok in H as (rp & Hrp & H).
  apply bind_ok in H as ([RV RI] & Hr & H). simpl in H.
  apply bind_ok in H as (classes & Hcl & H).
  injection H as <-. simpl.
  destruct (topk_spec _ _ _ _ _ Htp) as (Hper & _).
  destruct (topk_spec _ _ _ _ _ Hr) as (Hbeam & HRV & HRI & _).
  destruct (topk_row_lengths _ _ _ _ _ Hr) as (HRVrows & HRIrows).
  apply reshape2_spec in Hrs as (_ & ->).
  rewrite chunks_length in HRV, HRI.
  destruct (gather_spec _ _ _ Hcl) as (Hcll & Hclrows).
  split; [lia|]. split; [lia|].
  split; [done|]. split; [done|]. split; [lia|].
  split; [by rewrite length_fmap|].
  split; [done|]. split; [done|]. split.
  - apply Forall_lookup_2. intros b orow Ho.
    destruct (Hclrows _ _ Ho) as (row & idx & _ & Hidx & Hg).
    destruct (gather_row_spec _ _ _ Hg) as (-> & _).
    eapply Forall_lookup_1 in HRIrows; eauto.
  - apply Forall_fmap. eapply Forall_impl; [exact HRIrows|].
    intros row Hrow. simpl. by rewrite length_fmap.
Qed.

(** Entry by entry: what a surviving candidate records. *)
Lemma expand_beam_entry (self : BeamSearch) (batch_size num_classes : nat)
    (forced : list (list Score)) (lp : list Z) (last : list (list Score))
    (clp : ScoreTensor) (loc : StepLocals) (b k : nat) :
  expand_beam add gtb self batch_size num_classes forced lp last clp = Ok loc ->
  length lp = (batch_size * Z.to_nat (beam_size self))%nat ->
  length forced = (batch_size * Z.to_nat (beam_size self))%nat ->
  length last = batch_size ->
  Forall (fun row => length row = Z.to_nat (beam_size self)) last ->
  (b < batch_size)%nat -> (k < Z.to_nat (beam_size self))%nat ->
  exists (n c : nat) (v l : Score),
    0 < per_node_beam_size self /\
    (n < Z.to_nat (beam_size self) * Z.to_nat (per_node_beam_size self))%nat /\
    entry (restricted_beam_indices loc) b k = Some (Z.of_nat n) /\
    entry (backpointer loc) b k
      = Some (Z.of_nat (n / Z.to_nat (per_node_beam_size self))) /\
    entry (restricted_predicted_classes loc) b k = Some (Z.of_nat c) /\
    entry (cleaned_log_probabilities loc)
      (b * Z.to_nat (beam_size self) + n / Z.to_nat (per_node_beam_size self)) c
      = Some v /\
    entry last b (n / Z.to_nat (per_node_beam_size self)) = Some l /\
    entry (restricted_beam_log_probs loc) b k = Some (add v l) /\
    cleaned_log_probabilities loc
      = select_rows (_end_index self) lp forced (rows clp).
Proof.
  set (beam := Z.to_nat (beam_size self)).
  set (per := Z.to_nat (per_node_beam_size self)).
  unfold expand_beam. fold beam per. intros H Hlp Hforced Hlast Hrows Hb Hk.
  apply bind_ok in H as (cleaned & Hc & H).
  apply bind_ok in H as ([T P] & Htp & H). simpl in H.
  apply bind_ok in H as (rs & Hrs & H).
  apply bind_ok in H as (rp & Hrp & H).
  apply bind_ok in H as ([RV RI] & Hr & H). simpl in H.
  apply bind_ok in H as (classes & Hcl & H).
  injection H as <-. simpl.
  apply where_end_spec in Hc as (Hcleaned & Hclp & _).
  assert (length cleaned = (batch_size * beam)%nat) as Hclen.
  { rewrite Hcleaned. by apply select_rows_length. }
  destruct (topk_spec _ _ _ _ _ Htp) as (Hper & HT & HP & Htprows).
  destruct (topk_row_lengths _ _ _ _ _ Htp) as (HTrows & HProws). fold per in HTrows, HProws.
  pose proof (add_expanded_last_rows T last per HTrows) as Hsrows.
  apply reshape2_spec in Hrs as (_ & ->).
  apply reshape2_spec in Hrp as (_ & ->).
  destruct (topk_spec _ _ _ _ _ Hr) as (Hbeam & HRV & HRI & Hrrows).
  rewrite chunks_length in HRV, HRI, Hrrows.
  destruct (Hrrows b Hb) as (srow & vals & idxs & Hsrow & Hvals & Hidxs & Htk).
  destruct (topk_row_spec _ _ _ _ Htk) as (Hkr & Hvl & Hil & Hsel).
  destruct (Hsel k Hk) as (v & n & Hv & Hn & Hsn).
  assert (length srow = (beam * per)%nat) as Hsrowlen.
  { rewrite chunks_lookup in Hsrow by done. injection Hsrow as <-.
    rewrite length_take, length_drop, (concat_length_uniform _ per) by done.
    rewrite add_expanded_last_length with (n := (batch_size * beam)%nat);
      [nia | lia | by rewrite (concat_length_uniform _ beam), Hlast]. }
  assert (n < beam * per)%nat as Hnlt by (apply lookup_lt_Some in Hsn; lia).
  assert (per <> 0)%nat as Hper0 by lia.
  assert (n / per < beam)%nat as Hdiv by (apply Nat.Div0.div_lt_upper_bound; lia).
  assert (n mod per < per)%nat as Hmod by (by apply Nat.mod_upper_bound).
  set (r := (b * beam + n / per)%nat).
  assert (r < batch_size * beam)%nat as Hr' by (unfold r; nia).
  (* the summed score *)
  rewrite (regroup_entry _ _ _ _ _ _ _ Hsrows Hsrow Hnlt) in Hsn. fold r in Hsn.
  apply entry_Some in Hsn as (sumrow & Hsumrow & Hsv).
  unfold add_expanded_last in Hsumrow.
  apply lookup_zip_with_Some in Hsumrow as (trow & l & -> & Htrow & Hl).
  unfold r in Hl. rewrite (concat_lookup_uniform last beam) in Hl by done.
  rewrite list_lookup_fmap in Hsv.
  destruct (trow !! (n mod per)%nat) as [v'|] eqn:Hv'; [|discriminate].
  simpl in Hsv. injection Hsv as <-.
  (* the per-node selection the candidate comes from *)
  destruct (Htprows r) as (crow & tvals & tidxs & Hcrow & HTr & HPr & Htkr); [lia|].
  rewrite Htrow in HTr. injection HTr as <-.
  destruct (topk_row_spec _ _ _ _ Htkr) as (_ & _ & _ & Hselr).
  destruct (Hselr (n mod per)%nat Hmod) as (v'' & c & Hv'' & Hc & Hcv).
  rewrite Hv' in Hv''. injection Hv'' as <-.
  (* the gathered class *)
  destruct (gather_spec _ _ _ Hcl) as (Hcll & Hclrows).
  destruct (lookup_lt_is_Some_2 classes b) as [orow Horow]; [lia|].
  destruct (Hclrows _ _ Horow) as (prow & idx & Hprow & Hidx & Hg).
  rewrite Hidxs in Hidx. injection Hidx as <-.
  destruct (gather_row_spec _ _ _ Hg) as (Hol & Hoent).
  destruct (lookup_lt_is_Some_2 orow k) as [x Hx]; [lia|].
  destruct (Hoent _ _ Hx) as (i & Hi & _ & Hpi).
  rewrite Hn in Hi. injection Hi as <-. rewrite Nat2Z.id in Hpi.
  rewrite (regroup_entry _ _ _ _ _ _ _ HProws Hprow Hnlt) in Hpi. fold r in Hpi.
  unfold entry in Hpi. rewrite HPr in Hpi. simpl in Hpi.
  rewrite Hc in Hpi. injection Hpi as <-.
  exists n, c, v', l.
  split; [lia|]. split; [done|].
  split; [apply entry_Some; eauto|].
  split.
  { apply entry_Some. exists ((fun i => Z.quot i (per_node_beam_size self)) <$> idxs).
    rewrite !list_lookup_fmap, Hidxs, Hn. simpl. split; [done|].
    do 2 f_equal. rewrite Z.quot_div_nonneg by lia.
    unfold per. rewrite Nat2Z.inj_div, Z2Nat.id by lia. done. }
  split; [apply entry_Some; eauto|].
  split; [apply entry_Some; eauto|].
  split; [done|].
  split; [apply entry_Some; eauto|].
  done.
Qed.

(** ** The loop *)

Lemma update_state_frame (f : list Cell -> result (list Cell)) (st : nat)
    (w : World (Score:=Score) (Cell:=Cell) (Env:=Env)) :
  self_fields (update_state f st w).1 = self_fields w /\
  calls (update_state f st w).1 = calls w /\
  env (update_state f st w).1 = env w /\
  forall r, r <> st -> heap (update_state f st w).1 !! r = heap w !! r.
Proof.
  unfold update_state. destruct (heap w !! st) as [d|]; simpl; [|done].
  repeat split; try done. intros r Hr. by rewrite lookup_insert_ne.
Qed.

Lemma loop_body_ok (self : BeamSearch) (step : StepFunctionType)
    (batch_size num_classes : nat) (forced : list (list Score))
    (s s' : LoopState) (lp : list Z) (w w' : World (Cell:=Cell) (Env:=Env)) :
  loop_body add gtb self step batch_size num_classes forced s lp w = (w', Ok s') ->
  exists loc,
    expand_beam add gtb self batch_size num_classes forced lp
      (last_log_probabilities s)
      (sr_scores (step lp (state s) (heap w) (env w))) = Ok loc /\
    s' = {| predictions := predictions s ++ [restricted_predicted_classes loc];
            backpointers := backpointers s ++ [backpointer loc];
            last_log_probabilities := restricted_beam_log_probs loc;
            state := sr_state (step lp (state s) (heap w) (env w)) |} /\
    calls w' = calls w ++ [mkCall StepArg lp (state s)
                             (sr_scores (step lp (state s) (heap w) (env w)))] /\
    self_fields w' = self_fields w.
Proof.
  unfold loop_body, call. cbn [fst snd].
  destruct (expand_beam _ _ _ _ _ _ _ _ _) as [loc|e] eqn:Hloc; [|discriminate].
  match goal with |- context [update_state ?f ?st ?w0] =>
    destruct (update_state_frame f st w0) as (Hself & Hcalls & _);
    destruct (update_state f st w0) as [w2 [u|e]] eqn:Hu end;
    cbn [fst snd] in *; [|discriminate].
  intros [= <- <-]. exists loc. rewrite Hself, Hcalls. done.
Qed.

Lemma last_predictions_shape (self : BeamSearch) (batch_size : nat)
    (s : LoopState (Score:=Score)) (lp : list Z) :
  shaped (Z.to_nat (beam_size self)) s ->
  last_predictions_of self batch_size s = Ok lp ->
  all_ended self lp = false ->
  length lp = (batch_size * Z.to_nat (beam_size self))%nat /\
  length (last_log_probabilities s) = batch_size.
Proof.
  intros (Hp & _ & _ & _ & p & Hlast & Hlen) Hlp Hne.
  unfold last_predictions_of in Hlp. rewrite Hlast in Hlp.
  unfold reshape1 in Hlp.
  destruct (Nat.eqb_spec (length (concat p)) (batch_size * Z.to_nat (beam_size self)));
    [|discriminate].
  injection Hlp as <-. split; [done|].
  assert (Forall (fun row : list Z => length row = Z.to_nat (beam_size self)) p) as Hrows.
  { apply last_Some in Hlast as [l' Heq]. rewrite Heq in Hp.
    apply Forall_app in Hp as [_ Hp]. by inversion Hp. }
  rewrite (concat_length_uniform _ _ Hrows) in e.
  destruct (concat p) eqn:Hc; [discriminate|].
  assert (length (concat p) <> 0)%nat as Hnz by (rewrite Hc; simpl; lia).
  rewrite (concat_length_uniform _ _ Hrows) in Hnz. nia.
Qed.

(** One iteration keeps the shape. *)
Lemma loop_body_shaped (self : BeamSearch) (step : StepFunctionType)
    (batch_size num_classes : nat) (forced : list (list Score))
    (s s' : LoopState) (lp : list Z) (w w' : World (Cell:=Cell) (Env:=Env)) :
  shaped (Z.to_nat (beam_size self)) s ->
  loop_body add gtb self step batch_size num_classes forced s lp w = (w', Ok s') ->
  shaped (Z.to_nat (beam_size self)) s'.
Proof.
  intros (Hp & Hb & Hl & Hlen & _) Hbody.
  apply loop_body_ok in Hbody as (loc & Hloc & -> & _).
  destruct (expand_beam_shape _ _ _ _ _ _ _ _ Hloc)
    as (_ & _ & HLn & _ & HCn & _ & HL & _ & HC & HB).
  unfold shaped; simpl. repeat split.
  - apply Forall_app. split; [done|]. by constructor.
  - apply Forall_app. split; [done|]. by constructor.
  - done.
  - rewrite !length_app. simpl. lia.
  - exists (restricted_predicted_classes loc). rewrite last_snoc. split; [done|]. lia.
Qed.

Lemma iterates_shaped (self : BeamSearch) (step : StepFunctionType)
    (batch_size num_classes : nat) (forced : list (list Score)) (n : nat)
    (s s' : LoopState) (w w' : World (Cell:=Cell) (Env:=Env)) :
  iterates add gtb self step batch_size num_classes forced n s w s' w' ->
  shaped (Z.to_nat (beam_size self)) s ->
  shaped (Z.to_nat (beam_size self)) s'.
Proof.
  induction 1 as [|n s w s1 w1 lp s2 w2 _ IH _ _ Hbody]; intros Hs; [done|].
  eapply loop_body_shaped; [apply IH, Hs | exact Hbody].
Qed.

(** ** The prologue *)

Lemma search_init_ok (sp : list Z) (r0 : nat) (step : StepFunctionType)
    (fs : option StepFunctionType) (w w1 : World (Cell:=Cell) (Env:=Env))
    (pr : Prologue) :
  search_init zero neg_inf gtb sp r0 step fs w = (w1, Ok pr) ->
  let self := self_fields w in
  let r := first_step_or fs step sp r0 (heap w) (env w) in
  let beam := Z.to_nat (beam_size self) in
  self_fields w1 = self /\
  calls w1 = calls w ++ [mkCall (first_callee fs) sp r0 (sr_scores r)] /\
  pr_batch_size pr = length sp /\
  pr_num_classes pr = num_cols (sr_scores r) /\
  pr_start_scores pr = sr_scores r /\
  per_node_beam_size self <= Z.of_nat (num_cols (sr_scores r)) /\
  log_probs_after_end zero neg_inf (length sp * beam) (num_cols (sr_scores r))
    (_end_index self) = Ok (pr_forced pr) /\
  exists tp,
    topk gtb (beam_size self) (num_cols (sr_scores r)) (rows (sr_scores r)) = Ok tp /\
    pr_loop_state pr = {| predictions := [tp.2];
                          backpointers := [];
                          last_log_probabilities := tp.1;
                          state := sr_state r |}.
Proof.
  unfold search_init, call. cbn [fst snd].
  set (r := first_step_or fs step sp r0 (heap w) (env w)).
  destruct (Z.ltb_spec (Z.of_nat (num_cols (sr_scores r)))
              (per_node_beam_size (self_fields w))) as [Hlt|Hle]; [discriminate|].
  destruct (topk _ _ _ _) as [tp|e] eqn:Htp; [|discriminate].
  destruct (log_probs_after_end _ _ _ _ _) as [forced|e] eqn:Hf; [|discriminate].
  match goal with |- context [update_state ?f ?st ?w0] =>
    destruct (update_state_frame f st w0) as (Hself & Hcalls & _);
    destruct (update_state f st w0) as [w2 [u|e]] eqn:Hu end;
    cbn [fst snd] in *; [|discriminate].
  intros [= <- <-]. simpl. rewrite Hself, Hcalls. simpl.
  repeat split; try done. by exists tp.
Qed.

Lemma log_probs_after_end_spec (n C : nat) (e : Z) (forced : list (list Score)) :
  log_probs_after_end zero neg_inf n C e = Ok forced ->
  exists j, normalize_index C e = Ok j /\
            forced = replicate n (<[j := zero]> (replicate C neg_inf)).
Proof.
  unfold log_probs_after_end. intros H. apply bind_ok in H as (j & Hj & [= <-]). eauto.
Qed.

Lemma search_init_shaped (sp : list Z) (r0 : nat) (step : StepFunctionType)
    (fs : option StepFunctionType) (w w1 : World (Cell:=Cell) (Env:=Env))
    (pr : Prologue) :
  search_init zero neg_inf gtb sp r0 step fs w = (w1, Ok pr) ->
  0 <= beam_size (self_fields w) /\
  length (pr_forced pr)
    = (pr_batch_size pr * Z.to_nat (beam_size (self_fields w)))%nat /\
  shaped (Z.to_nat (beam_size (self_fields w))) (pr_loop_state pr).
Proof.
  intros H. apply search_init_ok in H
    as (_ & _ & Hb & _ & _ & _ & Hf & [V I] & Htp & ->).
  apply log_probs_after_end_spec in Hf as (j & _ & ->).
  destruct (topk_spec _ _ _ _ _ Htp) as (Hk & HV & HI & _).
  destruct (topk_row_lengths _ _ _ _ _ Htp) as (HVr & HIr).
  split; [lia|]. split; [by rewrite length_replicate, Hb|].
  unfold shaped; simpl. repeat split; try done.
  - by constructor.
  - exists I. split; [done | lia].
Qed.

(** ** [loop] and [iterates] *)

Lemma iterates_front (self : BeamSearch) (step : StepFunctionType)
    (batch_size num_classes : nat) (forced : list (list Score)) (n : nat)
    (s s1 s' : LoopState) (lp : list Z) (w w1 w' : World (Cell:=Cell) (Env:=Env)) :
  last_predictions_of self batch_size s = Ok lp ->
  all_ended self lp = false ->
  loop_body add gtb self step batch_size num_classes forced s lp w = (w1, Ok s1) ->
  iterates add gtb self step batch_size num_classes forced n s1 w1 s' w' ->
  iterates add gtb self step batch_size num_classes forced (S n) s w s' w'.
Proof.
  intros Hlp Hne Hbody Hit.
  induction Hit as [s1 w1|n s1 w1 s2 w2 lp2 s3 w3 _ IH Hlp2 Hne2 Hbody2].
  - eapply iterates_S; [apply iterates_O | exact Hlp | exact Hne | exact Hbody].
  - eapply iterates_S; [apply IH; assumption | exact Hlp2 | exact Hne2 | exact Hbody2].
Qed.

(** A run of the loop that returns is a sequence of iterations, stopped by
    the bound or by the early-stop test. *)
Lemma loop_iterates (self : BeamSearch) (step : StepFunctionType)
    (batch_size num_classes : nat) (forced : list (list Score)) (n : nat)
    (s s' : LoopState) (w w' : World (Cell:=Cell) (Env:=Env)) :
  loop add gtb self step batch_size num_classes forced n s w = (w', Ok s') ->
  exists m, (m <= n)%nat /\
    iterates add gtb self step batch_size num_classes forced m s w s' w' /\
    (m = n \/ exists lp, last_predictions_of self batch_size s' = Ok lp /\
                          all_ended self lp = true).
Proof.
  revert s w. induction n as [|n IH]; intros s w; simpl.
  - intros [= <- <-]. exists 0%nat. split; [lia|]. split; [constructor | by left].
  - destruct (last_predictions_of self batch_size s) as [lp|e] eqn:Hlp; [|discriminate].
    destruct (all_ended self lp) eqn:Hall.
    + intros [= <- <-]. exists 0%nat. split; [lia|]. split; [constructor|].
      right. eauto.
    + destruct (loop_body _ _ _ _ _ _ _ _ _ _) as [w1 [s1|e]] eqn:Hbody;
        cbn [fst snd]; [|discriminate].
      intros Hloop. destruct (IH _ _ Hloop) as (m & Hm & Hit & Hstop).
      exists (S m). split; [lia|]. split; [by eapply iterates_front|].
      destruct Hstop as [->|?]; [by left | by right].
Qed.

Lemma iterates_loop (self : BeamSearch) (step : StepFunctionType)
    (batch_size num_classes : nat) (forced : list (list Score)) (m : nat)
    (s s' : LoopState) (w w' : World (Cell:=Cell) (Env:=Env)) :
  iterates add gtb self step batch_size num_classes forced m s w s' w' ->
  forall n k,
    loop add gtb self step batch_size num_classes forced n s' w' = k ->
    loop add gtb self step batch_size num_classes forced (m + n) s w = k.
Proof.
  induction 1 as [s w|m s w s1 w1 lp s2 w2 _ IH Hlp Hne Hbody]; intros n k Hk; [done|].
  replace (S m + n)%nat with (m + S n)%nat by lia.
  apply IH. simpl. rewrite Hlp, Hne, Hbody. exact Hk.
Qed.

(** ** Beam width *)

(** C6.  At every timestep of every search, [predictions[t]] and
    [last_log_probabilities] have exactly [beam_size] entries for each batch
    element: this holds after the prologue and after any number of loop
    iterations. *)
Theorem beam_width_invariant (sp : list Z) (r0 : nat) (step : StepFunctionType)
    (fs : option StepFunctionType) (w w1 w2 : World (Cell:=Cell) (Env:=Env))
    (pr : Prologue) (n : nat) (s : LoopState) :
  search_init zero neg_inf gtb sp r0 step fs w = (w1, Ok pr) ->
  iterates add gtb (self_fields w) step (pr_batch_size pr) (pr_num_classes pr)
    (pr_forced pr) n (pr_loop_state pr) w1 s w2 ->
  (forall t p row, predictions s !! t = Some p -> row ∈ p ->
     Z.of_nat (length row) = beam_size (self_fields w)) /\
  (forall row, row ∈ last_log_probabilities s ->
     Z.of_nat (length row) = beam_size (self_fields w)).
Proof.
  intros Hinit Hit.
  destruct (search_init_shaped _ _ _ _ _ _ _ Hinit) as (Hbeam & _ & Hs0).
  destruct (iterates_shaped _ _ _ _ _ _ _ _ _ _ Hit Hs0) as (Hp & _ & Hl & _).
  split.
  - intros t p row Hpt Hrow.
    eapply Forall_lookup_1 in Hp; [|exact Hpt].
    eapply Forall_forall in Hp; [|exact Hrow]. simpl in Hp. lia.
  - intros row Hrow. eapply Forall_forall in Hl; [|exact Hrow]. simpl in Hl. lia.
Qed.

(** ** Backpointers *)

(** The backpointer of a surviving candidate, from its rank. *)
Lemma expand_beam_rank (self : BeamSearch) (batch_size num_classes : nat)
    (forced : list (list Score)) (lp : list Z) (last : list (list Score))
    (clp : ScoreTensor) (loc : StepLocals) (b k : nat) (bp : Z) :
  expand_beam add gtb self batch_size num_classes forced lp last clp = Ok loc ->
  entry (backpointer loc) b k = Some bp ->
  exists rank,
    entry (restricted_beam_indices loc) b k = Some rank /\
    0 <= rank < beam_size self * per_node_beam_size self /\
    bp = rank `div` per_node_beam_size self /\
    0 <= bp <= beam_size self - 1.
Proof.
  intros Hloc Hbp.
  unfold expand_beam in Hloc.
  apply bind_ok in Hloc as (cleaned & Hc & H).
  apply bind_ok in H as ([T P] & Htp & H). simpl in H.
  apply bind_ok in H as (rs & Hrs & H).
  apply bind_ok in H as (rp & Hrp & H).
  apply bind_ok in H as ([RV RI] & Hr & H). simpl in H.
  apply bind_ok in H as (classes & Hcl & H).
  injection H as <-. simpl in *.
  apply entry_Some in Hbp as (bprow & Hbprow & Hbpk).
  rewrite list_lookup_fmap in Hbprow.
  destruct (RI !! b) as [idxs|] eqn:Hidxs; [|discriminate].
  injection Hbprow as <-. rewrite list_lookup_fmap in Hbpk.
  destruct (idxs !! k) as [rank|] eqn:Hrank; [|discriminate].
  injection Hbpk as <-.
  destruct (topk_spec _ _ _ _ _ Htp) as (Hper & _).
  destruct (topk_spec _ _ _ _ _ Hr) as (Hbeam & _ & HRI & Hrrows).
  apply reshape2_spec in Hrs as (Hnumel & ->).
  rewrite chunks_length in HRI, Hrrows.
  assert (b < batch_size)%nat as Hb by (apply lookup_lt_Some in Hidxs; lia).
  destruct (Hrrows b Hb) as (srow & vals & idxs' & Hsrow & _ & Hidxs' & Htk).
  rewrite Hidxs in Hidxs'. injection Hidxs' as <-.
  destruct (topk_row_spec _ _ _ _ Htk) as (_ & _ & Hil & Hsel).
  assert (k < Z.to_nat (beam_size self))%nat as Hk
    by (apply lookup_lt_Some in Hrank; lia).
  destruct (Hsel k Hk) as (v & n & _ & Hn & Hsn).
  rewrite Hrank in Hn. injection Hn as ->.
  assert (n < Z.to_nat (beam_size self) * Z.to_nat (per_node_beam_size self))%nat as Hnlt.
  { apply lookup_lt_Some in Hsn.
    pose proof (chunks_row_length _ _ _ Hnumel) as Hrows.
    eapply Forall_lookup_1 in Hrows; [|exact Hsrow]. simpl in Hrows. lia. }
  exists (Z.of_nat n). split; [apply entry_Some; eauto|].
  assert (0 < per_node_beam_size self) as Hpos by lia.
  assert (Z.of_nat n < beam_size self * per_node_beam_size self) as Hub by nia.
  split; [lia|]. split; [apply Z.quot_div_nonneg; lia|].
  rewrite Z.quot_div_nonneg by lia.
  split; [apply Z.div_pos; lia|].
  assert (Z.of_nat n `div` per_node_beam_size self < beam_size self); [|lia].
  apply Z.div_lt_upper_bound; lia.
Qed.

(** C3.  In every loop iteration the backpointer recorded for a surviving
    candidate is the floor division of its rank in the flattened
    [beam_size * per_node_beam_size] grid by [per_node_beam_size], an
    integer between [0] and [beam_size - 1]. *)
Theorem backpointer_is_integer_division (self : BeamSearch) (step : StepFunctionType)
    (batch_size num_classes : nat) (forced : list (list Score))
    (s s' : LoopState) (lp : list Z) (w w' : World (Cell:=Cell) (Env:=Env)) :
  loop_body add gtb self step batch_size num_classes forced s lp w = (w', Ok s') ->
  exists loc,
    expand_beam add gtb self batch_size num_classes forced lp
      (last_log_probabilities s)
      (sr_scores (step lp (state s) (heap w) (env w))) = Ok loc /\
    backpointers s' = backpointers s ++ [backpointer loc] /\
    forall b k bp, entry (backpointer loc) b k = Some bp ->
      exists rank,
        entry (restricted_beam_indices loc) b k = Some rank /\
        0 <= rank < beam_size self * per_node_beam_size self /\
        bp = rank `div` per_node_beam_size self /\
        0 <= bp <= beam_size self - 1.
Proof.
  intros Hbody. apply loop_body_ok in Hbody as (loc & Hloc & -> & _).
  exists loc. split; [done|]. split; [done|].
  intros b k bp Hbp. by eapply expand_beam_rank.
Qed.

(** ** Cumulative scores *)

(** Entries recorded later do not change the score of an earlier timestep. *)
Lemma path_score_app (beam : nat) (start : list (list Score))
    (cleaned cleaned' : list (list (list Score)))
    (preds preds' bps bps' : list (list (list Z))) (t b k : nat) :
  (t < length preds)%nat -> (t <= length bps)%nat -> (t <= length cleaned)%nat ->
  path_score add beam start (cleaned ++ cleaned') (preds ++ preds') (bps ++ bps') t b k
  = path_score add beam start cleaned preds bps t b k.
Proof.
  revert k. induction t as [|t IH]; intros k Hp Hb Hc; simpl.
  - by rewrite lookup_app_l by lia.
  - rewrite (lookup_app_l preds) by lia.
    rewrite (lookup_app_l bps) by lia.
    rewrite (lookup_app_l cleaned) by lia.
    destruct (preds !! S t ≫= _) as [tok|]; simpl; [|done].
    destruct (bps !! t ≫= _) as [q|]; simpl; [|done].
    destruct (cleaned !! t ≫= _) as [v|]; simpl; [|done].
    rewrite IH by lia. done.
Qed.

Lemma iterates_path_score (self : BeamSearch) (step : StepFunctionType)
    (batch_size num_classes : nat) (forced start : list (list Score)) (n : nat)
    (s0 s : LoopState) (w0 w : World (Cell:=Cell) (Env:=Env)) :
  iterates add gtb self step batch_size num_classes forced n s0 w0 s w ->
  shaped (Z.to_nat (beam_size self)) s0 ->
  length forced = (batch_size * Z.to_nat (beam_size self))%nat ->
  backpointers s0 = [] ->
  (forall b k v, entry (last_log_probabilities s0) b k = Some v ->
     path_score add (Z.to_nat (beam_size self)) start [] (predictions s0) [] 0 b k
     = Some v) ->
  exists cs,
    calls w = calls w0 ++ cs /\ length cs = n /\
    length (backpointers s) = n /\
    Forall (fun c => callee c = StepArg) cs /\
    forall b k v, entry (last_log_probabilities s) b k = Some v ->
      path_score add (Z.to_nat (beam_size self)) start
        (cleaned_of_call self forced <$> cs) (predictions s) (backpointers s) n b k
      = Some v.
Proof.
  intros Hit Hs0 Hforced Hbp0 Hbase.
  induction Hit as [s0 w0|n s0 w0 s1 w1 lp s2 w2 Hit IH Hlp Hne Hbody].
  - exists []. rewrite app_nil_r, Hbp0. simpl. repeat split; done.
  - destruct (IH Hs0 Hbp0 Hbase) as (cs & Hcalls & Hcs & Hbps & Hcallee & Hinv).
    pose proof (iterates_shaped _ _ _ _ _ _ _ _ _ _ Hit Hs0) as Hs1.
    destruct (last_predictions_shape _ _ _ _ Hs1 Hlp Hne) as (Hlplen & Hlastlen).
    apply loop_body_ok in Hbody as (loc & Hloc & -> & Hcalls2 & _).
    set (c := mkCall StepArg lp (state s1)
                (sr_scores (step lp (state s1) (heap w1) (env w1)))) in *.
    exists (cs ++ [c]). simpl.
    split; [by rewrite Hcalls2, Hcalls, app_assoc|].
    split; [rewrite length_app; simpl; lia|].
    split; [rewrite length_app; simpl; lia|].
    split; [apply Forall_app; split; [done | by constructor]|].
    intros b k v Hv.
    destruct Hs1 as (Hp1 & Hb1 & Hl1 & Hlen1 & _).
    destruct (expand_beam_shape _ _ _ _ _ _ _ _ Hloc)
      as (_ & _ & HLn & _ & _ & _ & HL & _).
    assert (b < batch_size /\ k < Z.to_nat (beam_size self))%nat as [Hb Hk].
    { apply entry_Some in Hv as (row & Hrow & Hk).
      split; [apply lookup_lt_Some in Hrow; lia|].
      eapply Forall_lookup_1 in HL; [|exact Hrow]. simpl in HL.
      apply lookup_lt_Some in Hk. lia. }
    destruct (expand_beam_entry _ _ _ _ _ _ _ _ b k Hloc Hlplen Hforced Hlastlen Hl1 Hb Hk)
      as (m & tok & v' & l & Hper & Hm & _ & Hbp & Htok & Hcl & Hl & Hsum & Hcleaned).
    rewrite Hsum in Hv. injection Hv as <-.
    assert (length (predictions s1) = S n) as Hplen by lia.
    rewrite fmap_app.
    assert ((predictions s1 ++ [restricted_predicted_classes loc]) !! S n
            = Some (restricted_predicted_classes loc)) as Hpn.
    { rewrite lookup_app_r by lia. by rewrite Hplen, Nat.sub_diag. }
    assert ((backpointers s1 ++ [backpointer loc]) !! n = Some (backpointer loc)) as Hbn.
    { rewrite lookup_app_r by lia. by rewrite Hbps, Nat.sub_diag. }
    assert (((cleaned_of_call self forced <$> cs) ++ (cleaned_of_call self forced <$> [c])) !! n
            = Some (cleaned_log_probabilities loc)) as Hcn.
    { rewrite lookup_app_r by (rewrite length_fmap; lia).
      rewrite length_fmap, Hcs, Nat.sub_diag. simpl. by rewrite Hcleaned. }
    cbn [path_score]. rewrite Hpn, Hbn, Hcn. simpl.
    rewrite Htok. simpl. rewrite Hbp. simpl. rewrite Nat2Z.id.
    unfold entry in Hcl.
    destruct (cleaned_log_probabilities loc !! _) as [crow|] eqn:Hcrow; [|discriminate].
    simpl in Hcl |- *.
    assert (lookupZ crow (Z.of_nat tok) = Some v') as ->.
    { apply lookupZ_Some. split; [lia|]. by rewrite Nat2Z.id. }
    simpl. rewrite path_score_app by (rewrite ?length_fmap; lia).
    rewrite (Hinv _ _ _ Hl). done.
Qed.

(** C1.  Throughout the loop, [last_log_probabilities[b, k]] is the
    cumulative log-probability of the hypothesis that ends at
    [predictions[t][b, k]]: the sum, in the order the loop adds them, of the
    scores (after the forced-end replacement) of its tokens, found by
    following the backpointers from slot [k] at timestep [t] back to the
    first step. *)
Theorem last_log_probabilities_cumulative (sp : list Z) (r0 : nat)
    (step : StepFunctionType) (fs : option StepFunctionType)
    (w w1 w2 : World (Cell:=Cell) (Env:=Env)) (pr : Prologue) (t : nat)
    (s : LoopState) :
  search_init zero neg_inf gtb sp r0 step fs w = (w1, Ok pr) ->
  iterates add gtb (self_fields w) step (pr_batch_size pr) (pr_num_classes pr)
    (pr_forced pr) t (pr_loop_state pr) w1 s w2 ->
  exists cs,
    calls w2 = calls w1 ++ cs /\ length cs = t /\
    length (predictions s) = S t /\ length (backpointers s) = t /\
    forall b k v, entry (last_log_probabilities s) b k = Some v ->
      path_score add (Z.to_nat (beam_size (self_fields w)))
        (rows (pr_start_scores pr))
        (cleaned_of_call (self_fields w) (pr_forced pr) <$> cs)
        (predictions s) (backpointers s) t b k
      = Some v.
Proof.
  intros Hinit Hit.
  destruct (search_init_shaped _ _ _ _ _ _ _ Hinit) as (Hbeam & Hforced & Hs0).
  pose proof (iterates_shaped _ _ _ _ _ _ _ _ _ _ Hit Hs0) as (_ & _ & _ & Hlen & _).
  destruct (search_init_ok _ _ _ _ _ _ _ Hinit)
    as (_ & _ & _ & HC & Hstart & _ & _ & [V I] & Htp & Hst).
  destruct (iterates_path_score _ _ _ _ _ (rows (pr_start_scores pr)) _ _ _ _ _
              Hit Hs0 Hforced) as (cs & Hcalls & Hcs & Hbps & _ & Hinv).
  - by rewrite Hst.
  - rewrite Hst. simpl. intros b k v Hv.
    apply entry_Some in Hv as (vals & Hvals & Hk).
    destruct (topk_spec _ _ _ _ _ Htp) as (_ & HV & _ & Hrows).
    destruct (Hrows b) as (row & vals' & idxs & Hrow & Hvals' & Hidxs & Htk).
    { apply lookup_lt_Some in Hvals. lia. }
    rewrite Hvals in Hvals'. injection Hvals' as <-.
    destruct (topk_row_spec _ _ _ _ Htk) as (_ & Hvl & _ & Hsel).
    destruct (Hsel k) as (v' & n & Hv' & Hn & Hrn).
    { apply lookup_lt_Some in Hk. lia. }
    rewrite Hk in Hv'. injection Hv' as <-.
    unfold entry. rewrite Hidxs. simpl. rewrite Hn. simpl.
    rewrite Hstart, Hrow. simpl. apply lookupZ_Some. split; [lia|].
    by rewrite Nat2Z.id.
  - exists cs. repeat split; try done. lia.
Qed.

(** ** Reconstruction *)

Lemma ancestor_S (bps : list (list (list Z))) (b t d : nat) (k : Z) :
  ancestor bps b t (S d) k
  = (bps !! (t + d)%nat ≫= (fun bp => bp !! b ≫= (fun row => lookupZ row k)))
      ≫= (fun k' => ancestor bps b t d k').
Proof. reflexivity. Qed.

Lemma ancestor_snoc (bps : list (list (list Z))) (b t d : nat) (k i a : Z) :
  ancestor bps b (S t) d k = Some i ->
  bps !! t ≫= (fun bp => bp !! b ≫= (fun row => lookupZ row i)) = Some a ->
  ancestor bps b t (S d) k = Some a.
Proof.
  revert k. induction d as [|d IH]; intros k Hanc Hbp.
  - simpl in Hanc. injection Hanc as ->. rewrite ancestor_S.
    rewrite Nat.add_0_r, Hbp. done.
  - rewrite ancestor_S in Hanc. rewrite ancestor_S.
    replace (t + S d)%nat with (S t + d)%nat by lia.
    destruct (bps !! (S t + d)%nat
                ≫= (fun bp => bp !! b ≫= (fun row => lookupZ row k)))
      as [k'|]; [|discriminate].
    simpl in Hanc |- *. by apply IH.
Qed.

Lemma gather_entry {A : Type} (t : list (list A)) (index : list (list Z))
    (out : list (list A)) (b k : nat) (x : A) :
  gather t index = Ok out -> entry out b k = Some x ->
  exists i, entry index b k = Some i /\
            t !! b ≫= (fun row => lookupZ row i) = Some x.
Proof.
  intros Hg Hx. apply entry_Some in Hx as (orow & Horow & Hk).
  destruct (gather_spec _ _ _ Hg) as (_ & Hrows).
  destruct (Hrows _ _ Horow) as (row & idx & Hrow & Hidx & Hgr).
  destruct (gather_row_spec _ _ _ Hgr) as (_ & Hent).
  destruct (Hent _ _ Hk) as (i & Hi & Hi0 & Hri).
  exists i. split; [apply entry_Some; eauto|].
  rewrite Hrow. simpl. by apply lookupZ_Some.
Qed.

Lemma unsqueeze2_entry (t : list (list Z)) (b k : nat) (piece : list Z) :
  entry (unsqueeze2 t) b k = Some piece ->
  exists x, entry t b k = Some x /\ piece = [x].
Proof.
  unfold unsqueeze2, entry. rewrite list_lookup_fmap.
  destruct (t !! b) as [row|]; simpl; [|discriminate].
  rewrite list_lookup_fmap. destruct (row !! k) as [x|]; simpl; [|discriminate].
  intros [= <-]. eauto.
Qed.

Lemma cat_pair_entry (x y out : list (list (list Z))) (b k : nat) (seq : list Z) :
  cat_pair x y = Ok out -> entry out b k = Some seq ->
  exists p q, entry x b k = Some p /\ entry y b k = Some q /\ seq = p ++ q.
Proof.
  unfold cat_pair. destruct (_ && _); [|discriminate]. intros [= <-] Hs.
  apply entry_Some in Hs as (row & Hrow & Hk).
  apply lookup_zip_with_Some in Hrow as (rx & ry & -> & Hrx & Hry).
  apply lookup_zip_with_Some in Hk as (p & q & -> & Hp & Hq).
  exists p, q. split; [apply entry_Some; eauto|]. split; [apply entry_Some; eauto|done].
Qed.

Lemma cat2_entry (ts : list (list (list (list Z)))) (out : list (list (list Z)))
    (b k : nat) (seq : list Z) :
  cat2 ts = Ok out -> entry out b k = Some seq ->
  exists pieces, Forall2 (fun t piece => entry t b k = Some piece) ts pieces /\
                 seq = concat pieces.
Proof.
  revert out seq. induction ts as [|t ts IH]; intros out seq Hcat Hs; [discriminate|].
  destruct ts as [|t' ts].
  - simpl in Hcat. injection Hcat as <-. exists [seq]. split.
    + by repeat constructor.
    + simpl. by rewrite app_nil_r.
  - change (cat2 (t :: t' :: ts)) with (r <- cat2 (t' :: ts) ;; cat_pair t r) in Hcat.
    apply bind_ok in Hcat as (r & Hr & Hpair).
    destruct (cat_pair_entry _ _ _ _ _ _ Hpair Hs) as (p & q & Hp & Hq & ->).
    destruct (IH _ _ Hr Hq) as (pieces & Hpieces & ->).
    exists (p :: pieces). split; [by constructor | done].
Qed.

Section Reconstruction.

Variables preds bps : list (list (list Z)).

(** [cur] holds, for every final slot, its ancestor slot at timestep [t]. *)
Let slots_at (t : nat) (cur : list (list Z)) : Prop :=
  forall b k a, entry cur b k = Some a ->
    ancestor bps b t (length bps - t) (Z.of_nat k) = Some a.

(** [X] holds, for every final slot, the token of its ancestor at timestep [t]. *)
Let tokens_at (t : nat) (X : list (list (list Z))) : Prop :=
  forall b k piece, entry X b k = Some piece ->
    exists a tok, piece = [tok] /\
      ancestor bps b t (length bps - t) (Z.of_nat k) = Some a /\
      token_at preds t b a = Some tok.

Lemma gather_tokens_at (t : nat) (p cur out : list (list Z)) :
  preds !! t = Some p -> slots_at t cur -> gather p cur = Ok out ->
  tokens_at t (unsqueeze2 out).
Proof.
  intros Hp Hcur Hg b k piece Hpiece.
  apply unsqueeze2_entry in Hpiece as (x & Hx & ->).
  destruct (gather_entry _ _ _ _ _ _ Hg Hx) as (i & Hi & Hpi).
  exists i, x. split; [done|]. split; [by apply Hcur|].
  unfold token_at. rewrite Hp. exact Hpi.
Qed.

Lemma walk_back_inv (t : nat) (cur cur' : list (list Z))
    (recon recon' : list (list (list (list Z)))) :
  walk_back preds bps t cur recon = Ok (recon', cur') ->
  (t < length bps)%nat ->
  slots_at t cur ->
  length recon = (length bps - t)%nat ->
  (forall i X, recon !! i = Some X -> tokens_at (length bps - i) X) ->
  slots_at 0 cur' /\ length recon' = length bps /\
  (forall i X, recon' !! i = Some X -> tokens_at (length bps - i) X).
Proof.
  revert cur recon. induction t as [|t IH]; intros cur recon Hwb Ht Hcur Hlen Hrec.
  - simpl in Hwb. injection Hwb as <- <-. split; [done|]. split; [lia | done].
  - simpl in Hwb.
    apply bind_ok in Hwb as (p & Hp & Hwb).
    apply bind_ok in Hwb as (cur_preds & Hcp & Hwb).
    apply bind_ok in Hwb as (bp & Hbp & Hwb).
    apply bind_ok in Hwb as (cur1 & Hcur1 & Hwb).
    unfold index in Hp, Hbp.
    destruct (preds !! S t) as [p'|] eqn:Hp'; [|discriminate]. injection Hp as ->.
    destruct (bps !! t) as [bp'|] eqn:Hbp'; [|discriminate]. injection Hbp as ->.
    apply (IH _ _ Hwb); [lia | | |].
    + intros b k a Ha.
      destruct (gather_entry _ _ _ _ _ _ Hcur1 Ha) as (i & Hi & Hbi).
      replace (length bps - t)%nat with (S (length bps - S t)) by lia.
      eapply ancestor_snoc; [by apply Hcur|]. rewrite Hbp'. exact Hbi.
    + rewrite length_app. simpl. lia.
    + intros i X HX. apply lookup_app_Some in HX as [HX|[Hi HX]]; [by eapply Hrec|].
      apply list_lookup_singleton_Some in HX as [Hi0 <-].
      replace (length bps - i)%nat with (S t) by lia.
      by eapply gather_tokens_at.
Qed.

Lemma reconstruct_tokens (out : list (list (list Z))) (b k : nat) (seq : list Z) :
  reconstruct preds bps = Ok out ->
  length preds = S (length bps) ->
  entry out b k = Some seq ->
  length seq = length preds /\
  forall t tok, seq !! t = Some tok ->
    exists a, ancestor bps b t (length bps - t) (Z.of_nat k) = Some a /\
              token_at preds t b a = Some tok.
Proof.
  unfold reconstruct. intros H Hlen Hseq.
  apply bind_ok in H as (last_p & Hlast & H).
  apply bind_ok in H as (cur & Hcur & H).
  apply bind_ok in H as ([recon cur'] & Hwb & H).
  apply bind_ok in H as (p0 & Hp0 & H).
  apply bind_ok in H as (final & Hfinal & H). simpl in H.
  destruct (last preds) as [lp|] eqn:Hlp; [|discriminate]. injection Hlast as ->.
  destruct (last bps) as [lb|] eqn:Hlb; [|discriminate]. injection Hcur as ->.
  unfold index in Hp0. destruct (preds !! 0%nat) as [p0'|] eqn:Hp0'; [|discriminate].
  injection Hp0 as ->.
  rewrite last_lookup in Hlp, Hlb.
  assert (length bps <> 0)%nat as Hnz.
  { intros Hz. apply lookup_lt_Some in Hlb. lia. }
  rewrite Hlen in Hlp. simpl in Hlp. rewrite Hlen in Hwb.
  replace (S (length bps) - 2)%nat with (Nat.pred (length bps)) in Hwb by lia.
  destruct (walk_back_inv _ _ _ _ _ Hwb) as (Hslots0 & Hrlen & Hrec).
  - lia.
  - intros b' k' a Ha.
    replace (length bps - Nat.pred (length bps))%nat with 1%nat by lia.
    simpl. rewrite Nat.add_0_r, Hlb. simpl.
    apply entry_Some in Ha as (row & Hrow & Hk'). rewrite Hrow. simpl.
    assert (lookupZ row (Z.of_nat k') = Some a) as ->; [|done].
    apply lookupZ_Some. split; [lia|]. by rewrite Nat2Z.id.
  - simpl. lia.
  - intros i X HX. apply list_lookup_singleton_Some in HX as [-> <-].
    rewrite Nat.sub_0_r. intros b' k' piece Hpiece.
    apply unsqueeze2_entry in Hpiece as (x & Hx & ->).
    exists (Z.of_nat k'), x. split; [done|].
    rewrite Nat.sub_diag. split; [done|].
    unfold token_at. rewrite Hlp. simpl.
    apply entry_Some in Hx as (row & Hrow & Hk'). rewrite Hrow. simpl.
    apply lookupZ_Some. split; [lia|]. by rewrite Nat2Z.id.
  - destruct (cat2_entry _ _ _ _ _ H Hseq) as (pieces & Hpieces & ->).
    assert (forall t X, reverse (recon ++ [unsqueeze2 final]) !! t = Some X ->
              tokens_at t X) as Hall.
    { intros t X HX.
      assert (t < S (length bps))%nat as Ht.
      { apply lookup_lt_Some in HX. rewrite length_reverse, length_app in HX.
        simpl in HX. lia. }
      rewrite reverse_lookup in HX by (rewrite length_app; simpl; lia).
      rewrite length_app in HX. simpl in HX.
      apply lookup_app_Some in HX as [HX|[Hi HX]].
      - pose proof (lookup_lt_Some _ _ _ HX) as Hlt. apply Hrec in HX.
        replace (length bps - (length recon + 1 - S t))%nat with t in HX by lia. done.
      - apply list_lookup_singleton_Some in HX as [Hi0 <-].
        replace t with 0%nat by lia.
        eapply gather_tokens_at; [exact Hp0' | exact Hslots0 | exact Hfinal]. }
    pose proof (Forall2_length _ _ _ Hpieces) as Hplen.
    rewrite length_reverse, length_app in Hplen. simpl in Hplen.
    assert (Forall (fun piece : list Z => length piece = 1%nat) pieces) as Hone.
    { apply Forall_lookup_2. intros t piece Hpiece.
      destruct (Forall2_lookup_r _ _ _ _ _ Hpieces Hpiece) as (X & HX & Hent).
      destruct (Hall _ _ HX _ _ _ Hent) as (a & tok & -> & _). done. }
    split; [rewrite (concat_length_uniform _ 1) by done; lia|].
    intros t tok Htok.
    pose proof (concat_lookup_uniform pieces 1 t 0 Hone) as Hc.
    replace (t * 1 + 0)%nat with t in Hc by lia. rewrite Hc in Htok by lia.
    destruct (pieces !! t) as [piece|] eqn:Hpiece; [|discriminate]. simpl in Htok.
    destruct (Forall2_lookup_r _ _ _ _ _ Hpieces Hpiece) as (X & HX & Hent).
    destruct (Hall _ _ HX _ _ _ Hent) as (a & tok' & -> & Hanc & Htk).
    simpl in Htok. injection Htok as <-. eauto.
Qed.

End Reconstruction.

(** ** [search] as a whole *)

(** A search that returns went through the prologue, some iterations of the
    loop and the reconstruction. *)
Lemma search_ok (sp : list Z) (r0 : nat) (step : StepFunctionType)
    (fs : option StepFunctionType) (w w' : World (Cell:=Cell) (Env:=Env))
    (out : list (list (list Z))) (lps : list (list Score)) :
  search add zero neg_inf gtb sp r0 step fs w = (w', Ok (out, lps)) ->
  exists w1 pr m s,
    search_init zero neg_inf gtb sp r0 step fs w = (w1, Ok pr) /\
    (m <= Z.to_nat (max_steps (self_fields w) - 1))%nat /\
    iterates add gtb (self_fields w) step (pr_batch_size pr) (pr_num_classes pr)
      (pr_forced pr) m (pr_loop_state pr) w1 s w' /\
    (m = Z.to_nat (max_steps (self_fields w) - 1) \/
     exists lp, last_predictions_of (self_fields w) (pr_batch_size pr) s = Ok lp /\
                all_ended (self_fields w) lp = true) /\
    search_loop add zero neg_inf gtb sp r0 step fs w = (w', Ok s) /\
    reconstruct (predictions s) (backpointers s) = Ok out /\
    lps = last_log_probabilities s.
Proof.
  unfold search.
  destruct (search_loop _ _ _ _ _ _ _ _ _) as [wl [s|e]] eqn:Hloop;
    cbn [fst snd]; [|discriminate].
  intros [= <- Hrec]. apply bind_ok in Hrec as (all & Hall & [= <- <-]).
  pose proof Hloop as Hloop'. unfold search_loop in Hloop.
  destruct (search_init _ _ _ _ _ _ _ _) as [w1 [pr|e]] eqn:Hinit;
    cbn [fst snd] in Hloop; [|discriminate].
  destruct (loop_iterates _ _ _ _ _ _ _ _ _ _ Hloop) as (m & Hm & Hit & Hstop).
  exists w1, pr, m, s. repeat split; try done.
Qed.

(** C2.  In the tensor [search] returns, the sequence of batch element [b]
    and beam slot [k] has one token per recorded timestep, in chronological
    order, and its token at position [t] is the token stored in
    [predictions[t]] at the slot reached from the final slot [k] by applying
    the recorded backpointers back to timestep [t]. *)
Theorem reconstruction_consistency (sp : list Z) (r0 : nat) (step : StepFunctionType)
    (fs : option StepFunctionType) (w w' : World (Cell:=Cell) (Env:=Env))
    (out : list (list (list Z))) (lps : list (list Score)) :
  search add zero neg_inf gtb sp r0 step fs w = (w', Ok (out, lps)) ->
  exists s,
    search_loop add zero neg_inf gtb sp r0 step fs w = (w', Ok s) /\
    forall b k seq, entry out b k = Some seq ->
      length seq = length (predictions s) /\
      forall t tok, seq !! t = Some tok ->
        exists a,
          ancestor (backpointers s) b t (length (backpointers s) - t) (Z.of_nat k)
            = Some a /\
          token_at (predictions s) t b a = Some tok.
Proof.
  intros H. apply search_ok in H
    as (w1 & pr & m & s & Hinit & _ & Hit & _ & Hloop & Hrec & _).
  exists s. split; [done|]. intros b k seq Hseq.
  destruct (search_init_shaped _ _ _ _ _ _ _ Hinit) as (_ & _ & Hs0).
  destruct (iterates_shaped _ _ _ _ _ _ _ _ _ _ Hit Hs0) as (_ & _ & _ & Hlen & _).
  by eapply reconstruct_tokens.
Qed.

(** ** Failure without a backpointer *)

Lemma reconstruct_no_backpointer (preds : list (list (list Z))) :
  preds <> [] -> reconstruct preds [] = Raise IndexError.
Proof.
  intros Hne. unfold reconstruct.
  destruct (last preds) as [p|] eqn:Hlast; [done|].
  apply last_None in Hlast. done.
Qed.

Lemma iterates_backpointers (self : BeamSearch) (step : StepFunctionType)
    (batch_size num_classes : nat) (forced : list (list Score)) (n : nat)
    (s s' : LoopState) (w w' : World (Cell:=Cell) (Env:=Env)) :
  iterates add gtb self step batch_size num_classes forced n s w s' w' ->
  length (backpointers s') = (length (backpointers s) + n)%nat /\
  length (predictions s') = (length (predictions s) + n)%nat /\
  exists cs, calls w' = calls w ++ cs /\ length cs = n /\
             Forall (fun c => callee c = StepArg) cs.
Proof.
  induction 1 as [|n s w s1 w1 lp s2 w2 _ (IHb & IHp & cs & IHc & IHn & IHs) _ _ Hbody].
  - split; [lia|]. split; [lia|]. exists []. by rewrite app_nil_r.
  - apply loop_body_ok in Hbody as (loc & _ & -> & Hcalls & _). simpl.
    rewrite !length_app. simpl. split; [lia|]. split; [lia|].
    eexists (cs ++ [_]). rewrite Hcalls, IHc, app_assoc. split; [done|].
    rewrite length_app. simpl. split; [lia|].
    apply Forall_app. split; [done|]. by constructor.
Qed.

Lemma all_ended_concat (self : BeamSearch) (p : list (list Z)) :
  Forall (Forall (fun tok => tok = _end_index self)) p ->
  all_ended self (concat p) = true.
Proof.
  unfold all_ended. induction 1 as [|row p Hrow _ IH]; simpl; [done|].
  rewrite forallb_app, IH, andb_true_r.
  induction Hrow as [|tok row Htok _ IHrow]; simpl; [done|].
  rewrite IHrow, andb_true_r. by apply Z.eqb_eq.
Qed.

Lemma loop_stops_at_once (self : BeamSearch) (step : StepFunctionType)
    (batch_size num_classes : nat) (forced : list (list Score)) (n : nat)
    (s : LoopState) (lp : list Z) (w : World (Cell:=Cell) (Env:=Env)) :
  last_predictions_of self batch_size s = Ok lp ->
  all_ended self lp = true ->
  loop add gtb self step batch_size num_classes forced n s w = (w, Ok s).
Proof. intros Hlp Hall. destruct n as [|n]; simpl; [done|]. by rewrite Hlp, Hall. Qed.

(** The loop of a search whose first tokens are all [end_index], or whose
    [max_steps] is at most one, hands back the state of the prologue, unless
    the reshape of the first predictions raises. *)
Lemma loop_without_iteration (sp : list Z) (r0 : nat) (step : StepFunctionType)
    (fs : option StepFunctionType) (w w1 : World (Cell:=Cell) (Env:=Env))
    (pr : Prologue) :
  search_init zero neg_inf gtb sp r0 step fs w = (w1, Ok pr) ->
  (max_steps (self_fields w) <= 1 \/
   Forall (Forall (Forall (fun tok => tok = _end_index (self_fields w))))
     (predictions (pr_loop_state pr))) ->
  let k := loop add gtb (self_fields w) step (pr_batch_size pr) (pr_num_classes pr)
             (pr_forced pr) (Z.to_nat (max_steps (self_fields w) - 1))
             (pr_loop_state pr) w1 in
  (k = (w1, Raise RuntimeError) /\
   1 < max_steps (self_fields w) /\
   length (rows (pr_start_scores pr)) <> length sp) \/
  k = (w1, Ok (pr_loop_state pr)).
Proof.
  intros Hinit Hcase k. subst k.
  destruct (Z.to_nat (max_steps (self_fields w) - 1)) as [|n] eqn:Hn; [by right|].
  destruct Hcase as [Hmax|Hend]; [lia|].
  destruct (search_init_ok _ _ _ _ _ _ _ Hinit)
    as (_ & _ & Hb & _ & Hstart & _ & _ & [V I] & Htp & Hst).
  rewrite Hst in Hend. simpl in Hend. inversion Hend as [|? ? HI _]; subst.
  destruct (last_predictions_of (self_fields w) (pr_batch_size pr) (pr_loop_state pr))
    as [lp|e] eqn:Hlp.
  - right. apply (loop_stops_at_once _ _ _ _ _ _ _ lp); [done|].
    rewrite Hst in Hlp. unfold last_predictions_of, reshape1 in Hlp. simpl in Hlp.
    destruct (_ =? _)%nat; [|discriminate]. injection Hlp as <-.
    by apply all_ended_concat.
  - left. simpl. rewrite Hlp.
    rewrite Hst in Hlp. unfold last_predictions_of, reshape1 in Hlp. simpl in Hlp.
    destruct (Nat.eqb_spec (length (concat I))
                (pr_batch_size pr * Z.to_nat (beam_size (self_fields w)))) as [|Hne];
      [discriminate|].
    injection Hlp as <-. split; [done|]. split; [lia|].
    intros Heq. apply Hne.
    destruct (topk_spec _ _ _ _ _ Htp) as (_ & _ & HIlen & _).
    destruct (topk_row_lengths _ _ _ _ _ Htp) as (_ & HIrows).
    rewrite (concat_length_uniform _ _ HIrows), HIlen, Hb.
    rewrite Hstart in Heq. by rewrite Heq.
Qed.

(** C8.  When [max_steps] is at most one, or when every token selected at
    the first step is [end_index], the loop records no backpointer and
    [search] does not return: whenever the prologue and the reshape of the
    first predictions succeed, reading [backpointers[-1]] raises
    [IndexError].  A search that returns has appended a backpointer in at
    least one iteration of the loop. *)
Theorem search_needs_a_backpointer (sp : list Z) (r0 : nat) (step : StepFunctionType)
    (fs : option StepFunctionType) (w : World (Cell:=Cell) (Env:=Env)) :
  ((max_steps (self_fields w) <= 1 \/
    forall w1 pr, search_init zero neg_inf gtb sp r0 step fs w = (w1, Ok pr) ->
      Forall (Forall (Forall (fun tok => tok = _end_index (self_fields w))))
        (predictions (pr_loop_state pr))) ->
   (forall w' r, search add zero neg_inf gtb sp r0 step fs w <> (w', Ok r)) /\
   (forall w1 pr, search_init zero neg_inf gtb sp r0 step fs w = (w1, Ok pr) ->
      (max_steps (self_fields w) <= 1 \/
       length (rows (pr_start_scores pr)) = length sp) ->
      search add zero neg_inf gtb sp r0 step fs w = (w1, Raise IndexError))) /\
  (forall w' out lps,
     search add zero neg_inf gtb sp r0 step fs w = (w', Ok (out, lps)) ->
     exists s, search_loop add zero neg_inf gtb sp r0 step fs w = (w', Ok s) /\
               backpointers s <> [] /\
               (2 <= length (calls w') - length (calls w))%nat).
Proof.
  split.
  - intros Hcase.
    assert (forall w1 pr, search_init zero neg_inf gtb sp r0 step fs w = (w1, Ok pr) ->
              max_steps (self_fields w) <= 1 \/
              Forall (Forall (Forall (fun tok => tok = _end_index (self_fields w))))
                (predictions (pr_loop_state pr))) as Hcase'.
    { intros w1 pr Hinit. destruct Hcase as [?|Hend]; [by left | right; eauto]. }
    assert (forall w1 pr, search_init zero neg_inf gtb sp r0 step fs w = (w1, Ok pr) ->
              reconstruct (predictions (pr_loop_state pr))
                (backpointers (pr_loop_state pr)) = Raise IndexError) as Hrec.
    { intros w1 pr Hinit.
      destruct (search_init_ok _ _ _ _ _ _ _ Hinit)
        as (_ & _ & _ & _ & _ & _ & _ & tp & _ & ->).
      by apply reconstruct_no_backpointer. }
    split.
    + intros w' r Hs. unfold search, search_loop in Hs.
      destruct (search_init _ _ _ _ _ _ _ _) as [w1 [pr|e]] eqn:Hinit;
        cbn [fst snd] in Hs; [|discriminate].
      destruct (loop_without_iteration _ _ _ _ _ _ _ Hinit (Hcase' _ _ eq_refl))
        as [(He & _)|He]; rewrite He in Hs; cbn [fst snd] in Hs; [discriminate|].
      rewrite (Hrec _ _ eq_refl) in Hs. discriminate.
    + intros w1 pr Hinit Hshape. unfold search, search_loop.
      rewrite Hinit. cbn [fst snd].
      destruct (loop_without_iteration _ _ _ _ _ _ _ Hinit (Hcase' _ _ Hinit))
        as [(_ & Hmax & Hne)|He].
      * exfalso. destruct Hshape as [?|?]; [lia | done].
      * rewrite He. cbn [fst snd]. by rewrite (Hrec _ _ Hinit).
  - intros w' out lps Hs.
    apply search_ok in Hs as (w1 & pr & m & s & Hinit & _ & Hit & _ & Hloop & Hrec & _).
    exists s. split; [done|].
    destruct (iterates_backpointers _ _ _ _ _ _ _ _ _ _ Hit)
      as (Hb & _ & cs & Hcalls & Hcs & _).
    destruct (search_init_ok _ _ _ _ _ _ _ Hinit)
      as (_ & Hcalls1 & _ & _ & _ & _ & _ & tp & _ & Hst).
    rewrite Hst in Hb. simpl in Hb.
    assert (backpointers s <> []) as Hne.
    { intros Hnil. rewrite Hnil in Hrec. unfold reconstruct in Hrec.
      destruct (last (predictions s)); discriminate. }
    split; [done|].
    destruct (backpointers s); [done|]. simpl in Hb.
    rewrite Hcalls, Hcalls1, !length_app. simpl. lia.
Qed.

(** ** The configuration error *)

Lemma no_config_Ok {A : Type} (a : A) : no_config (Ok a).
Proof. discriminate. Qed.

Lemma no_config_Raise {A : Type} (e : error) :
  e <> ConfigurationError -> no_config (Raise e : result A).
Proof. intros He [= ->]. done. Qed.

Lemma bind_no_config {A B : Type} (m : result A) (f : A -> result B) :
  no_config m -> (forall a, no_config (f a)) -> no_config (bind m f).
Proof. intros Hm Hf. destruct m as [a|e]; simpl; [apply Hf|]. intros [= ->]. by apply Hm. Qed.

Lemma mapM_no_config {A B : Type} (f : A -> result B) (l : list A) :
  (forall x, no_config (f x)) -> no_config (mapM f l).
Proof.
  intros Hf. induction l as [|x l IH]; simpl; [apply no_config_Ok|].
  apply bind_no_config; [apply Hf|]. intros y.
  apply bind_no_config; [apply IH|]. intros ys. apply no_config_Ok.
Qed.

Lemma no_config_coerce {A B : Type} (e : error) :
  no_config (Raise e : result A) -> no_config (Raise e : result B).
Proof. intros H [= ->]. by apply H. Qed.

Create HintDb no_config.

#[local] Hint Resolve no_config_Ok bind_no_config mapM_no_config : no_config.
#[local] Hint Extern 1 (no_config (Raise _)) =>
  (apply no_config_Raise; discriminate) : no_config.
#[local] Hint Extern 2 (no_config (if ?c then _ else _)) => destruct c : no_config.
#[local] Hint Extern 2 (no_config (match ?x with _ => _ end)) => destruct x : no_config.

Lemma gather_no_config {A : Type} (t : list (list A)) (index : list (list Z)) :
  no_config (gather t index).
Proof. unfold gather, gather_row. auto 8 with no_config. Qed.

Lemma reshape2_no_config {A : Type} (n m : nat) (t : list (list A)) :
  no_config (reshape2 n m t).
Proof. unfold reshape2. auto with no_config. Qed.

Lemma topk_no_config (k : Z) (ncols : nat) (t : list (list Score)) :
  no_config (topk gtb k ncols t).
Proof. unfold topk, topk_row. auto 8 with no_config. Qed.

#[local] Hint Resolve gather_no_config reshape2_no_config topk_no_config : no_config.

Lemma expand_beam_no_config (self : BeamSearch) (batch_size num_classes : nat)
    (forced : list (list Score)) (lp : list Z) (last : list (list Score))
    (clp : ScoreTensor) :
  no_config (expand_beam add gtb self batch_size num_classes forced lp last clp).
Proof. unfold expand_beam, where_end. auto 12 with no_config. Qed.

Lemma update_items_no_config (f : list Cell -> result (list Cell)) (d : StateType) :
  (forall t, no_config (f t)) -> no_config (update_items f d).2.
Proof.
  intros Hf. induction d as [|[key t] d IH]; simpl; [apply no_config_Ok|].
  pose proof (Hf t) as Hft. destruct (f t) as [t'|e]; simpl; [exact IH|].
  intros [= ->]. by apply Hft.
Qed.

Lemma update_state_no_config (f : list Cell -> result (list Cell)) (st : nat)
    (w : World (Score:=Score) (Cell:=Cell) (Env:=Env)) :
  (forall t, no_config (f t)) -> no_config (update_state f st w).2.
Proof.
  intros Hf. unfold update_state. destruct (heap w !! st) as [d|]; simpl.
  - by apply update_items_no_config.
  - apply no_config_Raise. discriminate.
Qed.

Lemma gather_state_no_config (batch_size beam : nat) (bp : list (list Z))
    (t : list Cell) :
  no_config (gather_state batch_size beam bp t).
Proof. unfold gather_state. auto with no_config. Qed.

Lemma expand_state_no_config (batch_size beam : nat) (t : list Cell) :
  no_config (expand_state batch_size beam t).
Proof. unfold expand_state. auto with no_config. Qed.

Lemma loop_no_config (self : BeamSearch) (step : StepFunctionType)
    (batch_size num_classes : nat) (forced : list (list Score)) (n : nat)
    (s : LoopState) (w : World (Cell:=Cell) (Env:=Env)) :
  no_config (loop add gtb self step batch_size num_classes forced n s w).2.
Proof.
  revert s w. induction n as [|n IH]; intros s w; simpl; [apply no_config_Ok|].
  unfold last_predictions_of, reshape1.
  destruct (last (predictions s)) as [p|]; [|apply no_config_Raise; discriminate].
  destruct (_ =? _)%nat; [|apply no_config_Raise; discriminate].
  destruct (all_ended self (concat p)); [apply no_config_Ok|].
  unfold loop_body. cbn [fst snd].
  pose proof (expand_beam_no_config self batch_size num_classes forced (concat p)
                (last_log_probabilities s)
                (call StepArg step (concat p) (state s) w).2.1) as Hexp.
  destruct (expand_beam _ _ _ _ _ _ _ _ _) as [loc|e]; cbn [fst snd]; [|by eapply no_config_coerce].
  match goal with |- context [update_state ?f ?st ?w0] =>
    pose proof (update_state_no_config f st w0
                  (gather_state_no_config _ _ _)) as Hu;
    destruct (update_state f st w0) as [w2 [u|e]] end; cbn [fst snd] in *; [|by eapply no_config_coerce].
  apply IH.
Qed.

Lemma reconstruct_no_config (preds bps : list (list (list Z))) :
  no_config (reconstruct preds bps).
Proof.
  assert (forall t cur recon, no_config (walk_back preds bps t cur recon)) as Hwb.
  { induction t as [|t IH]; intros cur recon; simpl; [apply no_config_Ok|].
    unfold index. auto 10 with no_config. }
  assert (forall ts, no_config (cat2 ts)) as Hcat.
  { induction ts as [|t ts IH]; [apply no_config_Raise; discriminate|].
    destruct ts as [|t' ts]; [apply no_config_Ok|].
    change (cat2 (t :: t' :: ts)) with (r <- cat2 (t' :: ts) ;; cat_pair t r).
    apply bind_no_config; [apply IH|]. intros r. unfold cat_pair.
    auto with no_config. }
  unfold reconstruct, index. auto 12 with no_config.
Qed.

(** C7, as the code has it.  [search] raises the configuration error exactly
    when [per_node_beam_size] exceeds the vocabulary size, which is the
    second dimension of the scores the first scoring call returns.  The
    error is raised right after that one call (a call of [first_step], or of
    [step] itself when [first_step] is not given) and before any other. *)
Theorem configuration_error_iff (sp : list Z) (r0 : nat) (step : StepFunctionType)
    (fs : option StepFunctionType) (w : World (Cell:=Cell) (Env:=Env)) :
  let scores := sr_scores (first_step_or fs step sp r0 (heap w) (env w)) in
  ((search add zero neg_inf gtb sp r0 step fs w).2 = Raise ConfigurationError <->
   Z.of_nat (num_cols scores) < per_node_beam_size (self_fields w)) /\
  ((search add zero neg_inf gtb sp r0 step fs w).2 = Raise ConfigurationError ->
   calls (search add zero neg_inf gtb sp r0 step fs w).1
   = calls w ++ [mkCall (first_callee fs) sp r0 scores]).
Proof.
  intros scores.
  assert (Z.of_nat (num_cols scores) < per_node_beam_size (self_fields w) ->
          search add zero neg_inf gtb sp r0 step fs w
          = ((call (first_callee fs) (first_step_or fs step) sp r0 w).1,
             Raise ConfigurationError)) as Hraise.
  { intros Hlt. unfold search, search_loop, search_init, call. cbn [fst snd].
    fold scores. destruct (Z.ltb_spec (Z.of_nat (num_cols scores))
                             (per_node_beam_size (self_fields w))); [done | lia]. }
  assert ((search add zero neg_inf gtb sp r0 step fs w).2 = Raise ConfigurationError ->
          Z.of_nat (num_cols scores) < per_node_beam_size (self_fields w)) as Honly.
  { intros Hs.
    destruct (Z.ltb_spec (Z.of_nat (num_cols scores))
                (per_node_beam_size (self_fields w))) as [Hlt|Hge]; [done|].
    exfalso. revert Hs. unfold search, search_loop, search_init, call. cbn [fst snd].
    fold scores.
    destruct (Z.ltb_spec (Z.of_nat (num_cols scores))
                (per_node_beam_size (self_fields w))) as [Hlt|_]; [lia|].
    pose proof (topk_no_config (beam_size (self_fields w)) (num_cols scores)
                  (rows scores)) as Htk.
    destruct (topk _ _ _ _) as [tp|e]; cbn [fst snd]; [|by eapply no_config_coerce].
    destruct (log_probs_after_end _ _ _ _ _) as [forced|e] eqn:Hf; cbn [fst snd].
    2:{ unfold log_probs_after_end, normalize_index in Hf.
        repeat (destruct (_ && _) in Hf); simpl in Hf; try discriminate.
        by injection Hf as <-. }
    match goal with |- context [update_state ?f ?st ?w0] =>
      pose proof (update_state_no_config f st w0
                    (expand_state_no_config _ _)) as Hu;
      destruct (update_state f st w0) as [w2 [u|e]] end; cbn [fst snd] in *; [|by eapply no_config_coerce].
    match goal with |- context [loop ?a ?g ?sf ?st ?b ?c ?f ?n ?s0 ?w0] =>
      pose proof (loop_no_config sf st b c f n s0 w0) as Hl;
      destruct (loop a g sf st b c f n s0 w0) as [w3 [s|e]] end;
      cbn [fst snd] in *; [|by eapply no_config_coerce].
    pose proof (reconstruct_no_config (predictions s) (backpointers s)) as Hr.
    destruct (reconstruct _ _); simpl; [discriminate | by eapply no_config_coerce]. }
  split; [split; [exact Honly | by intros Hlt; rewrite (Hraise Hlt)]|].
  intros Hs. by rewrite (Hraise (Honly Hs)).
Qed.

(** ** Determinism *)

Lemma call_sim (c : Callee) (f : StepFunctionType) (tokens : list Z) (st : nat)
    (w w' : World (Score:=Score) (Cell:=Cell) (Env:=Env)) :
  deterministic f -> same_inputs w w' ->
  (call c f tokens st w).2 = (call c f tokens st w').2 /\
  same_inputs (call c f tokens st w).1 (call c f tokens st w').1.
Proof.
  intros Hf (Hself & Hheap). unfold call, same_inputs. simpl. rewrite Hheap.
  destruct (Hf tokens st (heap w') (env w) (env w')) as (-> & -> & ->). done.
Qed.

Lemma update_state_sim (f : list Cell -> result (list Cell)) (st : nat)
    (w w' : World (Score:=Score) (Cell:=Cell) (Env:=Env)) :
  same_inputs w w' ->
  (update_state f st w).2 = (update_state f st w').2 /\
  same_inputs (update_state f st w).1 (update_state f st w').1.
Proof.
  intros (Hself & Hheap). unfold update_state, same_inputs. rewrite Hheap.
  destruct (heap w' !! st) as [d|]; simpl; rewrite ?Hheap; done.
Qed.

Lemma loop_body_sim (self : BeamSearch) (step : StepFunctionType)
    (batch_size num_classes : nat) (forced : list (list Score))
    (s : LoopState) (lp : list Z) (w w' : World (Cell:=Cell) (Env:=Env)) :
  deterministic step -> same_inputs w w' ->
  (loop_body add gtb self step batch_size num_classes forced s lp w).2
  = (loop_body add gtb self step batch_size num_classes forced s lp w').2 /\
  same_inputs (loop_body add gtb self step batch_size num_classes forced s lp w).1
    (loop_body add gtb self step batch_size num_classes forced s lp w').1.
Proof.
  intros Hstep Hsame. unfold loop_body.
  destruct (call_sim StepArg step lp (state s) w w' Hstep Hsame) as (Hc & Hcs).
  rewrite Hc.
  destruct (expand_beam _ _ _ _ _ _ _ _ _) as [loc|e]; cbn [fst snd]; [|done].
  match goal with |- context [update_state ?f ?st _] =>
    destruct (update_state_sim f st _ _ Hcs) as (Hu & Hus) end.
  rewrite Hu.
  match goal with |- context [(update_state ?f ?st ?w0).2] =>
    destruct (update_state f st w0).2 end; cbn [fst snd]; done.
Qed.

Lemma loop_sim (self : BeamSearch) (step : StepFunctionType)
    (batch_size num_classes : nat) (forced : list (list Score)) (n : nat)
    (s : LoopState) (w w' : World (Cell:=Cell) (Env:=Env)) :
  deterministic step -> same_inputs w w' ->
  (loop add gtb self step batch_size num_classes forced n s w).2
  = (loop add gtb self step batch_size num_classes forced n s w').2 /\
  same_inputs (loop add gtb self step batch_size num_classes forced n s w).1
    (loop add gtb self step batch_size num_classes forced n s w').1.
Proof.
  intros Hstep. revert s w w'. induction n as [|n IH]; intros s w w' Hsame; simpl; [done|].
  destruct (last_predictions_of self batch_size s) as [lp|e]; [|done].
  destruct (all_ended self lp); [done|].
  destruct (loop_body_sim self step batch_size num_classes forced s lp w w' Hstep Hsame)
    as (Hb & Hbs).
  rewrite <- Hb.
  destruct (loop_body _ _ _ _ _ _ _ _ _ w).2 as [s1|e]; [|done].
  by apply IH.
Qed.

(** C9.  With deterministic scoring functions (and the fixed tie-breaking
    rule of [topk]), two invocations of [search] on the same
    [start_predictions], the same state objects and the same configuration
    give the same result, predictions and log-probabilities alike, whatever
    the hidden environment and the call history are. *)
Theorem search_deterministic (sp : list Z) (r0 : nat) (step : StepFunctionType)
    (fs : option StepFunctionType) (w w' : World (Cell:=Cell) (Env:=Env)) :
  deterministic step ->
  (forall f, fs = Some f -> deterministic f) ->
  same_inputs w w' ->
  (search add zero neg_inf gtb sp r0 step fs w).2
  = (search add zero neg_inf gtb sp r0 step fs w').2.
Proof.
  intros Hstep Hfirst Hsame.
  assert (deterministic (first_step_or fs step)) as Hf.
  { destruct fs as [f|]; simpl; [by apply Hfirst | done]. }
  assert ((search_init zero neg_inf gtb sp r0 step fs w).2
          = (search_init zero neg_inf gtb sp r0 step fs w').2 /\
          same_inputs (search_init zero neg_inf gtb sp r0 step fs w).1
            (search_init zero neg_inf gtb sp r0 step fs w').1) as (Hi & His).
  { unfold search_init.
    destruct (call_sim (first_callee fs) _ sp r0 w w' Hf Hsame) as (Hc & Hcs).
    rewrite Hc. destruct Hsame as (Hself & _). rewrite Hself.
    destruct (_ <? _); [done|].
    destruct (topk _ _ _ _) as [tp|e]; [|done].
    destruct (log_probs_after_end _ _ _ _ _) as [forced|e]; [|done].
    match goal with |- context [update_state ?f ?st _] =>
      destruct (update_state_sim f st _ _ Hcs) as (Hu & Hus) end.
    rewrite Hu.
    match goal with |- context [(update_state ?f ?st ?w0).2] =>
      destruct (update_state f st w0).2 end; cbn [fst snd]; done. }
  unfold search, search_loop. rewrite <- Hi.
  destruct (search_init zero neg_inf gtb sp r0 step fs w).2 as [pr|e]; cbn [fst snd]; [|done].
  destruct Hsame as (Hself & _). rewrite <- Hself.
  match goal with |- context [loop ?a ?g ?sf ?st ?b ?c ?f ?n ?s0 _] =>
    destruct (loop_sim sf st b c f n s0 _ _ Hstep His) as (Hl & _) end.
  rewrite <- Hl.
  match goal with |- context [loop ?a ?g ?sf ?st ?b ?c ?f ?n ?s0 ?w0] =>
    destruct (loop a g sf st b c f n s0 w0).2 end; done.
Qed.

(** ** Effects on the caller's objects *)

Lemma loop_body_frame (r0 : nat) (self : BeamSearch) (step : StepFunctionType)
    (batch_size num_classes : nat) (forced : list (list Score))
    (s : LoopState) (lp : list Z) (w : World (Cell:=Cell) (Env:=Env)) :
  keeps_away r0 step ->
  heap (loop_body add gtb self step batch_size num_classes forced s lp w).1 !! r0
  = heap w !! r0 /\
  self_fields (loop_body add gtb self step batch_size num_classes forced s lp w).1
  = self_fields w.
Proof.
  intros Hstep. unfold loop_body, call. cbn [fst snd].
  destruct (Hstep lp (state s) (heap w) (env w)) as (Hne & Hkeep).
  destruct (expand_beam _ _ _ _ _ _ _ _ _) as [loc|e]; cbn [fst snd]; [|done].
  match goal with |- context [update_state ?f ?st ?w0] =>
    destruct (update_state_frame f st w0) as (Hself & _ & _ & Hheap);
    destruct (update_state f st w0) as [w2 [u|e]] end; cbn [fst snd] in *;
    (split; [rewrite Hheap by done; exact Hkeep | exact Hself]).
Qed.

Lemma loop_frame (r0 : nat) (self : BeamSearch) (step : StepFunctionType)
    (batch_size num_classes : nat) (forced : list (list Score)) (n : nat)
    (s : LoopState) (w : World (Cell:=Cell) (Env:=Env)) :
  keeps_away r0 step ->
  heap (loop add gtb self step batch_size num_classes forced n s w).1 !! r0
  = heap w !! r0 /\
  self_fields (loop add gtb self step batch_size num_classes forced n s w).1
  = self_fields w.
Proof.
  intros Hstep. revert s w. induction n as [|n IH]; intros s w; simpl; [done|].
  destruct (last_predictions_of self batch_size s) as [lp|e]; [|done].
  destruct (all_ended self lp); [done|].
  destruct (loop_body_frame r0 self step batch_size num_classes forced s lp w Hstep)
    as (Hh & Hs).
  destruct (loop_body _ _ _ _ _ _ _ _ _ w) as [w1 [s1|e]]; cbn [fst snd] in *; [|done].
  destruct (IH s1 w1) as (Hh' & Hs'). split; congruence.
Qed.

Lemma loop_self (self : BeamSearch) (step : StepFunctionType)
    (batch_size num_classes : nat) (forced : list (list Score)) (n : nat)
    (s : LoopState) (w : World (Cell:=Cell) (Env:=Env)) :
  self_fields (loop add gtb self step batch_size num_classes forced n s w).1
  = self_fields w.
Proof.
  revert s w. induction n as [|n IH]; intros s w; simpl; [done|].
  destruct (last_predictions_of self batch_size s) as [lp|e]; [|done].
  destruct (all_ended self lp); [done|].
  assert (self_fields (loop_body add gtb self step batch_size num_classes forced s lp w).1
          = self_fields w) as Hb.
  { unfold loop_body, call. cbn [fst snd].
    destruct (expand_beam _ _ _ _ _ _ _ _ _) as [loc|e]; cbn [fst snd]; [|done].
    match goal with |- context [update_state ?f ?st ?w0] =>
      destruct (update_state_frame f st w0) as (Hself & _);
      destruct (update_state f st w0) as [w2 [u|e]] end; cbn [fst snd] in *;
      exact Hself. }
  destruct (loop_body _ _ _ _ _ _ _ _ _ w) as [w1 [s1|e]]; cbn [fst snd] in *; [|done].
  by rewrite IH.
Qed.

Lemma search_init_frame (sp : list Z) (r0 : nat) (step : StepFunctionType)
    (fs : option StepFunctionType) (w : World (Cell:=Cell) (Env:=Env)) :
  keeps_away r0 (first_step_or fs step) ->
  heap (search_init zero neg_inf gtb sp r0 step fs w).1 !! r0 = heap w !! r0 /\
  self_fields (search_init zero neg_inf gtb sp r0 step fs w).1 = self_fields w.
Proof.
  intros Hf. unfold search_init, call. cbn [fst snd].
  destruct (Hf sp r0 (heap w) (env w)) as (Hne & Hkeep).
  destruct (_ <? _); cbn [fst snd]; [done|].
  destruct (topk _ _ _ _) as [tp|e]; [|done].
  destruct (log_probs_after_end _ _ _ _ _) as [forced|e]; [|done].
  match goal with |- context [update_state ?f ?st ?w0] =>
    destruct (update_state_frame f st w0) as (Hself & _ & _ & Hheap);
    destruct (update_state f st w0) as [w2 [u|e]] end; cbn [fst snd] in *;
    (split; [rewrite Hheap by done; exact Hkeep | exact Hself]).
Qed.

(** C10, as the code has it.  [search] never writes the configuration
    fields.  What it writes is the state mapping a scoring function
    returns, whose entries it rebinds in place; so the caller's
    [start_state] mapping is unchanged after [search] whenever the scoring
    functions leave it alone and none of them returns that very mapping as
    its output state. *)
Theorem search_frame (sp : list Z) (r0 : nat) (step : StepFunctionType)
    (fs : option StepFunctionType) (w : World (Cell:=Cell) (Env:=Env)) :
  self_fields (search add zero neg_inf gtb sp r0 step fs w).1 = self_fields w /\
  (keeps_away r0 step ->
   (forall f, fs = Some f -> keeps_away r0 f) ->
   heap (search add zero neg_inf gtb sp r0 step fs w).1 !! r0 = heap w !! r0).
Proof.
  assert (forall P : World (Cell:=Cell) (Env:=Env) -> Prop,
            P (search_init zero neg_inf gtb sp r0 step fs w).1 ->
            (forall pr n w1, P w1 ->
               P (loop add gtb (self_fields w) step (pr_batch_size pr)
                    (pr_num_classes pr) (pr_forced pr) n (pr_loop_state pr) w1).1) ->
            P (search add zero neg_inf gtb sp r0 step fs w).1) as Hsearch.
  { intros P Hi Hl. unfold search, search_loop.
    destruct (search_init zero neg_inf gtb sp r0 step fs w) as [w1 [pr|e]];
      cbn [fst snd] in *; [|done].
    specialize (Hl pr (Z.to_nat (max_steps (self_fields w) - 1)) w1 Hi).
    destruct (loop _ _ _ _ _ _ _ _ _ _) as [w2 [s|e]]; cbn [fst snd] in *; done. }
  split.
  - apply (Hsearch (fun w' => self_fields w' = self_fields w)).
    + unfold search_init, call. cbn [fst snd].
      destruct (_ <? _); cbn [fst snd]; [done|].
      destruct (topk _ _ _ _) as [tp|e]; [|done].
      destruct (log_probs_after_end _ _ _ _ _) as [forced|e]; [|done].
      match goal with |- context [update_state ?f ?st ?w0] =>
        destruct (update_state_frame f st w0) as (Hself & _);
        destruct (update_state f st w0) as [w2 [u|e]] end; cbn [fst snd] in *; done.
    + intros pr n w1 Hw1. rewrite loop_self. exact Hw1.
  - intros Hstep Hfirst.
    assert (keeps_away r0 (first_step_or fs step)) as Hf.
    { destruct fs as [f|]; simpl; [by apply Hfirst | done]. }
    apply (Hsearch (fun w' => heap w' !! r0 = heap w !! r0)).
    + by apply search_init_frame.
    + intros pr n w1 Hw1.
      destruct (loop_frame r0 (self_fields w) step (pr_batch_size pr)
                  (pr_num_classes pr) (pr_forced pr) n (pr_loop_state pr) w1 Hstep)
        as (Hh & _).
      congruence.
Qed.

(** ** Hypotheses that have ended *)

Lemma topk_indices_nonneg (k : Z) (ncols : nat) (t V : list (list Score))
    (I : list (list Z)) :
  topk gtb k ncols t = Ok (V, I) -> Forall (Forall (fun i => 0 <= i)) I.
Proof.
  intros H. destruct (topk_spec _ _ _ _ _ H) as (_ & _ & HI & Hrows).
  apply Forall_lookup_2. intros r idxs Hidxs.
  destruct (Hrows r) as (row & vals & idxs' & _ & _ & Hidxs' & Htk).
  { apply lookup_lt_Some in Hidxs. lia. }
  rewrite Hidxs in Hidxs'. injection Hidxs' as <-.
  destruct (topk_row_spec _ _ _ _ Htk) as (_ & _ & Hlen & Hsel).
  apply Forall_lookup_2. intros j i Hi.
  destruct (Hsel j) as (v & n & _ & Hn & _).
  { apply lookup_lt_Some in Hi. lia. }
  rewrite Hi in Hn. injection Hn as ->. lia.
Qed.

Lemma chunks_elem {A : Type} (n m : nat) (l row : list A) (x : A) :
  row ∈ chunks n m l -> x ∈ row -> x ∈ l.
Proof.
  intros Hrow Hx. apply list_elem_of_lookup in Hrow as [b Hb].
  assert (b < n)%nat as Hlt.
  { apply lookup_lt_Some in Hb. by rewrite chunks_length in Hb. }
  rewrite chunks_lookup in Hb by done. injection Hb as <-.
  apply list_elem_of_lookup in Hx as [j Hj].
  apply lookup_take_Some in Hj as [Hj _]. rewrite lookup_drop in Hj.
  eapply list_elem_of_lookup_2, Hj.
Qed.

Lemma gather_elem {A : Type} (t : list (list A)) (index : list (list Z))
    (out : list (list A)) (orow : list A) (x : A) :
  gather t index = Ok out -> orow ∈ out -> x ∈ orow ->
  exists row, row ∈ t /\ x ∈ row.
Proof.
  intros Hg Horow Hx.
  apply list_elem_of_lookup in Horow as [b Hb].
  apply list_elem_of_lookup in Hx as [k Hk].
  destruct (gather_spec _ _ _ Hg) as (_ & Hrows).
  destruct (Hrows _ _ Hb) as (row & idx & Hrow & _ & Hgr).
  destruct (gather_row_spec _ _ _ Hgr) as (_ & Hent).
  destruct (Hent _ _ Hk) as (i & _ & _ & Hri).
  exists row. split; eapply list_elem_of_lookup_2; eauto.
Qed.

Lemma expand_beam_classes_nonneg (self : BeamSearch) (batch_size num_classes : nat)
    (forced : list (list Score)) (lp : list Z) (last : list (list Score))
    (clp : ScoreTensor) (loc : StepLocals) :
  expand_beam add gtb self batch_size num_classes forced lp last clp = Ok loc ->
  Forall (Forall (fun tok => 0 <= tok)) (restricted_predicted_classes loc).
Proof.
  unfold expand_beam. intros H.
  apply bind_ok in H as (cleaned & Hc & H).
  apply bind_ok in H as ([T P] & Htp & H). simpl in H.
  apply bind_ok in H as (rs & Hrs & H).
  apply bind_ok in H as (rp & Hrp & H).
  apply bind_ok in H as ([RV RI] & Hr & H). simpl in H.
  apply bind_ok in H as (classes & Hcl & H).
  injection H as <-. simpl.
  apply reshape2_spec in Hrp as (_ & ->).
  pose proof (topk_indices_nonneg _ _ _ _ _ Htp) as HP.
  apply Forall_forall. intros orow Horow. apply Forall_forall. intros x Hx.
  destruct (gather_elem _ _ _ _ _ Hcl Horow Hx) as (row & Hrow & Hxr).
  pose proof (chunks_elem _ _ _ _ _ Hrow Hxr) as Hin.
  apply list_elem_of_In, in_concat in Hin as (prow & Hprow & Hxp).
  apply list_elem_of_In in Hprow, Hxp.
  eapply Forall_forall in HP; [|exact Hprow].
  eapply Forall_forall in HP; [|exact Hxp]. done.
Qed.

Lemma iterates_tokens_nonneg (self : BeamSearch) (step : StepFunctionType)
    (batch_size num_classes : nat) (forced : list (list Score)) (n : nat)
    (s s' : LoopState) (w w' : World (Cell:=Cell) (Env:=Env)) :
  iterates add gtb self step batch_size num_classes forced n s w s' w' ->
  Forall (Forall (Forall (fun tok => 0 <= tok))) (predictions s) ->
  Forall (Forall (Forall (fun tok => 0 <= tok))) (predictions s').
Proof.
  induction 1 as [|n s w s1 w1 lp s2 w2 _ IH _ _ Hbody]; intros Hs; [done|].
  apply loop_body_ok in Hbody as (loc & Hloc & -> & _). simpl.
  apply Forall_app. split; [by apply IH|].
  constructor; [|done]. by eapply expand_beam_classes_nonneg.
Qed.

Lemma normalize_index_nonneg (n : nat) (i : Z) (j : nat) :
  0 <= i -> normalize_index n i = Ok j -> j = Z.to_nat i /\ (j < n)%nat.
Proof.
  intros Hi. unfold normalize_index.
  destruct (Z.leb_spec 0 i); [|lia].
  destruct (Z.ltb_spec i (Z.of_nat n)); simpl.
  - intros [= <-]. lia.
  - destruct (Z.ltb_spec i 0); [lia|]. rewrite andb_false_r. discriminate.
Qed.

(** C5, as the code has it.  For a survivor of a loop iteration whose
    parent hypothesis had ended (its last token was [end_index]): when the
    survivor selects [end_index] again, its cumulative log-probability is
    exactly the parent's, since the forced-end scores add [0] there; when it
    selects another token, [-inf] is added to the parent's. *)
Theorem ended_hypothesis_score (sp : list Z) (r0 : nat) (step : StepFunctionType)
    (fs : option StepFunctionType) (w w1 w2 w3 : World (Cell:=Cell) (Env:=Env))
    (pr : Prologue) (t : nat) (s s' : LoopState) (lp : list Z) (b k : nat) :
  (forall x, add zero x = x) ->
  search_init zero neg_inf gtb sp r0 step fs w = (w1, Ok pr) ->
  iterates add gtb (self_fields w) step (pr_batch_size pr) (pr_num_classes pr)
    (pr_forced pr) t (pr_loop_state pr) w1 s w2 ->
  last_predictions_of (self_fields w) (pr_batch_size pr) s = Ok lp ->
  all_ended (self_fields w) lp = false ->
  loop_body add gtb (self_fields w) step (pr_batch_size pr) (pr_num_classes pr)
    (pr_forced pr) s lp w2 = (w3, Ok s') ->
  (b < pr_batch_size pr)%nat -> (k < Z.to_nat (beam_size (self_fields w)))%nat ->
  exists (parent : nat) (tok : Z) (score score' : Score),
    last (backpointers s') ≫= (fun bp => entry bp b k) = Some (Z.of_nat parent) /\
    last (predictions s') ≫= (fun p => entry p b k) = Some tok /\
    entry (last_log_probabilities s) b parent = Some score /\
    entry (last_log_probabilities s') b k = Some score' /\
    (last (predictions s) ≫= (fun p => entry p b parent)
       = Some (_end_index (self_fields w)) ->
     (tok = _end_index (self_fields w) -> score' = score) /\
     (tok <> _end_index (self_fields w) -> score' = add neg_inf score)).
Proof.
  intros Hzero Hinit Hit Hlp Hne Hbody Hb Hk.
  set (self := self_fields w) in *.
  destruct (search_init_shaped _ _ _ _ _ _ _ Hinit) as (Hbeam & Hforced & Hs0).
  destruct (search_init_ok _ _ _ _ _ _ _ Hinit)
    as (_ & _ & _ & HC & _ & _ & Hf & [V I] & Htp & Hst).
  apply log_probs_after_end_spec in Hf as (j & Hj & Hfrow).
  pose proof (iterates_shaped _ _ _ _ _ _ _ _ _ _ Hit Hs0) as Hs1.
  assert (Forall (Forall (Forall (fun tok => 0 <= tok))) (predictions s)) as Hnonneg.
  { eapply iterates_tokens_nonneg; [exact Hit|]. rewrite Hst. simpl.
    constructor; [|done]. by eapply topk_indices_nonneg. }
  destruct (last_predictions_shape _ _ _ _ Hs1 Hlp Hne) as (Hlplen & Hlastlen).
  apply loop_body_ok in Hbody as (loc & Hloc & -> & _).
  destruct Hs1 as (Hp1 & _ & Hl1 & _ & plast & Hplast & _).
  destruct (expand_beam_entry _ _ _ _ _ _ _ _ b k Hloc Hlplen Hforced Hlastlen Hl1 Hb Hk)
    as (n & c & v & l & Hper & Hn & _ & Hbp & Htok & Hcl & Hl & Hsum & Hcleaned).
  exists (n / Z.to_nat (per_node_beam_size self))%nat, (Z.of_nat c), l, (add v l).
  simpl. rewrite !last_snoc. simpl.
  split; [done|]. split; [done|]. split; [done|]. split; [done|].
  intros Hended. rewrite Hplast in Hended. simpl in Hended.
  set (parent := (n / Z.to_nat (per_node_beam_size self))%nat) in *.
  assert (parent < Z.to_nat (beam_size self))%nat as Hparent.
  { apply entry_Some in Hl as (row & Hrow & Hpk).
    eapply Forall_lookup_1 in Hl1; [|exact Hrow]. simpl in Hl1.
    apply lookup_lt_Some in Hpk. lia. }
  assert (Forall (fun row : list Z => length row = Z.to_nat (beam_size self)) plast)
    as Hplrows.
  { apply last_Some in Hplast as [l' Heq]. rewrite Heq in Hp1.
    apply Forall_app in Hp1 as [_ Hp1]. by inversion Hp1. }
  assert (0 <= _end_index self) as Hend0.
  { apply entry_Some in Hended as (row & Hrow & Htk).
    apply last_Some in Hplast as [l' Heq]. rewrite Heq in Hnonneg.
    apply Forall_app in Hnonneg as [_ Hnn]. inversion Hnn as [|? ? Hpl _]; subst.
    eapply Forall_lookup_1 in Hpl; [|exact Hrow].
    eapply Forall_lookup_1 in Hpl; [|exact Htk]. done. }
  assert (lp !! (b * Z.to_nat (beam_size self) + parent)%nat = Some (_end_index self))
    as Hlpr.
  { unfold last_predictions_of in Hlp. rewrite Hplast in Hlp. unfold reshape1 in Hlp.
    destruct (_ =? _)%nat; [|discriminate]. injection Hlp as <-.
    by rewrite (concat_lookup_uniform plast _ _ _ Hplrows Hparent). }
  destruct (normalize_index_nonneg _ _ _ Hend0 Hj) as [Hjeq Hjlt].
  (* the cleaned row of the parent is the forced-end row *)
  rewrite Hcleaned in Hcl. apply entry_Some in Hcl as (crow & Hcrow & Hcv).
  unfold select_rows in Hcrow.
  apply lookup_zip_with_Some in Hcrow as ([tokr fr] & srow & -> & Hzip & _).
  apply lookup_zip_with_Some in Hzip as (tok' & f' & [= <- <-] & Htok' & Hf').
  rewrite Hlpr in Htok'. injection Htok' as <-. simpl in Hcv.
  rewrite Z.eqb_refl in Hcv. rewrite Hfrow in Hf'.
  apply lookup_replicate in Hf' as [-> _].
  split.
  - intros Hce. assert (c = j) as -> by lia.
    rewrite list_lookup_insert_eq in Hcv by (rewrite length_replicate; lia).
    injection Hcv as <-. apply Hzero.
  - intros Hce. assert (c <> j) as Hcj by lia.
    rewrite list_lookup_insert_ne in Hcv by lia.
    apply lookup_replicate in Hcv as [-> _]. done.
Qed.

(** ** The reconstruction returns *)

Lemma gather_grid {A : Type} (batch beam : nat) (t : list (list A))
    (index : list (list Z)) :
  grid batch beam t -> grid batch beam index ->
  Forall (Forall (fun i => 0 <= i < Z.of_nat beam)) index ->
  exists out, gather t index = Ok out /\ grid batch beam out /\
              forall orow x, orow ∈ out -> x ∈ orow -> exists row, row ∈ t /\ x ∈ row.
Proof.
  intros (Ht & Htr) (Hi & Hir) Hrange.
  destruct (gather_total t index beam) as [out Hout]; [lia | done | done |].
  exists out. split; [done|]. split.
  - destruct (gather_spec _ _ _ Hout) as (Hlen & Hrows). split; [lia|].
    apply Forall_lookup_2. intros b orow Ho.
    destruct (Hrows _ _ Ho) as (row & idx & _ & Hidx & Hg).
    destruct (gather_row_spec _ _ _ Hg) as (-> & _).
    eapply Forall_lookup_1 in Hir; eauto.
  - intros orow x Ho Hx. eapply gather_elem; eauto.
Qed.

Lemma unsqueeze2_grid (batch beam : nat) (t : list (list Z)) :
  grid batch beam t -> grid batch beam (unsqueeze2 t).
Proof.
  intros (Ht & Htr). unfold unsqueeze2. split; [by rewrite length_fmap|].
  apply Forall_fmap. eapply Forall_impl; [exact Htr|].
  intros row Hrow. simpl. by rewrite length_fmap.
Qed.

Lemma cat_pair_grid (batch beam : nat) (x y : list (list (list Z))) :
  grid batch beam x -> grid batch beam y ->
  exists out, cat_pair x y = Ok out /\ grid batch beam out.
Proof.
  intros (Hx & Hxr) (Hy & Hyr). unfold cat_pair.
  assert (forallb (fun p : list (list Z) * list (list Z) =>
                     (length p.1 =? length p.2)%nat) (zip x y) = true) as ->.
  { apply forallb_forall. intros [rx ry] Hin. apply list_elem_of_In in Hin.
    apply list_elem_of_lookup in Hin as [i Hi].
    apply lookup_zip_with_Some in Hi as (a & c & [= <- <-] & Ha & Hc).
    eapply Forall_lookup_1 in Hxr; [|exact Ha].
    eapply Forall_lookup_1 in Hyr; [|exact Hc]. simpl in *.
    apply Nat.eqb_eq. lia. }
  rewrite andb_true_r. destruct (Nat.eqb_spec (length x) (length y)); [|lia].
  eexists. split; [done|]. split.
  - rewrite length_zip_with. lia.
  - apply Forall_lookup_2. intros i row Hrow.
    apply lookup_zip_with_Some in Hrow as (a & c & -> & Ha & Hc).
    eapply Forall_lookup_1 in Hxr; [|exact Ha].
    eapply Forall_lookup_1 in Hyr; [|exact Hc]. simpl in *.
    rewrite length_zip_with. lia.
Qed.

Lemma cat2_grid (batch beam : nat) (ts : list (list (list (list Z)))) :
  ts <> [] -> Forall (grid batch beam) ts ->
  exists out, cat2 ts = Ok out /\ grid batch beam out.
Proof.
  induction ts as [|t ts IH]; intros Hne Hts; [done|].
  inversion Hts as [|? ? Ht Hts']; subst.
  destruct ts as [|t' ts]; [by exists t|].
  destruct IH as (r & Hr & Hrg); [done | done|].
  change (cat2 (t :: t' :: ts)) with (r <- cat2 (t' :: ts) ;; cat_pair t r).
  rewrite Hr. simpl. by apply cat_pair_grid.
Qed.

Section Totality.

Variables batch beam : nat.
Variables preds bps : list (list (list Z)).
Hypothesis Hpreds : Forall (grid batch beam) preds.
Hypothesis Hbps : Forall (grid batch beam) bps.
Hypothesis Hrange : Forall (Forall (Forall (fun i => 0 <= i < Z.of_nat beam))) bps.
Hypothesis Hlen : length preds = S (length bps).

Let slots (cur : list (list Z)) : Prop :=
  grid batch beam cur /\ Forall (Forall (fun i => 0 <= i < Z.of_nat beam)) cur.

Lemma gather_slots (bp cur : list (list Z)) :
  bp ∈ bps -> slots cur -> exists cur', gather bp cur = Ok cur' /\ slots cur'.
Proof.
  intros Hbp (Hg & Hr).
  assert (grid batch beam bp) as Hbpg by (eapply Forall_forall in Hbps; eauto).
  destruct (gather_grid batch beam bp cur Hbpg Hg Hr) as (cur' & Hc & Hcg & Helem).
  exists cur'. split; [done|]. split; [done|].
  apply Forall_forall. intros orow Horow. apply Forall_forall. intros x Hx.
  destruct (Helem _ _ Horow Hx) as (row & Hrow & Hxr).
  eapply Forall_forall in Hrange; [|exact Hbp].
  eapply Forall_forall in Hrange; [|exact Hrow].
  eapply Forall_forall in Hrange; [|exact Hxr]. done.
Qed.

Lemma walk_back_total (t : nat) (cur : list (list Z))
    (recon : list (list (list (list Z)))) :
  (t < length preds)%nat -> slots cur -> Forall (grid batch beam) recon ->
  exists recon' cur',
    walk_back preds bps t cur recon = Ok (recon', cur') /\
    slots cur' /\ Forall (grid batch beam) recon'.
Proof.
  revert cur recon. induction t as [|t IH]; intros cur recon Ht Hcur Hrec; simpl.
  - eauto.
  - unfold index.
    destruct (lookup_lt_is_Some_2 preds (S t)) as [p Hp]; [lia|].
    destruct (lookup_lt_is_Some_2 bps t) as [bp Hbp]; [lia|].
    rewrite Hp. simpl.
    assert (grid batch beam p) as Hpg by (eapply Forall_lookup_1 in Hpreds; eauto).
    destruct Hcur as (Hcg & Hcr).
    destruct (gather_grid batch beam p cur Hpg Hcg Hcr) as (cp & -> & Hcpg & _). simpl.
    rewrite Hbp. simpl.
    destruct (gather_slots bp cur) as (cur' & -> & Hcur').
    { eapply list_elem_of_lookup_2, Hbp. }
    { done. }
    simpl. apply IH; [lia | done |].
    apply Forall_app. split; [done|]. constructor; [|done].
    by apply unsqueeze2_grid.
Qed.

Lemma reconstruct_total :
  bps <> [] ->
  exists out, reconstruct preds bps = Ok out /\ grid batch beam out.
Proof.
  intros Hne. unfold reconstruct.
  destruct (last preds) as [lp|] eqn:Hlp.
  2:{ apply last_None in Hlp. rewrite Hlp in Hlen. discriminate. }
  destruct (last bps) as [lb|] eqn:Hlb; [|by apply last_None in Hlb].
  simpl. rewrite last_lookup in Hlp, Hlb.
  assert (grid batch beam lp) as Hlpg by (eapply Forall_lookup_1 in Hpreds; eauto).
  assert (slots lb) as Hlbs.
  { split; [eapply Forall_lookup_1 in Hbps; eauto|].
    eapply Forall_lookup_1 in Hrange; eauto. }
  destruct (walk_back_total (length preds - 2) lb [unsqueeze2 lp])
    as (recon & cur & -> & (Hcg & Hcr) & Hrec).
  { lia. } { done. } { constructor; [by apply unsqueeze2_grid | done]. }
  simpl. unfold index.
  destruct (lookup_lt_is_Some_2 preds 0) as [p0 Hp0]; [lia|]. rewrite Hp0. simpl.
  assert (grid batch beam p0) as Hp0g by (eapply Forall_lookup_1 in Hpreds; eauto).
  destruct (gather_grid batch beam p0 cur Hp0g Hcg Hcr) as (final & -> & Hfg & _). simpl.
  apply cat2_grid.
  - intros Hnil. apply (f_equal length) in Hnil.
    rewrite length_reverse, length_app in Hnil. simpl in Hnil. lia.
  - apply Forall_reverse, Forall_app. split; [done|]. constructor; [|done].
    by apply unsqueeze2_grid.
Qed.

End Totality.

Lemma iterates_gridded (self : BeamSearch) (step : StepFunctionType)
    (batch_size num_classes : nat) (forced : list (list Score)) (n : nat)
    (s0 s : LoopState) (p0 : list (list Z)) (w0 w : World (Cell:=Cell) (Env:=Env)) :
  iterates add gtb self step batch_size num_classes forced n s0 w0 s w ->
  shaped (Z.to_nat (beam_size self)) s0 ->
  predictions s0 = [p0] -> backpointers s0 = [] ->
  (n = 0%nat /\ s = s0) \/ gridded batch_size (Z.to_nat (beam_size self)) s.
Proof.
  intros Hit Hs0 Hp0 Hb0.
  induction Hit as [s0 w0|n s0 w0 s1 w1 lp s2 w2 Hit IH Hlp Hne Hbody]; [by left|].
  right. specialize (IH Hs0 Hp0 Hb0).
  pose proof (iterates_shaped _ _ _ _ _ _ _ _ _ _ Hit Hs0) as Hs1.
  destruct (last_predictions_shape _ _ _ _ Hs1 Hlp Hne) as (_ & Hlastlen).
  assert (gridded batch_size (Z.to_nat (beam_size self)) s1) as (Hg1 & Hg2 & Hg3).
  { destruct IH as [[_ ->]|IH]; [|done].
    destruct Hs0 as (Hp & _ & _ & _ & p & Hlast & Hplen).
    rewrite Hp0 in Hlast, Hp. simpl in Hlast. injection Hlast as <-.
    unfold gridded. rewrite Hp0, Hb0. split; [|done].
    constructor; [|done]. split; [lia | by inversion Hp]. }
  apply loop_body_ok in Hbody as (loc & Hloc & -> & _).
  destruct (expand_beam_shape _ _ _ _ _ _ _ _ Hloc)
    as (Hbeam & _ & _ & _ & HCn & HBn & _ & _ & HC & HB).
  unfold gridded; simpl. split; [|split].
  - apply Forall_app. split; [done|]. by repeat constructor.
  - apply Forall_app. split; [done|]. by repeat constructor.
  - apply Forall_app. split; [done|]. constructor; [|done].
    apply Forall_lookup_2. intros b row Hrow.
    apply Forall_lookup_2. intros k bp Hbp.
    destruct (expand_beam_rank _ _ _ _ _ _ _ _ b k bp Hloc) as (_ & _ & _ & _ & Hr).
    { apply entry_Some. eauto. }
    lia.
Qed.

(** ** Early stop *)

(** X1.  After [t >= 1] iterations, when the bound is reached or every last token
    is [end_index], [search] returns without another call of [step]: it has
    made [t + 1] scoring calls and its sequences have [t + 1] tokens. *)
Lemma search_returns_after (sp : list Z) (r0 : nat) (step : StepFunctionType)
    (fs : option StepFunctionType) (w w1 w2 : World (Cell:=Cell) (Env:=Env))
    (pr : Prologue) (t : nat) (s : LoopState) :
  search_init zero neg_inf gtb sp r0 step fs w = (w1, Ok pr) ->
  iterates add gtb (self_fields w) step (pr_batch_size pr) (pr_num_classes pr)
    (pr_forced pr) t (pr_loop_state pr) w1 s w2 ->
  (1 <= t <= Z.to_nat (max_steps (self_fields w) - 1))%nat ->
  (t = Z.to_nat (max_steps (self_fields w) - 1) \/
   exists lp, last_predictions_of (self_fields w) (pr_batch_size pr) s = Ok lp /\
              all_ended (self_fields w) lp = true) ->
  exists out,
    search add zero neg_inf gtb sp r0 step fs w
      = (w2, Ok (out, last_log_probabilities s)) /\
    length (calls w2) = (length (calls w) + 1 + t)%nat /\
    grid (pr_batch_size pr) (Z.to_nat (beam_size (self_fields w))) out /\
    forall b k seq, entry out b k = Some seq -> length seq = S t.
Proof.
  intros Hinit Hit Ht Hstop.
  destruct (search_init_shaped _ _ _ _ _ _ _ Hinit) as (_ & _ & Hs0).
  destruct (search_init_ok _ _ _ _ _ _ _ Hinit)
    as (_ & Hcalls1 & _ & _ & _ & _ & _ & tp & _ & Hst).
  pose proof (iterates_shaped _ _ _ _ _ _ _ _ _ _ Hit Hs0) as Hs.
  destruct (iterates_backpointers _ _ _ _ _ _ _ _ _ _ Hit)
    as (Hblen & Hplen & cs & Hcalls & Hcs & _).
  rewrite Hst in Hblen, Hplen. simpl in Hblen, Hplen.
  destruct (iterates_gridded _ _ _ _ _ _ _ _ tp.2 _ _ Hit Hs0)
    as [[Hz _]|(Hg1 & Hg2 & Hg3)]; [by rewrite Hst | by rewrite Hst | lia |].
  destruct (reconstruct_total (pr_batch_size pr) (Z.to_nat (beam_size (self_fields w)))
              (predictions s) (backpointers s) Hg1 Hg2 Hg3) as (out & Hout & Hgrid).
  { lia. } { intros Hnil. rewrite Hnil in Hblen. simpl in Hblen. lia. }
  exists out.
  assert (loop add gtb (self_fields w) step (pr_batch_size pr) (pr_num_classes pr)
            (pr_forced pr) (Z.to_nat (max_steps (self_fields w) - 1))
            (pr_loop_state pr) w1 = (w2, Ok s)) as Hloop.
  { replace (Z.to_nat (max_steps (self_fields w) - 1))
      with (t + (Z.to_nat (max_steps (self_fields w) - 1) - t))%nat by lia.
    eapply iterates_loop; [exact Hit|].
    destruct Hstop as [->|(lp & Hlp & Hall)].
    - by rewrite Nat.sub_diag.
    - by eapply loop_stops_at_once. }
  split; [|split; [|split]].
  - unfold search, search_loop. rewrite Hinit. cbn [fst snd]. rewrite Hloop.
    cbn [fst snd]. by rewrite Hout.
  - rewrite Hcalls, Hcalls1, !length_app. simpl. lia.
  - done.
  - intros b k seq Hseq.
    destruct (reconstruct_tokens _ _ _ _ _ _ Hout ltac:(lia) Hseq) as (Hlen & _). lia.
Qed.

(** * Further properties of the code *)

(** ** What [topk] selects *)

Lemma enumerate_indices_NoDup (row : list Score) : NoDup (enumerate row).*2.
Proof.
  apply NoDup_alt. intros i j n Hi Hj. unfold enumerate in *.
  rewrite list_lookup_fmap, list_lookup_imap in Hi, Hj.
  destruct (row !! i); [|discriminate]. destruct (row !! j); [|discriminate].
  simpl in *. congruence.
Qed.

(** No index is selected twice. *)
Lemma topk_row_NoDup (k : Z) (row vals : list Score) (idxs : list Z) :
  topk_row gtb k row = Ok (vals, idxs) -> NoDup idxs.
Proof.
  unfold topk_row. destruct (_ || _); [discriminate|]. intros [= <- <-].
  set (sorted := sort_desc gtb (tie k row) (enumerate row)).
  replace ((fun p : Score * nat => Z.of_nat p.2) <$> take (Z.to_nat k) sorted)
    with (Z.of_nat <$> (take (Z.to_nat k) sorted).*2)
    by (rewrite <- list_fmap_compose; done).
  apply (NoDup_fmap_2 Z.of_nat).
  rewrite fmap_take. apply (sublist_NoDup _ (sorted.*2)); [|apply sublist_take].
  unfold sorted. rewrite sort_desc_perm. apply enumerate_indices_NoDup.
Qed.

Lemma topk_NoDup (k : Z) (ncols : nat) (t V : list (list Score))
    (I : list (list Z)) :
  topk gtb k ncols t = Ok (V, I) -> Forall NoDup I.
Proof.
  intros Htp. apply Forall_lookup_2. intros b row Hrow.
  destruct (topk_spec _ _ _ _ _ Htp) as (_ & _ & HI & Hrows).
  destruct (Hrows b) as (srow & vals & idxs & _ & _ & Hidxs & Htk).
  { apply lookup_lt_Some in Hrow. lia. }
  rewrite Hrow in Hidxs. injection Hidxs as <-.
  by eapply topk_row_NoDup.
Qed.

Section Order.

(** The order on scores: [gtb] is asymmetric, and "not greater" is
    transitive (a strict weak order, as [>] on floats without NaN). *)
Hypothesis gtb_asym : forall x y, gtb x y = true -> gtb y x = false.
Hypothesis gtb_negtrans :
  forall x y z, gtb x y = false -> gtb y z = false -> gtb x z = false.

(** [y] does not come before [x] in a descending list. *)
Let not_less (x y : Score * nat) : Prop := gtb y.1 x.1 = false.

Lemma insert_desc_sorted (before : nat -> nat -> bool) (x : Score * nat)
    (l : list (Score * nat)) :
  StronglySorted not_less l ->
  StronglySorted not_less (insert_desc gtb before x l).
Proof.
  induction l as [|y l IH]; intros Hl; simpl.
  - repeat constructor.
  - apply StronglySorted_inv in Hl as [Hl Hy].
    destruct (gtb y.1 x.1 || (negb (gtb x.1 y.1) && before y.2 x.2)) eqn:Hyx.
    + constructor; [by apply IH|].
      rewrite insert_desc_perm. constructor; [|done].
      unfold not_less. apply orb_true_iff in Hyx as [Hgt|Heq].
      * by apply gtb_asym.
      * apply andb_true_iff in Heq as [Heq _]. by apply negb_true_iff.
    + apply orb_false_iff in Hyx as [Hgt _].
      constructor; [by constructor|].
      constructor; [done|].
      eapply Forall_impl; [exact Hy|]. intros z Hz. unfold not_less in *.
      by eapply gtb_negtrans.
Qed.

Lemma sort_desc_sorted (before : nat -> nat -> bool) (l : list (Score * nat)) :
  StronglySorted not_less (sort_desc gtb before l).
Proof.
  induction l as [|x l IH]; simpl; [constructor | by apply insert_desc_sorted].
Qed.

Lemma sorted_lookup (l : list (Score * nat)) (i j : nat) (x y : Score * nat) :
  StronglySorted not_less l -> (i < j)%nat ->
  l !! i = Some x -> l !! j = Some y -> gtb y.1 x.1 = false.
Proof.
  intros Hl. revert i j. induction Hl as [|z l Hl IH Hz]; intros i j Hij Hx Hy.
  - by rewrite lookup_nil in Hx.
  - destruct j as [|j]; [lia|]. simpl in Hy. destruct i as [|i]; simpl in Hx.
    + injection Hx as ->. eapply Forall_lookup_1 in Hz; [|exact Hy]. exact Hz.
    + eapply IH; [|exact Hx | exact Hy]. lia.
Qed.

(** A row's [topk]: the values come in descending order, no index is
    selected twice, and an entry that is not selected is not greater than
    any selected value. *)
Lemma topk_row_order (k : Z) (row vals : list Score) (idxs : list Z) :
  topk_row gtb k row = Ok (vals, idxs) ->
  (forall i j x y, (i < j)%nat -> vals !! i = Some x -> vals !! j = Some y ->
     gtb y x = false) /\
  NoDup idxs /\
  (forall n u v, row !! n = Some u -> Z.of_nat n ∉ idxs -> v ∈ vals ->
     gtb u v = false).
Proof.
  intros Htk. pose proof (topk_row_NoDup _ _ _ _ Htk) as Hnodup. revert Htk Hnodup.
  unfold topk_row. destruct (_ || _); [discriminate|]. intros [= <- <-] Hnodup.
  set (sorted := sort_desc gtb (tie k row) (enumerate row)) in *.
  pose proof (sort_desc_sorted (tie k row) (enumerate row)) as Hsorted. fold sorted in Hsorted.
  split; [|split].
  - intros i j x y Hij Hx Hy.
    apply list_lookup_fmap_Some_1 in Hx as (px & -> & Hpx).
    apply list_lookup_fmap_Some_1 in Hy as (py & -> & Hpy).
    apply lookup_take_Some in Hpx as [Hpx _]. apply lookup_take_Some in Hpy as [Hpy _].
    by eapply sorted_lookup.
  - exact Hnodup.
  - intros n u v Hu Hn Hv.
    assert ((u, n) ∈ sorted) as Hin.
    { unfold sorted. rewrite sort_desc_perm. by apply enumerate_elem. }
    apply list_elem_of_lookup in Hin as [p Hp].
    apply list_elem_of_lookup in Hv as [q Hq].
    apply list_lookup_fmap_Some_1 in Hq as (pv & -> & Hq).
    apply lookup_take_Some in Hq as [Hq Hqk].
    destruct (decide (p < Z.to_nat k)%nat) as [Hpk|Hpk].
    + exfalso. apply Hn. apply list_elem_of_lookup. exists p.
      rewrite list_lookup_fmap, lookup_take_lt, Hp by done. done.
    + apply (sorted_lookup sorted q p pv (u, n)); [done | lia | done | done].
Qed.

(** An entry greater than every other entry of the row is selected first. *)
Lemma topk_row_head (k : Z) (row vals : list Score) (idxs : list Z) (n : nat)
    (u : Score) :
  topk_row gtb k row = Ok (vals, idxs) -> 0 < k ->
  row !! n = Some u ->
  (forall m x, row !! m = Some x -> m <> n -> gtb u x = true) ->
  vals !! 0%nat = Some u /\ idxs !! 0%nat = Some (Z.of_nat n).
Proof.
  intros Htk Hk Hu Hmax.
  destruct (topk_row_spec _ _ _ _ Htk) as (_ & _ & _ & Hsel).
  destruct (Hsel 0%nat) as (v & m & Hv & Hm & Hrow); [lia|].
  destruct (decide (m = n)) as [->|Hne].
  { rewrite Hu in Hrow. injection Hrow as <-. done. }
  exfalso. revert Htk. unfold topk_row. destruct (_ || _); [discriminate|].
  intros [= <- <-].
  set (sorted := sort_desc gtb (tie k row) (enumerate row)) in *.
  apply list_lookup_fmap_Some_1 in Hv as ([v' m'] & Hv' & Hp).
  rewrite list_lookup_fmap, Hp in Hm. simpl in Hv', Hm.
  injection Hm as Hm. apply Nat2Z.inj in Hm. subst v' m'.
  apply lookup_take_Some in Hp as [Hp _].
  assert ((u, n) ∈ sorted) as Hin.
  { unfold sorted. rewrite sort_desc_perm. by apply enumerate_elem. }
  apply list_elem_of_lookup in Hin as [q Hq].
  destruct q as [|q]; [congruence|].
  pose proof (sorted_lookup sorted 0 (S q) (v, m) (u, n)
                (sort_desc_sorted (tie k row) (enumerate row)) ltac:(lia) Hp Hq) as Hle.
  simpl in Hle. rewrite (Hmax m v Hrow Hne) in Hle. discriminate.
Qed.

Lemma expand_beam_topk (self : BeamSearch) (batch_size num_classes : nat)
    (forced : list (list Score)) (lp : list Z) (last : list (list Score))
    (clp : ScoreTensor) (loc : StepLocals) :
  expand_beam add gtb self batch_size num_classes forced lp last clp = Ok loc ->
  where_end (_end_index self) (batch_size * Z.to_nat (beam_size self)) num_classes
    lp forced clp = Ok (cleaned_log_probabilities loc) /\
  topk gtb (per_node_beam_size self) num_classes (cleaned_log_probabilities loc)
    = Ok (top_log_probabilities loc, predicted_classes loc) /\
  summed_top_log_probabilities loc
    = add_expanded_last add (top_log_probabilities loc) last /\
  topk gtb (beam_size self)
    (Z.to_nat (beam_size self) * Z.to_nat (per_node_beam_size self))
    (chunks batch_size
       (Z.to_nat (beam_size self) * Z.to_nat (per_node_beam_size self))
       (concat (summed_top_log_probabilities loc)))
    = Ok (restricted_beam_log_probs loc, restricted_beam_indices loc).
Proof.
  unfold expand_beam. intros H.
  apply bind_ok in H as (cleaned & Hc & H).
  apply bind_ok in H as ([T P] & Htp & H). simpl in H.
  apply bind_ok in H as (rs & Hrs & H).
  apply bind_ok in H as (rp & Hrp & H).
  apply bind_ok in H as ([RV RI] & Hr & H). simpl in H.
  apply bind_ok in H as (classes & Hcl & H).
  injection H as <-. simpl.
  apply reshape2_spec in Hrs as (_ & ->). done.
Qed.

Lemma topk_descending (k : Z) (ncols : nat) (t V : list (list Score))
    (I : list (list Z)) (b i j : nat) (vals : list Score) (x y : Score) :
  topk gtb k ncols t = Ok (V, I) -> V !! b = Some vals -> (i < j)%nat ->
  vals !! i = Some x -> vals !! j = Some y -> gtb y x = false.
Proof.
  intros Htk Hvals Hij Hx Hy.
  destruct (topk_spec _ _ _ _ _ Htk) as (_ & HV & _ & Hrows).
  destruct (Hrows b) as (row & vals' & idxs & _ & Hv' & _ & Hrow).
  { apply lookup_lt_Some in Hvals. lia. }
  rewrite Hvals in Hv'. injection Hv' as <-.
  destruct (topk_row_order _ _ _ _ Hrow) as (Hdesc & _).
  by eapply Hdesc.
Qed.

(** X2.  The log-probabilities [search] returns are in descending order within
    each batch element: the best sequence comes first. *)
Theorem returned_log_probabilities_descending (sp : list Z) (r0 : nat)
    (step : StepFunctionType) (fs : option StepFunctionType)
    (w w' : World (Cell:=Cell) (Env:=Env))
    (out : list (list (list Z))) (lps : list (list Score))
    (b i j : nat) (row : list Score) (x y : Score) :
  search add zero neg_inf gtb sp r0 step fs w = (w', Ok (out, lps)) ->
  lps !! b = Some row -> (i < j)%nat ->
  row !! i = Some x -> row !! j = Some y ->
  gtb y x = false.
Proof.
  intros Hs Hrow Hij Hx Hy.
  apply search_ok in Hs as (w1 & pr & m & s & Hinit & _ & Hit & _ & _ & _ & ->).
  inversion Hit as [|n s0 w0 s1 w2 lp s2 w3 _ _ _ Hbody]; subst.
  - destruct (search_init_ok _ _ _ _ _ _ _ Hinit)
      as (_ & _ & _ & _ & _ & _ & _ & [V I] & Htp & Hst).
    rewrite Hst in Hrow. simpl in Hrow. by eapply topk_descending.
  - apply loop_body_ok in Hbody as (loc & Hloc & -> & _). simpl in Hrow.
    destruct (expand_beam_topk _ _ _ _ _ _ _ _ Hloc) as (_ & _ & _ & Htk).
    by eapply topk_descending.
Qed.

(** X3.  The pruning keeps the best candidates: in a loop iteration, a candidate
    of the flattened [beam_size * per_node_beam_size] grid that does not
    survive has a summed log-probability that is not greater than any
    survivor's. *)
Theorem pruning_keeps_the_best (self : BeamSearch) (step : StepFunctionType)
    (batch_size num_classes : nat) (forced : list (list Score))
    (s s' : LoopState) (lp : list Z) (w w' : World (Cell:=Cell) (Env:=Env)) :
  loop_body add gtb self step batch_size num_classes forced s lp w = (w', Ok s') ->
  exists loc,
    expand_beam add gtb self batch_size num_classes forced lp
      (last_log_probabilities s)
      (sr_scores (step lp (state s) (heap w) (env w))) = Ok loc /\
    last_log_probabilities s' = restricted_beam_log_probs loc /\
    forall b candidates ranks survivors n u v,
      chunks batch_size
        (Z.to_nat (beam_size self) * Z.to_nat (per_node_beam_size self))
        (concat (summed_top_log_probabilities loc)) !! b = Some candidates ->
      restricted_beam_indices loc !! b = Some ranks ->
      restricted_beam_log_probs loc !! b = Some survivors ->
      candidates !! n = Some u -> Z.of_nat n ∉ ranks -> v ∈ survivors ->
      gtb u v = false.
Proof.
  intros Hbody. apply loop_body_ok in Hbody as (loc & Hloc & -> & _).
  exists loc. split; [done|]. split; [done|].
  intros b candidates ranks survivors n u v Hc Hr Hs Hu Hn Hv.
  destruct (expand_beam_topk _ _ _ _ _ _ _ _ Hloc) as (_ & _ & _ & Htk).
  destruct (topk_spec _ _ _ _ _ Htk) as (_ & _ & _ & Hrows).
  destruct (Hrows b) as (row & vals & idxs & Hrow & Hvals & Hidxs & Hrowtk).
  { apply lookup_lt_Some in Hc. lia. }
  rewrite Hc in Hrow. injection Hrow as <-.
  rewrite Hr in Hidxs. injection Hidxs as <-.
  rewrite Hs in Hvals. injection Hvals as <-.
  destruct (topk_row_order _ _ _ _ Hrowtk) as (_ & _ & Hbest).
  by eapply Hbest.
Qed.

(** X4.  The forced-end scores do what they are for: when [0] is greater than
    [-inf], a hypothesis whose last token is [end_index] proposes the end
    token as its first candidate, with the score [0]. *)
Theorem ended_hypothesis_proposes_end (self : BeamSearch)
    (batch_size num_classes : nat) (forced : list (list Score)) (lp : list Z)
    (last : list (list Score)) (clp : ScoreTensor) (loc : StepLocals) (r : nat) :
  gtb zero neg_inf = true ->
  log_probs_after_end zero neg_inf (batch_size * Z.to_nat (beam_size self))
    num_classes (_end_index self) = Ok forced ->
  expand_beam add gtb self batch_size num_classes forced lp last clp = Ok loc ->
  lp !! r = Some (_end_index self) ->
  (r < batch_size * Z.to_nat (beam_size self))%nat ->
  0 <= _end_index self -> 0 < per_node_beam_size self ->
  entry (top_log_probabilities loc) r 0 = Some zero /\
  entry (predicted_classes loc) r 0 = Some (_end_index self).
Proof.
  intros Hgt Hf Hloc Hlp Hr Hend Hper.
  apply log_probs_after_end_spec in Hf as (j & Hj & ->).
  destruct (normalize_index_nonneg _ _ _ Hend Hj) as [-> Hjlt].
  destruct (expand_beam_topk _ _ _ _ _ _ _ _ Hloc) as (Hc & Htp & _).
  apply where_end_spec in Hc as (Hcleaned & Hclp & _).
  set (frow := <[Z.to_nat (_end_index self) := zero]> (replicate num_classes neg_inf)) in *.
  assert (cleaned_log_probabilities loc !! r = Some frow) as Hcr.
  { rewrite Hcleaned. unfold select_rows.
    destruct (lookup_lt_is_Some_2 (rows clp) r) as [srow Hsrow]; [lia|].
    rewrite lookup_zip_with, lookup_zip_with, Hlp. simpl.
    rewrite lookup_replicate_2 by done. simpl. rewrite Hsrow. simpl.
    by rewrite Z.eqb_refl. }
  destruct (topk_spec _ _ _ _ _ Htp) as (_ & _ & _ & Hrows).
  destruct (Hrows r) as (row & vals & idxs & Hrow & Hvals & Hidxs & Htk).
  { apply lookup_lt_Some in Hcr. lia. }
  rewrite Hcr in Hrow. injection Hrow as <-.
  assert (zero <> neg_inf) as Hne.
  { intros Heq. rewrite Heq in Hgt. pose proof (gtb_asym _ _ Hgt). congruence. }
  destruct (topk_row_head _ _ _ _ (Z.to_nat (_end_index self)) zero Htk Hper)
    as (Hv0 & Hi0).
  - unfold frow. apply list_lookup_insert_eq. rewrite length_replicate. lia.
  - intros m x Hx Hm. unfold frow in Hx.
    rewrite list_lookup_insert_ne in Hx by done.
    apply lookup_replicate in Hx as [-> _]. done.
  - unfold entry. rewrite Hvals, Hidxs. simpl. rewrite Hv0, Hi0.
    split; [done|]. f_equal. lia.
Qed.

End Order.

(** ** Inputs [search] refuses *)

Lemma topk_total (k : Z) (ncols : nat) (t : list (list Score)) :
  0 <= k <= Z.of_nat ncols -> Forall (fun row => length row = ncols) t ->
  exists tp, topk gtb k ncols t = Ok tp.
Proof.
  intros Hk Ht. unfold topk.
  destruct (Z.ltb_spec k 0); [lia|].
  destruct (Z.ltb_spec (Z.of_nat ncols) k); [lia|]. simpl.
  destruct (mapM_total (topk_row gtb k) t) as [rs Hrs].
  { eapply Forall_impl; [exact Ht|]. intros row Hrow. simpl in Hrow.
    unfold topk_row. destruct (Z.ltb_spec k 0); [lia|].
    destruct (Z.ltb_spec (Z.of_nat (length row)) k); [lia|]. simpl. eauto. }
  rewrite Hrs. simpl. eauto.
Qed.

(** X5.  The check of [per_node_beam_size] does not cover [beam_size]: when the
    vocabulary is large enough for [per_node_beam_size] but smaller than
    [beam_size], the first [topk] raises [RuntimeError], after the one
    scoring call. *)
Theorem beam_wider_than_vocabulary (sp : list Z) (r0 : nat)
    (step : StepFunctionType) (fs : option StepFunctionType)
    (w : World (Cell:=Cell) (Env:=Env)) :
  let r := first_step_or fs step sp r0 (heap w) (env w) in
  per_node_beam_size (self_fields w) <= Z.of_nat (num_cols (sr_scores r)) ->
  Z.of_nat (num_cols (sr_scores r)) < beam_size (self_fields w) ->
  exists w1,
    search add zero neg_inf gtb sp r0 step fs w = (w1, Raise RuntimeError) /\
    calls w1 = calls w ++ [mkCall (first_callee fs) sp r0 (sr_scores r)].
Proof.
  intros r Hper Hbeam. unfold search, search_loop, search_init, call.
  cbn [fst snd]. fold r.
  destruct (Z.ltb_spec (Z.of_nat (num_cols (sr_scores r)))
              (per_node_beam_size (self_fields w))); [lia|].
  unfold topk. destruct (Z.ltb_spec (beam_size (self_fields w)) 0); [lia|].
  destruct (Z.ltb_spec (Z.of_nat (num_cols (sr_scores r))) (beam_size (self_fields w)));
    [|lia].
  cbn. eauto.
Qed.

(** X6.  An [end_index] that is a tensor index ([int64]) outside
    [[-num_classes, num_classes)] is refused when the forced-end scores are
    built: with scores that are a well-formed tensor and beam widths the
    vocabulary allows, [search] raises [IndexError] after the one scoring
    call. *)
Theorem end_index_out_of_range (sp : list Z) (r0 : nat)
    (step : StepFunctionType) (fs : option StepFunctionType)
    (w : World (Cell:=Cell) (Env:=Env)) :
  let r := first_step_or fs step sp r0 (heap w) (env w) in
  let num_classes := Z.of_nat (num_cols (sr_scores r)) in
  well_formed (sr_scores r) ->
  per_node_beam_size (self_fields w) <= num_classes ->
  0 <= beam_size (self_fields w) <= num_classes ->
  int64 (_end_index (self_fields w)) ->
  ~ (- num_classes <= _end_index (self_fields w) < num_classes) ->
  exists w1,
    search add zero neg_inf gtb sp r0 step fs w = (w1, Raise IndexError) /\
    calls w1 = calls w ++ [mkCall (first_callee fs) sp r0 (sr_scores r)].
Proof.
  intros r num_classes Hwf Hper Hbeam _ Hend. subst num_classes.
  unfold search, search_loop, search_init, call. cbn [fst snd]. fold r.
  destruct (Z.ltb_spec (Z.of_nat (num_cols (sr_scores r)))
              (per_node_beam_size (self_fields w))); [lia|].
  destruct (topk_total (beam_size (self_fields w)) (num_cols (sr_scores r))
              (rows (sr_scores r)) Hbeam Hwf) as [tp ->].
  unfold log_probs_after_end, normalize_index.
  destruct (Z.leb_spec 0 (_end_index (self_fields w)));
    destruct (Z.ltb_spec (_end_index (self_fields w)) (Z.of_nat (num_cols (sr_scores r))));
    destruct (Z.leb_spec (- Z.of_nat (num_cols (sr_scores r))) (_end_index (self_fields w)));
    destruct (Z.ltb_spec (_end_index (self_fields w)) 0); try lia; cbn; eauto.
Qed.

(** ** The first step *)

Lemma iterates_first (self : BeamSearch) (step : StepFunctionType)
    (batch_size num_classes : nat) (forced : list (list Score)) (n : nat)
    (s s' : LoopState) (w w' : World (Cell:=Cell) (Env:=Env)) :
  iterates add gtb self step batch_size num_classes forced n s w s' w' ->
  n <> 0%nat ->
  exists lp, last_predictions_of self batch_size s = Ok lp /\
             all_ended self lp = false.
Proof.
  induction 1 as [|n s w s1 w1 lp s2 w2 Hit IH Hlp Hne _]; intros Hn; [done|].
  destruct n as [|n]; [|by apply IH].
  inversion Hit; subst. eauto.
Qed.

(** X7.  [search] raises on an empty batch, whatever the scoring functions do:
    when nothing fails before, the early-stop test holds vacuously before
    the first iteration, and no backpointer is recorded. *)
Theorem empty_batch_raises (r0 : nat) (step : StepFunctionType)
    (fs : option StepFunctionType) (w : World (Cell:=Cell) (Env:=Env)) :
  exists e, (search add zero neg_inf gtb [] r0 step fs w).2 = Raise e.
Proof.
  destruct (search add zero neg_inf gtb [] r0 step fs w) as [w' [[out lps]|e]] eqn:Hs;
    [exfalso | by exists e].
  apply search_ok in Hs as (w1 & pr & m & s & Hinit & _ & Hit & _ & _ & Hrec & _).
  destruct (search_init_ok _ _ _ _ _ _ _ Hinit)
    as (_ & _ & Hb & _ & _ & _ & _ & tp & _ & Hst).
  destruct (iterates_backpointers _ _ _ _ _ _ _ _ _ _ Hit) as (Hbp & _).
  rewrite Hst in Hbp. simpl in Hbp.
  destruct (iterates_first _ _ _ _ _ _ _ _ _ _ Hit) as (lp & Hlp & Hne).
  { intros ->. unfold reconstruct in Hrec.
    destruct (backpointers s); [|discriminate].
    destruct (last (predictions s)); discriminate. }
  unfold last_predictions_of, reshape1 in Hlp. rewrite Hst, Hb in Hlp. simpl in Hlp.
  destruct (Nat.eqb_spec (length (concat tp.2)) 0) as [Hlen|]; [|discriminate].
  injection Hlp as <-. apply nil_length_inv in Hlen. rewrite Hlen in Hne. discriminate.
Qed.

(** X8.  The tokens selected at the first step are pairwise distinct within a
    batch element.  So with a beam of two or more and a non-empty batch, the
    early-stop test cannot hold before the first iteration. *)
Theorem first_tokens_distinct (sp : list Z) (r0 : nat) (step : StepFunctionType)
    (fs : option StepFunctionType) (w w1 : World (Cell:=Cell) (Env:=Env))
    (pr : Prologue) :
  search_init zero neg_inf gtb sp r0 step fs w = (w1, Ok pr) ->
  exists first,
    predictions (pr_loop_state pr) = [first] /\
    (forall b row, first !! b = Some row -> NoDup row) /\
    (2 <= beam_size (self_fields w) -> sp <> [] ->
     forall lp,
       last_predictions_of (self_fields w) (pr_batch_size pr) (pr_loop_state pr)
         = Ok lp ->
       all_ended (self_fields w) lp = false).
Proof.
  intros Hinit.
  destruct (search_init_ok _ _ _ _ _ _ _ Hinit)
    as (_ & _ & Hb & _ & _ & _ & _ & [V I] & Htp & Hst).
  exists I. rewrite Hst. simpl. split; [done|].
  assert (forall b row, I !! b = Some row -> NoDup row) as Hnodup.
  { intros b row Hrow. pose proof (topk_NoDup _ _ _ _ _ Htp) as Hnd.
    eapply Forall_lookup_1 in Hnd; eauto. }
  split; [done|].
  intros Hbeam Hsp lp Hlp.
  unfold last_predictions_of, reshape1 in Hlp. simpl in Hlp.
  destruct (Nat.eqb_spec (length (concat I))
              (pr_batch_size pr * Z.to_nat (beam_size (self_fields w)))) as [Hlen|];
    [|discriminate].
  injection Hlp as <-.
  destruct (topk_row_lengths _ _ _ _ _ Htp) as (_ & HIrows).
  destruct I as [|row I'].
  { exfalso. simpl in Hlen. rewrite Hb in Hlen. destruct sp; [done|]. simpl in Hlen. lia. }
  apply not_true_is_false. intros Hall.
  unfold all_ended in Hall. rewrite forallb_forall in Hall.
  apply Forall_cons in HIrows as [Hrow _].
  destruct row as [|x [|y row]]; simpl in Hrow; [lia | lia |].
  pose proof (Hnodup 0%nat _ eq_refl) as Hnd.
  apply NoDup_cons in Hnd as [Hx _].
  apply Hx. apply elem_of_cons. left.
  assert (x = _end_index (self_fields w)) as ->.
  { apply Z.eqb_eq, Hall. simpl. by left. }
  symmetry. apply Z.eqb_eq, Hall. simpl. right. by left.
Qed.

(** ** What [search] returns, and the calls it makes *)

(** X9.  The shape of the result.  [predictions] has shape
    [(batch_size, beam_size, L)] and [log_probabilities] has shape
    [(batch_size, beam_size)], where [L], the number of scoring calls made,
    is at least two and at most [max_steps]. *)
Theorem returned_shape (sp : list Z) (r0 : nat) (step : StepFunctionType)
    (fs : option StepFunctionType) (w w' : World (Cell:=Cell) (Env:=Env))
    (out : list (list (list Z))) (lps : list (list Score)) :
  search add zero neg_inf gtb sp r0 step fs w = (w', Ok (out, lps)) ->
  exists L : nat,
    2 <= Z.of_nat L <= max_steps (self_fields w) /\
    length (calls w') = (length (calls w) + L)%nat /\
    grid (length sp) (Z.to_nat (beam_size (self_fields w))) out /\
    grid (length sp) (Z.to_nat (beam_size (self_fields w))) lps /\
    forall b k seq, entry out b k = Some seq -> length seq = L.
Proof.
  intros Hs.
  apply search_ok in Hs as (w1 & pr & m & s & Hinit & Hm & Hit & _ & _ & Hrec & ->).
  destruct (search_init_shaped _ _ _ _ _ _ _ Hinit) as (_ & _ & Hs0).
  destruct (search_init_ok _ _ _ _ _ _ _ Hinit)
    as (_ & Hcalls1 & Hb & _ & _ & _ & _ & tp & _ & Hst).
  destruct (iterates_backpointers _ _ _ _ _ _ _ _ _ _ Hit)
    as (Hblen & Hplen & cs & Hcalls & Hcs & _).
  rewrite Hst in Hblen, Hplen. simpl in Hblen, Hplen.
  assert (m <> 0)%nat as Hm0.
  { intros ->. unfold reconstruct in Hrec.
    destruct (backpointers s); [|discriminate].
    destruct (last (predictions s)); discriminate. }
  destruct (iterates_gridded _ _ _ _ _ _ _ _ tp.2 _ _ Hit Hs0)
    as [[Hz _]|(Hg1 & Hg2 & Hg3)]; [by rewrite Hst | by rewrite Hst | lia |].
  destruct (reconstruct_total (pr_batch_size pr) (Z.to_nat (beam_size (self_fields w)))
              (predictions s) (backpointers s) Hg1 Hg2 Hg3) as (out' & Hout & Hgrid).
  { lia. } { intros Hnil. rewrite Hnil in Hblen. simpl in Hblen. lia. }
  rewrite Hrec in Hout. injection Hout as <-. rewrite Hb in Hgrid.
  exists (S m). split; [lia|]. split.
  { rewrite Hcalls, Hcalls1, !length_app. simpl. lia. }
  split; [done|]. split.
  - inversion Hit as [|n s0' w0' s1 w2 lp s2 w3 _ _ _ Hbody]; subst; [done|].
    apply loop_body_ok in Hbody as (loc & Hloc & -> & _). simpl.
    destruct (expand_beam_shape _ _ _ _ _ _ _ _ Hloc)
      as (_ & _ & Hlen & _ & _ & _ & Hrows & _).
    split; [by rewrite <- Hb|done].
  - intros b k seq Hseq.
    destruct (reconstruct_tokens _ _ _ _ _ _ Hrec ltac:(lia) Hseq) as (Hlen & _). lia.
Qed.

Lemma loop_body_calls (self : BeamSearch) (step : StepFunctionType)
    (batch_size num_classes : nat) (forced : list (list Score))
    (s : LoopState) (lp : list Z) (w : World (Cell:=Cell) (Env:=Env)) :
  calls (loop_body add gtb self step batch_size num_classes forced s lp w).1
  = calls w ++ [mkCall StepArg lp (state s)
                  (sr_scores (step lp (state s) (heap w) (env w)))].
Proof.
  unfold loop_body, call. cbn [fst snd].
  destruct (expand_beam _ _ _ _ _ _ _ _ _) as [loc|e]; cbn [fst snd]; [|done].
  match goal with |- context [update_state ?f ?st ?w0] =>
    destruct (update_state_frame f st w0) as (_ & Hcalls & _);
    destruct (update_state f st w0) as [w2 [u|e]] end; cbn [fst snd] in *;
    exact Hcalls.
Qed.

Lemma loop_calls (self : BeamSearch) (step : StepFunctionType)
    (batch_size num_classes : nat) (forced : list (list Score)) (n : nat)
    (s : LoopState) (w : World (Cell:=Cell) (Env:=Env)) :
  exists cs,
    calls (loop add gtb self step batch_size num_classes forced n s w).1
    = calls w ++ cs /\
    (length cs <= n)%nat /\ Forall (fun c => callee c = StepArg) cs.
Proof.
  revert s w. induction n as [|n IH]; intros s w; simpl.
  { exists []. by rewrite app_nil_r. }
  destruct (last_predictions_of self batch_size s) as [lp|e].
  2:{ exists []. rewrite app_nil_r. simpl. split; [done|]. split; [lia|done]. }
  destruct (all_ended self lp).
  { exists []. rewrite app_nil_r. simpl. split; [done|]. split; [lia|done]. }
  pose proof (loop_body_calls self step batch_size num_classes forced s lp w) as Hb.
  destruct (loop_body _ _ _ _ _ _ _ _ _ w) as [w1 [s1|e]]; cbn [fst snd] in *.
  - destruct (IH s1 w1) as (cs & Hcs & Hlen & Hall).
    eexists (_ :: cs). rewrite Hcs, Hb, <- app_assoc. simpl.
    split; [done|]. split; [lia|]. by constructor.
  - eexists [_]. split; [exact Hb|]. simpl. split; [lia|]. by constructor.
Qed.

Lemma search_init_calls (sp : list Z) (r0 : nat) (step : StepFunctionType)
    (fs : option StepFunctionType) (w : World (Cell:=Cell) (Env:=Env)) :
  calls (search_init zero neg_inf gtb sp r0 step fs w).1
  = calls w ++ [mkCall (first_callee fs) sp r0
                  (sr_scores (first_step_or fs step sp r0 (heap w) (env w)))].
Proof.
  unfold search_init, call. cbn [fst snd].
  destruct (_ <? _); cbn [fst snd]; [done|].
  destruct (topk _ _ _ _) as [tp|e]; [|done].
  destruct (log_probs_after_end _ _ _ _ _) as [forced|e]; [|done].
  match goal with |- context [update_state ?f ?st ?w0] =>
    destruct (update_state_frame f st w0) as (_ & Hcalls & _);
    destruct (update_state f st w0) as [w2 [u|e]] end; cbn [fst snd] in *;
    exact Hcalls.
Qed.

(** X10.  The cost of a search, whatever its outcome: one call of [first_step]
    (or of [step] in its place) on [start_predictions] and [start_state],
    then at most [max_steps - 1] calls of [step]. *)
Theorem scoring_calls_bounded (sp : list Z) (r0 : nat) (step : StepFunctionType)
    (fs : option StepFunctionType) (w : World (Cell:=Cell) (Env:=Env)) :
  exists c cs,
    calls (search add zero neg_inf gtb sp r0 step fs w).1 = calls w ++ c :: cs /\
    callee c = first_callee fs /\ call_tokens c = sp /\ call_state c = r0 /\
    Forall (fun c' => callee c' = StepArg) cs /\
    Z.of_nat (length cs) <= Z.max 0 (max_steps (self_fields w) - 1).
Proof.
  pose proof (search_init_calls sp r0 step fs w) as Hinit.
  unfold search, search_loop.
  destruct (search_init _ _ _ _ _ _ _ _) as [w1 [pr|e]]; cbn [fst snd] in *.
  - destruct (loop_calls (self_fields w) step (pr_batch_size pr) (pr_num_classes pr)
                (pr_forced pr) (Z.to_nat (max_steps (self_fields w) - 1))
                (pr_loop_state pr) w1) as (cs & Hcs & Hlen & Hall).
    eexists _, cs. split.
    { destruct (loop _ _ _ _ _ _ _ _ _ _) as [w2 [s|e]]; cbn [fst snd] in *;
        rewrite Hcs, Hinit, <- app_assoc; reflexivity. }
    simpl. repeat split; try done. lia.
  - eexists _, []. split; [exact Hinit|]. simpl. repeat split; try done. lia.
Qed.

Lemma iterates_call_tokens (self : BeamSearch) (step : StepFunctionType)
    (batch_size num_classes : nat) (forced : list (list Score)) (n : nat)
    (s0 s : LoopState) (w0 w : World (Cell:=Cell) (Env:=Env)) :
  iterates add gtb self step batch_size num_classes forced n s0 w0 s w ->
  length (predictions s0) = 1%nat ->
  exists cs,
    calls w = calls w0 ++ cs /\ length cs = n /\
    length (predictions s) = S n /\
    forall i c, cs !! i = Some c ->
      callee c = StepArg /\
      length (call_tokens c) = (batch_size * Z.to_nat (beam_size self))%nat /\
      exists p, predictions s !! i = Some p /\ call_tokens c = concat p.
Proof.
  intros Hit H0.
  induction Hit as [s0 w0|n s0 w0 s1 w1 lp s2 w2 Hit IH Hlp Hne Hbody].
  - exists []. rewrite app_nil_r. repeat split; done.
  - destruct (IH H0) as (cs & Hcalls & Hcs & Hplen & Hinv).
    apply loop_body_ok in Hbody as (loc & _ & -> & Hcalls2 & _). simpl.
    eexists (cs ++ [_]). split; [by rewrite Hcalls2, Hcalls, app_assoc|].
    rewrite !length_app. simpl. split; [lia|]. split; [lia|].
    intros i c Hc. apply lookup_app_Some in Hc as [Hc|[Hi Hc]].
    + destruct (Hinv i c Hc) as (? & ? & p & Hp & ?).
      repeat split; try done. exists p. split; [|done].
      by apply lookup_app_l_Some.
    + apply list_lookup_singleton_Some in Hc as [Hi0 <-]. simpl.
      unfold last_predictions_of in Hlp.
      destruct (last (predictions s1)) as [p|] eqn:Hlast; [|discriminate].
      unfold reshape1 in Hlp.
      destruct (Nat.eqb_spec (length (concat p))
                  (batch_size * Z.to_nat (beam_size self))) as [Hlen|]; [|discriminate].
      injection Hlp as <-. repeat split; try done.
      exists p. split; [|done].
      rewrite last_lookup in Hlast. rewrite lookup_app_l by lia.
      rewrite <- Hlast. f_equal. lia.
Qed.

(** X11.  The arguments of [step].  Every call of [step] in the loop receives
    [batch_size * beam_size] tokens: the call of iteration [i] receives the
    tokens selected at timestep [i], row after row. *)
Theorem step_receives_last_predictions (sp : list Z) (r0 : nat)
    (step : StepFunctionType) (fs : option StepFunctionType)
    (w w1 w2 : World (Cell:=Cell) (Env:=Env)) (pr : Prologue) (n : nat)
    (s : LoopState) :
  search_init zero neg_inf gtb sp r0 step fs w = (w1, Ok pr) ->
  iterates add gtb (self_fields w) step (pr_batch_size pr) (pr_num_classes pr)
    (pr_forced pr) n (pr_loop_state pr) w1 s w2 ->
  exists cs,
    calls w2 = calls w1 ++ cs /\ length cs = n /\
    forall i c, cs !! i = Some c ->
      callee c = StepArg /\
      length (call_tokens c)
        = (length sp * Z.to_nat (beam_size (self_fields w)))%nat /\
      exists p, predictions s !! i = Some p /\ call_tokens c = concat p.
Proof.
  intros Hinit Hit.
  destruct (search_init_ok _ _ _ _ _ _ _ Hinit)
    as (_ & _ & Hb & _ & _ & _ & _ & tp & _ & Hst).
  destruct (iterates_call_tokens _ _ _ _ _ _ _ _ _ _ Hit) as (cs & Hc & Hn & _ & Hinv).
  { by rewrite Hst. }
  exists cs. rewrite <- Hb. done.
Qed.

(** ** The state *)

Lemma update_items_ok (f : list Cell -> result (list Cell)) (d d' : StateType) (u : unit) :
  update_items f d = (d', Ok u) ->
  same_keys (fun t t' => f t = Ok t') d d'.
Proof.
  revert d'. induction d as [|[key t] d IH]; intros d'; simpl.
  - intros [= <-]. constructor.
  - destruct (f t) as [t'|e] eqn:Hf; [|discriminate].
    destruct (update_items f d) as [d1 [u1|e]] eqn:Hd; cbn [fst snd];
      [|discriminate].
    intros [= <-]. constructor; [done|]. apply IH. by destruct u1, u.
Qed.

Lemma update_state_ok (f : list Cell -> result (list Cell)) (st : nat)
    (w w' : World (Score:=Score) (Cell:=Cell) (Env:=Env)) (u : unit) :
  update_state f st w = (w', Ok u) ->
  exists d d', heap w !! st = Some d /\ heap w' !! st = Some d' /\
               same_keys (fun t t' => f t = Ok t') d d'.
Proof.
  unfold update_state. destruct (heap w !! st) as [d|] eqn:Hd; [|discriminate].
  destruct (update_items f d) as [d' r] eqn:Hu. cbn [fst snd].
  intros [= <- ->]. exists d, d'. split; [done|]. simpl.
  rewrite lookup_insert_eq. split; [done|]. by eapply update_items_ok.
Qed.

Lemma same_keys_impl (R R' : list Cell -> list Cell -> Prop) (d d' : StateType) :
  (forall t t', R t t' -> R' t t') -> same_keys R d d' -> same_keys R' d d'.
Proof.
  intros HR H. unfold same_keys in *. eapply Forall2_impl; [exact H|].
  intros kv kv' [? ?]. auto.
Qed.

Lemma bind_replicate_lookup {A : Type} (l : list A) (n b k : nat) :
  (k < n)%nat -> (l ≫= replicate n) !! (b * n + k)%nat = l !! b.
Proof.
  intros Hk. revert b. induction l as [|x l IH]; intros b.
  - by rewrite !lookup_nil.
  - rewrite bind_cons. destruct b as [|b]; simpl.
    + rewrite lookup_app_l by (rewrite length_replicate; lia).
      by apply lookup_replicate_2.
    + rewrite lookup_app_r by (rewrite length_replicate; lia).
      rewrite length_replicate.
      replace (n + b * n + k - n)%nat with (b * n + k)%nat by lia. apply IH.
Qed.

Lemma bind_replicate_length {A : Type} (l : list A) (n : nat) :
  length (l ≫= replicate n) = (length l * n)%nat.
Proof.
  induction l as [|x l IH]; [done|].
  rewrite bind_cons, length_app, length_replicate, IH. simpl. lia.
Qed.

Lemma expand_state_spec (batch_size beam : nat) (t t' : list Cell) :
  expand_state batch_size beam t = Ok t' -> length t = batch_size ->
  broadcast beam t t'.
Proof.
  unfold expand_state. intros H Hlen.
  destruct (Nat.eqb_spec (length t) batch_size); [|done].
  injection H as <-. split; [apply bind_replicate_length|].
  intros b k Hk. by apply bind_replicate_lookup.
Qed.

(** X12.  The prologue sets the same state for each element of the beam.  It
    rebinds the entries of the mapping the first scoring call returned: the
    keys and their order stay, and a tensor with one slice per batch element
    is replaced by one that holds each slice [beam_size] times in a row. *)
Theorem state_is_broadcast (sp : list Z) (r0 : nat) (step : StepFunctionType)
    (fs : option StepFunctionType) (w w1 : World (Cell:=Cell) (Env:=Env))
    (pr : Prologue) :
  search_init zero neg_inf gtb sp r0 step fs w = (w1, Ok pr) ->
  let r := first_step_or fs step sp r0 (heap w) (env w) in
  exists d d',
    state (pr_loop_state pr) = sr_state r /\
    sr_heap r !! sr_state r = Some d /\
    heap w1 !! sr_state r = Some d' /\
    same_keys (fun t t' => length t = length sp ->
                 broadcast (Z.to_nat (beam_size (self_fields w))) t t') d d'.
Proof.
  unfold search_init, call. cbn [fst snd].
  set (r := first_step_or fs step sp r0 (heap w) (env w)).
  destruct (_ <? _); [discriminate|].
  destruct (topk _ _ _ _) as [tp|e]; [|discriminate].
  destruct (log_probs_after_end _ _ _ _ _) as [forced|e]; [|discriminate].
  match goal with |- context [update_state ?f ?st ?w0] =>
    pose proof (update_state_ok f st w0) as Hok;
    destruct (update_state f st w0) as [w2 [u|e]] end;
    cbn [fst snd] in *; [|discriminate].
  intros [= <- <-]. simpl.
  destruct (Hok w2 u eq_refl) as (d & d' & Hd & Hd' & Hkeys). simpl in Hd.
  exists d, d'. repeat split; try done.
  eapply same_keys_impl; [|exact Hkeys]. simpl.
  intros t t' Ht Hlen. by eapply expand_state_spec.
Qed.

Lemma gather_state_spec (batch_size beam : nat) (bp : list (list Z))
    (t t' : list Cell) :
  gather_state batch_size beam bp t = Ok t' ->
  length bp = batch_size ->
  Forall (fun row => length row = beam) bp ->
  (forall b k p, entry bp b k = Some p -> 0 <= p < Z.of_nat beam) ->
  regathered beam bp t t'.
Proof.
  unfold gather_state. intros H Hbp Hrows Hrange.
  destruct (Nat.eqb_spec (length t) (batch_size * beam)) as [Hlen|]; [|discriminate].
  apply bind_ok in H as (g & Hg & [= <-]).
  destruct (gather_spec _ _ _ Hg) as (Hglen & Hgrows).
  assert (Forall (fun row => length row = beam) g) as Hgr.
  { apply Forall_lookup_2. intros b orow Ho.
    destruct (Hgrows _ _ Ho) as (row & idx & _ & Hidx & Hgrow).
    destruct (gather_row_spec _ _ _ Hgrow) as (-> & _).
    eapply Forall_lookup_1 in Hrows; eauto. }
  split.
  - rewrite (concat_length_uniform _ _ Hgr). lia.
  - intros b k p Hp.
    destruct (Hrange _ _ _ Hp) as [Hp0 Hpb].
    apply entry_Some in Hp as (idx & Hidx & Hk).
    assert (k < beam)%nat as Hkb.
    { apply lookup_lt_Some in Hk. eapply Forall_lookup_1 in Hrows; eauto.
      simpl in Hrows. lia. }
    rewrite (concat_lookup_uniform _ _ _ _ Hgr Hkb).
    destruct (lookup_lt_is_Some_2 g b) as [orow Ho].
    { apply lookup_lt_Some in Hidx. lia. }
    rewrite Ho. simpl.
    destruct (Hgrows _ _ Ho) as (row & idx' & Hrow & Hidx' & Hgrow).
    rewrite Hidx in Hidx'. injection Hidx' as <-.
    destruct (gather_row_spec _ _ _ Hgrow) as (Holen & Hent).
    destruct (lookup_lt_is_Some_2 orow k) as [x Hx].
    { rewrite Holen. by eapply lookup_lt_Some. }
    destruct (Hent _ _ Hx) as (i & Hi & _ & Hri).
    rewrite Hk in Hi. injection Hi as <-.
    rewrite Hx, <- Hri. eapply chunks_entry; [exact Hrow | lia].
Qed.

(** X13.  A loop iteration keeps, for each survivor, the state of its ancestor.
    The entries of the mapping [step] returned are rebound: the keys and
    their order stay, and slot [k] of batch element [b] of every tensor
    receives the slice of the slot [backpointer[b][k]]. *)
Theorem state_follows_backpointers (self : BeamSearch) (step : StepFunctionType)
    (batch_size num_classes : nat) (forced : list (list Score))
    (s s' : LoopState) (lp : list Z) (w w' : World (Cell:=Cell) (Env:=Env)) :
  loop_body add gtb self step batch_size num_classes forced s lp w = (w', Ok s') ->
  let r := step lp (state s) (heap w) (env w) in
  exists bp d d',
    last (backpointers s') = Some bp /\
    state s' = sr_state r /\
    sr_heap r !! sr_state r = Some d /\
    heap w' !! sr_state r = Some d' /\
    same_keys (regathered (Z.to_nat (beam_size self)) bp) d d'.
Proof.
  unfold loop_body, call. cbn [fst snd].
  set (r := step lp (state s) (heap w) (env w)).
  destruct (expand_beam _ _ _ _ _ _ _ _ _) as [loc|e] eqn:Hloc; [|discriminate].
  match goal with |- context [update_state ?f ?st ?w0] =>
    pose proof (update_state_ok f st w0) as Hok;
    destruct (update_state f st w0) as [w2 [u|e]] end;
    cbn [fst snd] in *; [|discriminate].
  intros [= <- <-]. simpl.
  destruct (Hok w2 u eq_refl) as (d & d' & Hd & Hd' & Hkeys). simpl in Hd.
  exists (backpointer loc), d, d'. rewrite last_snoc. repeat split; try done.
  destruct (expand_beam_shape _ _ _ _ _ _ _ _ Hloc)
    as (_ & _ & _ & _ & _ & HBn & _ & _ & _ & HB).
  eapply same_keys_impl; [|exact Hkeys]. simpl.
  intros t t' Ht. eapply gather_state_spec; [exact Ht | done | done |].
  intros b k p Hp.
  destruct (expand_beam_rank _ _ _ _ _ _ _ _ b k p Hloc Hp) as (_ & _ & _ & _ & Hr).
  lia.
Qed.

(** ** The tokens *)

Lemma topk_indices_range (k : Z) (ncols : nat) (t V : list (list Score))
    (I : list (list Z)) :
  topk gtb k ncols t = Ok (V, I) ->
  Forall (fun row => length row = ncols) t ->
  Forall (Forall (fun i => 0 <= i < Z.of_nat ncols)) I.
Proof.
  intros H Ht. destruct (topk_spec _ _ _ _ _ H) as (_ & _ & HI & Hrows).
  apply Forall_lookup_2. intros r idxs Hidxs.
  destruct (Hrows r) as (row & vals & idxs' & Hrow & _ & Hidxs' & Htk).
  { apply lookup_lt_Some in Hidxs. lia. }
  rewrite Hidxs in Hidxs'. injection Hidxs' as <-.
  destruct (topk_row_spec _ _ _ _ Htk) as (_ & _ & Hlen & Hsel).
  apply Forall_lookup_2. intros j i Hi.
  destruct (Hsel j) as (v & n & _ & Hn & Hv).
  { apply lookup_lt_Some in Hi. lia. }
  rewrite Hi in Hn. injection Hn as ->.
  apply lookup_lt_Some in Hv. eapply Forall_lookup_1 in Ht; [|exact Hrow].
  simpl in Ht. lia.
Qed.

Lemma select_rows_Forall (P : list Score -> Prop) (e : Z) (lp : list Z)
    (forced scores : list (list Score)) :
  Forall P forced -> Forall P scores -> Forall P (select_rows e lp forced scores).
Proof.
  intros Hf Hs. unfold select_rows. apply Forall_lookup_2. intros i row Hrow.
  apply lookup_zip_with_Some in Hrow as ([tok frow] & srow & -> & Hz & Hsrow).
  apply lookup_zip_with_Some in Hz as (tok' & frow' & [= <- <-] & _ & Hfrow).
  simpl. destruct (tok =? e).
  - eapply Forall_lookup_1 in Hf; eauto.
  - eapply Forall_lookup_1 in Hs; eauto.
Qed.

Lemma expand_beam_classes_range (self : BeamSearch) (batch_size num_classes : nat)
    (forced : list (list Score)) (lp : list Z) (last : list (list Score))
    (clp : ScoreTensor) (loc : StepLocals) :
  expand_beam add gtb self batch_size num_classes forced lp last clp = Ok loc ->
  Forall (fun row => length row = num_classes) forced ->
  well_formed clp ->
  Forall (Forall (fun tok => 0 <= tok < Z.of_nat num_classes))
    (restricted_predicted_classes loc).
Proof.
  unfold expand_beam. intros H Hforced Hwf.
  apply bind_ok in H as (cleaned & Hc & H).
  apply bind_ok in H as ([T P] & Htp & H). simpl in H.
  apply bind_ok in H as (rs & Hrs & H).
  apply bind_ok in H as (rp & Hrp & H).
  apply bind_ok in H as ([RV RI] & Hr & H). simpl in H.
  apply bind_ok in H as (classes & Hcl & H).
  injection H as <-. simpl.
  apply reshape2_spec in Hrp as (_ & ->).
  apply where_end_spec in Hc as (-> & _ & Hcols).
  assert (Forall (Forall (fun i => 0 <= i < Z.of_nat num_classes)) P) as HP.
  { eapply topk_indices_range; [exact Htp|].
    apply select_rows_Forall; [done|]. unfold well_formed in Hwf.
    by rewrite Hcols in Hwf. }
  apply Forall_forall. intros orow Horow. apply Forall_forall. intros x Hx.
  destruct (gather_elem _ _ _ _ _ Hcl Horow Hx) as (row & Hrow & Hxr).
  pose proof (chunks_elem _ _ _ _ _ Hrow Hxr) as Hin.
  apply list_elem_of_In, in_concat in Hin as (prow & Hprow & Hxp).
  apply list_elem_of_In in Hprow, Hxp.
  eapply Forall_forall in HP; [|exact Hprow].
  eapply Forall_forall in HP; [|exact Hxp]. done.
Qed.

Lemma iterates_tokens_range (self : BeamSearch) (step : StepFunctionType)
    (batch_size num_classes : nat) (forced : list (list Score)) (n : nat)
    (s s' : LoopState) (w w' : World (Cell:=Cell) (Env:=Env)) :
  iterates add gtb self step batch_size num_classes forced n s w s' w' ->
  (forall tokens st h e, well_formed (sr_scores (step tokens st h e))) ->
  Forall (fun row => length row = num_classes) forced ->
  Forall (Forall (Forall (fun tok => 0 <= tok < Z.of_nat num_classes))) (predictions s) ->
  Forall (Forall (Forall (fun tok => 0 <= tok < Z.of_nat num_classes))) (predictions s').
Proof.
  induction 1 as [|n s w s1 w1 lp s2 w2 _ IH _ _ Hbody]; intros Hstep Hf Hs; [done|].
  apply loop_body_ok in Hbody as (loc & Hloc & -> & _). simpl.
  apply Forall_app. split; [by apply IH|].
  constructor; [|done]. eapply expand_beam_classes_range; [exact Hloc | done |].
  apply Hstep.
Qed.

(** X14.  Every token [search] returns is a class of the vocabulary, when
    the scoring functions keep to one vocabulary: if every score tensor
    they return is well formed and has [num_classes] columns, every
    returned token lies in [[0, num_classes)]. *)
Theorem returned_tokens_are_classes (num_classes : nat) (sp : list Z) (r0 : nat)
    (step : StepFunctionType) (fs : option StepFunctionType)
    (w w' : World (Cell:=Cell) (Env:=Env))
    (out : list (list (list Z))) (lps : list (list Score))
    (b k : nat) (seq : list Z) (tok : Z) :
  over_vocabulary num_classes step ->
  over_vocabulary num_classes (first_step_or fs step) ->
  search add zero neg_inf gtb sp r0 step fs w = (w', Ok (out, lps)) ->
  entry out b k = Some seq -> tok ∈ seq ->
  0 <= tok < Z.of_nat num_classes.
Proof.
  intros Hstep Hfirst Hs Hseq Htok.
  apply search_ok in Hs as (w1 & pr & m & s & Hinit & _ & Hit & _ & _ & Hrec & _).
  destruct (search_init_shaped _ _ _ _ _ _ _ Hinit) as (_ & _ & Hs0).
  destruct (search_init_ok _ _ _ _ _ _ _ Hinit)
    as (_ & _ & _ & Hnc & _ & _ & Hforced & [V I] & Htp & Hst).
  destruct (Hfirst sp r0 (heap w) (env w)) as [Hwf0 Hcols0].
  rewrite Hcols0 in Hnc, Hforced, Htp.
  destruct (iterates_shaped _ _ _ _ _ _ _ _ _ _ Hit Hs0) as (_ & _ & _ & Hlen & _).
  assert (Forall (Forall (Forall (fun tok => 0 <= tok < Z.of_nat (pr_num_classes pr))))
            (predictions s)) as Hrange.
  { eapply iterates_tokens_range; [exact Hit | apply Hstep | |].
    - apply log_probs_after_end_spec in Hforced as (j & _ & ->).
      apply Forall_replicate. rewrite length_insert, length_replicate. done.
    - rewrite Hst. simpl. constructor; [|done]. rewrite Hnc.
      eapply topk_indices_range; [exact Htp|].
      unfold well_formed in Hwf0. by rewrite Hcols0 in Hwf0. }
  rewrite Hnc in Hrange.
  destruct (reconstruct_tokens _ _ _ _ _ _ Hrec Hlen Hseq) as (_ & Htoks).
  apply list_elem_of_lookup in Htok as [t Ht].
  destruct (Htoks _ _ Ht) as (a & _ & Hat).
  unfold token_at in Hat.
  destruct (predictions s !! t) as [p|] eqn:Hp; [|discriminate]. simpl in Hat.
  destruct (p !! b) as [row|] eqn:Hrow; [|discriminate]. simpl in Hat.
  apply lookupZ_Some in Hat as [_ Hat].
  eapply Forall_lookup_1 in Hrange; [|exact Hp].
  eapply Forall_lookup_1 in Hrange; [|exact Hrow].
  eapply Forall_lookup_1 in Hrange; [|exact Hat]. done.
Qed.

(** ** The beam holds no sequence twice *)

(** Two survivors of a batch element with the same parent and the same
    token are the same survivor. *)
Lemma expand_beam_distinct (self : BeamSearch) (batch_size num_classes : nat)
    (forced : list (list Score)) (lp : list Z) (last : list (list Score))
    (clp : ScoreTensor) (loc : StepLocals) (b k1 k2 : nat) (p c : Z) :
  expand_beam add gtb self batch_size num_classes forced lp last clp = Ok loc ->
  entry (backpointer loc) b k1 = Some p ->
  entry (backpointer loc) b k2 = Some p ->
  entry (restricted_predicted_classes loc) b k1 = Some c ->
  entry (restricted_predicted_classes loc) b k2 = Some c ->
  k1 = k2.
Proof.
  set (beam := Z.to_nat (beam_size self)).
  set (per := Z.to_nat (per_node_beam_size self)).
  unfold expand_beam. fold beam per. intros H Hp1 Hp2 Hc1 Hc2.
  apply bind_ok in H as (cleaned & Hc & H).
  apply bind_ok in H as ([T P] & Htp & H). simpl in H.
  apply bind_ok in H as (rs & Hrs & H).
  apply bind_ok in H as (rp & Hrp & H).
  apply bind_ok in H as ([RV RI] & Hr & H). simpl in H.
  apply bind_ok in H as (classes & Hcl & H).
  injection H as <-. simpl in *.
  destruct (topk_spec _ _ _ _ _ Htp) as (Hper & _ & _ & Htprows).
  destruct (topk_row_lengths _ _ _ _ _ Htp) as (_ & HProws). fold per in HProws.
  pose proof (topk_NoDup _ _ _ _ _ Htp) as HPnd.
  apply reshape2_spec in Hrs as (_ & ->).
  apply reshape2_spec in Hrp as (_ & ->).
  destruct (topk_spec _ _ _ _ _ Hr) as (_ & _ & HRI & Hrrows).
  rewrite chunks_length in HRI, Hrrows.
  (* the ranks of the two survivors *)
  apply entry_Some in Hp1 as (bprow & Hbprow & Hp1).
  apply entry_Some in Hp2 as (bprow' & Hbprow' & Hp2).
  rewrite Hbprow in Hbprow'. injection Hbprow' as <-.
  rewrite list_lookup_fmap in Hbprow.
  destruct (RI !! b) as [idxs|] eqn:Hidxs; [|discriminate].
  simpl in Hbprow. injection Hbprow as <-.
  rewrite list_lookup_fmap in Hp1, Hp2.
  destruct (idxs !! k1) as [n1|] eqn:Hn1; [|discriminate].
  destruct (idxs !! k2) as [n2|] eqn:Hn2; [|discriminate].
  simpl in Hp1, Hp2. injection Hp1 as Hq1. injection Hp2 as Hq2.
  assert (b < batch_size)%nat as Hb by (apply lookup_lt_Some in Hidxs; lia).
  destruct (Hrrows b Hb) as (srow & vals & idxs' & Hsrow & _ & Hidxs' & Htk).
  rewrite Hidxs in Hidxs'. injection Hidxs' as <-.
  pose proof (topk_row_NoDup _ _ _ _ Htk) as Hnd.
  destruct (topk_row_spec _ _ _ _ Htk) as (_ & _ & Hil & Hsel).
  destruct (Hsel k1) as (v1 & m1 & _ & Hm1 & Hs1).
  { apply lookup_lt_Some in Hn1. lia. }
  destruct (Hsel k2) as (v2 & m2 & _ & Hm2 & Hs2).
  { apply lookup_lt_Some in Hn2. lia. }
  rewrite Hn1 in Hm1. injection Hm1 as ->.
  rewrite Hn2 in Hm2. injection Hm2 as ->.
  assert (length srow <= beam * per)%nat as Hsl.
  { rewrite chunks_lookup in Hsrow by done. injection Hsrow as <-.
    rewrite length_take. lia. }
  assert (m1 < beam * per)%nat as Hm1lt by (apply lookup_lt_Some in Hs1; lia).
  assert (m2 < beam * per)%nat as Hm2lt by (apply lookup_lt_Some in Hs2; lia).
  assert (per <> 0)%nat as Hper0 by lia.
  (* their classes *)
  apply entry_Some in Hc1 as (orow & Horow & Hx1).
  apply entry_Some in Hc2 as (orow' & Horow' & Hx2).
  rewrite Horow in Horow'. injection Horow' as <-.
  destruct (gather_spec _ _ _ Hcl) as (_ & Hclrows).
  destruct (Hclrows _ _ Horow) as (prow & idx & Hprow & Hidx & Hg).
  rewrite Hidxs in Hidx. injection Hidx as <-.
  destruct (gather_row_spec _ _ _ Hg) as (_ & Hoent).
  destruct (Hoent _ _ Hx1) as (i1 & Hi1 & _ & Hpi1).
  destruct (Hoent _ _ Hx2) as (i2 & Hi2 & _ & Hpi2).
  rewrite Hn1 in Hi1. injection Hi1 as <-. rewrite Nat2Z.id in Hpi1.
  rewrite Hn2 in Hi2. injection Hi2 as <-. rewrite Nat2Z.id in Hpi2.
  rewrite (regroup_entry _ _ _ _ _ _ _ HProws Hprow Hm1lt) in Hpi1.
  rewrite (regroup_entry _ _ _ _ _ _ _ HProws Hprow Hm2lt) in Hpi2.
  (* the same parent, the same class: the same rank *)
  assert (m1 / per = m2 / per)%nat as Hdiv.
  { apply Nat2Z.inj. rewrite !Nat2Z.inj_div. unfold per.
    rewrite Z2Nat.id by lia.
    rewrite <- !Z.quot_div_nonneg by lia. congruence. }
  rewrite Hdiv in Hpi1.
  apply entry_Some in Hpi1 as (pidxs & Hpidxs & Hcm1).
  apply entry_Some in Hpi2 as (pidxs' & Hpidxs' & Hcm2).
  rewrite Hpidxs in Hpidxs'. injection Hpidxs' as <-.
  eapply Forall_lookup_1 in HPnd; [|exact Hpidxs].
  pose proof (NoDup_lookup _ _ _ _ HPnd Hcm1 Hcm2) as Hmod.
  assert (m1 = m2) as ->.
  { pose proof (Nat.div_mod_eq m1 per). pose proof (Nat.div_mod_eq m2 per). nia. }
  exact (NoDup_lookup _ _ _ _ Hnd Hn1 Hn2).
Qed.

Lemma ancestor_app (bps extra : list (list (list Z))) (b t d : nat) (k : Z) :
  (t + d <= length bps)%nat ->
  ancestor (bps ++ extra) b t d k = ancestor bps b t d k.
Proof.
  revert k. induction d as [|d IH]; intros k Hd; [done|].
  rewrite !ancestor_S. rewrite lookup_app_l by lia.
  destruct (bps !! (t + d)%nat ≫= _) as [k'|]; [|done].
  simpl. apply IH. lia.
Qed.

Lemma iterates_distinct (self : BeamSearch) (step : StepFunctionType)
    (batch_size num_classes : nat) (forced : list (list Score)) (n : nat)
    (s0 s : LoopState) (first : list (list Z)) (w0 w : World (Cell:=Cell) (Env:=Env)) :
  iterates add gtb self step batch_size num_classes forced n s0 w0 s w ->
  predictions s0 = [first] -> backpointers s0 = [] -> Forall NoDup first ->
  length (predictions s) = S n /\ length (backpointers s) = n /\
  forall b k1 k2,
    same_path (predictions s) (backpointers s) b n k1 k2 -> k1 = k2.
Proof.
  intros Hit Hp0 Hb0 Hnd.
  induction Hit as [s0 w0|n s0 w0 s1 w1 lp s2 w2 Hit IH Hlp Hne Hbody].
  - rewrite Hp0, Hb0. split; [done|]. split; [done|].
    intros b k1 k2 Hpath.
    destruct (Hpath 0%nat) as (a1 & a2 & tok & Ha1 & Ha2 & Ht1 & Ht2); [lia|].
    simpl in Ha1, Ha2. injection Ha1 as <-. injection Ha2 as <-.
    unfold token_at in Ht1, Ht2. simpl in Ht1, Ht2.
    destruct (first !! b) as [row|] eqn:Hrow; [|discriminate]. simpl in Ht1, Ht2.
    apply lookupZ_Some in Ht1 as [Hk1 Ht1]. apply lookupZ_Some in Ht2 as [Hk2 Ht2].
    eapply Forall_lookup_1 in Hnd; [|exact Hrow].
    pose proof (NoDup_lookup _ _ _ _ Hnd Ht1 Ht2). lia.
  - destruct (IH Hp0 Hb0) as (Hplen & Hblen & Hinj).
    apply loop_body_ok in Hbody as (loc & Hloc & -> & _). simpl.
    rewrite !length_app. simpl. split; [lia|]. split; [lia|].
    intros b k1 k2 Hpath.
    (* the last timestep: the two tokens *)
    destruct (Hpath (S n)) as (a1 & a2 & tok & Ha1 & Ha2 & Ht1 & Ht2); [lia|].
    rewrite Nat.sub_diag in Ha1, Ha2. simpl in Ha1, Ha2.
    injection Ha1 as <-. injection Ha2 as <-.
    unfold token_at in Ht1, Ht2.
    rewrite lookup_app_r in Ht1, Ht2 by lia.
    rewrite Hplen, Nat.sub_diag in Ht1, Ht2. simpl in Ht1, Ht2.
    destruct (restricted_predicted_classes loc !! b) as [crow|] eqn:Hcrow;
      [|discriminate].
    simpl in Ht1, Ht2.
    apply lookupZ_Some in Ht1 as [Hk1 Ht1]. apply lookupZ_Some in Ht2 as [Hk2 Ht2].
    (* the parents *)
    assert (forall k t, (t <= n)%nat ->
              ancestor (backpointers s1 ++ [backpointer loc]) b t (S n - t) k
              = (backpointer loc !! b ≫= (fun row => lookupZ row k))
                  ≫= (fun k' => ancestor (backpointers s1) b t (n - t) k')) as Hanc.
    { intros k t Ht. replace (S n - t)%nat with (S (n - t)) by lia.
      rewrite ancestor_S. replace (t + (n - t))%nat with n by lia.
      rewrite lookup_app_r by lia. rewrite Hblen, Nat.sub_diag. simpl.
      destruct (backpointer loc !! b ≫= _) as [k'|]; [|done]. simpl.
      apply ancestor_app. lia. }
    destruct (Hpath 0%nat) as (a1 & a2 & tok0 & Ha1 & Ha2 & _); [lia|].
    rewrite Hanc in Ha1, Ha2 by lia.
    destruct (backpointer loc !! b ≫= (fun row => lookupZ row k1)) as [p1|] eqn:Hp1;
      [|discriminate].
    destruct (backpointer loc !! b ≫= (fun row => lookupZ row k2)) as [p2|] eqn:Hp2;
      [|discriminate].
    assert (p1 = p2) as <-.
    { apply (Hinj b). intros t Ht.
      destruct (Hpath t) as (b1 & b2 & tk & Hb1 & Hb2 & Htk1 & Htk2); [lia|].
      rewrite Hanc in Hb1, Hb2 by lia. rewrite Hp1 in Hb1. rewrite Hp2 in Hb2.
      simpl in Hb1, Hb2.
      exists b1, b2, tk. unfold token_at in Htk1, Htk2 |- *.
      rewrite lookup_app_l in Htk1, Htk2 by lia. done. }
    destruct (backpointer loc !! b) as [brow|] eqn:Hbrow; [|discriminate].
    simpl in Hp1, Hp2.
    apply lookupZ_Some in Hp1 as [_ Hp1]. apply lookupZ_Some in Hp2 as [_ Hp2].
    assert (Z.to_nat k1 = Z.to_nat k2) as Heq; [|lia].
    eapply (expand_beam_distinct _ _ _ _ _ _ _ _ b _ _ p1 tok Hloc);
      apply entry_Some; eauto.
Qed.

(** X15.  The beam holds no sequence twice: two slots of the same batch element
    of the returned [predictions] never hold the same sequence. *)
Theorem returned_sequences_distinct (sp : list Z) (r0 : nat)
    (step : StepFunctionType) (fs : option StepFunctionType)
    (w w' : World (Cell:=Cell) (Env:=Env))
    (out : list (list (list Z))) (lps : list (list Score))
    (b k1 k2 : nat) (seq : list Z) :
  search add zero neg_inf gtb sp r0 step fs w = (w', Ok (out, lps)) ->
  entry out b k1 = Some seq -> entry out b k2 = Some seq ->
  k1 = k2.
Proof.
  intros Hs Hseq1 Hseq2.
  apply search_ok in Hs as (w1 & pr & m & s & Hinit & _ & Hit & _ & _ & Hrec & _).
  destruct (search_init_ok _ _ _ _ _ _ _ Hinit)
    as (_ & _ & _ & _ & _ & _ & _ & [V I] & Htp & Hst).
  destruct (iterates_distinct _ _ _ _ _ _ _ _ I _ _ Hit) as (Hplen & Hblen & Hinj).
  { by rewrite Hst. } { by rewrite Hst. } { by eapply topk_NoDup. }
  destruct (reconstruct_tokens _ _ _ _ _ _ Hrec ltac:(lia) Hseq1) as (Hlen & Htoks1).
  destruct (reconstruct_tokens _ _ _ _ _ _ Hrec ltac:(lia) Hseq2) as (_ & Htoks2).
  apply Nat2Z.inj, (Hinj b). intros t Ht.
  destruct (lookup_lt_is_Some_2 seq t) as [tok Htok]; [lia|].
  destruct (Htoks1 _ _ Htok) as (a1 & Ha1 & Ht1).
  destruct (Htoks2 _ _ Htok) as (a2 & Ha2 & Ht2).
  rewrite Hblen in Ha1, Ha2. eauto 10.
Qed.

(** ** A failure while the state is rebound *)

Lemma update_items_raise (f : list Cell -> result (list Cell)) (d1 d1' d2 : StateType)
    (key : string) (t : list Cell) (e : error) :
  same_keys (fun t t' => f t = Ok t') d1 d1' -> f t = Raise e ->
  update_items f (d1 ++ (key, t) :: d2) = (d1' ++ (key, t) :: d2, Raise e).
Proof.
  intros Hd1 Ht. induction Hd1 as [|[k x] [k' x'] d1 d1' [Hk Hx] _ IH]; simpl.
  - by rewrite Ht.
  - simpl in Hk, Hx. subst k'. rewrite Hx, IH. done.
Qed.

Lemma update_state_raise (f : list Cell -> result (list Cell)) (st : nat)
    (w : World (Score:=Score) (Cell:=Cell) (Env:=Env)) (d1 d1' d2 : StateType)
    (key : string) (t : list Cell) (e : error) :
  heap w !! st = Some (d1 ++ (key, t) :: d2) ->
  same_keys (fun t t' => f t = Ok t') d1 d1' -> f t = Raise e ->
  update_state f st w
  = ({| self_fields := self_fields w;
        heap := <[st := d1' ++ (key, t) :: d2]> (heap w);
        env := env w;
        calls := calls w |}, Raise e).
Proof.
  intros Hheap Hd1 Ht. unfold update_state.
  destruct (heap w !! st) as [d|] eqn:Hd; [|discriminate].
  injection Hheap as ->.
  by rewrite (update_items_raise _ _ _ d2 key _ _ Hd1 Ht).
Qed.

Lemma expand_state_total(batch_size beam : nat) (d : StateType (Cell:=Cell)) :
  Forall (fun kv => length kv.2 = batch_size) d ->
  exists d', same_keys (fun t t' => length t = batch_size /\
                                    expand_state batch_size beam t = Ok t') d d'.
Proof.
  induction 1 as [|[key t] d Ht _ (d' & IH)]; [exists []; constructor|].
  simpl in Ht. exists ((key, t ≫= replicate beam) :: d').
  constructor; [|done]. split; [done|]. simpl. split; [done|].
  unfold expand_state. by rewrite Ht, Nat.eqb_refl.
Qed.

Lemma normalize_index_total (n : nat) (i : Z) :
  - Z.of_nat n <= i < Z.of_nat n -> exists j, normalize_index n i = Ok j.
Proof.
  intros Hi. unfold normalize_index.
  destruct (Z.leb_spec 0 i); destruct (Z.ltb_spec i (Z.of_nat n));
    destruct (Z.leb_spec (- Z.of_nat n) i); destruct (Z.ltb_spec i 0);
    simpl; eauto; lia.
Qed.

(** X16.  The state is rebound in place, entry by entry, so a failure leaves it
    half rebound.  When an entry of the state mapping has a tensor whose
    leading dimension is neither [batch_size] nor one, [search] raises
    [RuntimeError], and the mapping then holds the entries before it already
    broadcast, and that entry and the ones after it as they were. *)
Theorem state_rebound_until_failure (sp : list Z) (r0 : nat)
    (step : StepFunctionType) (fs : option StepFunctionType)
    (w : World (Cell:=Cell) (Env:=Env)) (d1 d2 : StateType) (key : string)
    (t : list Cell) :
  let r := first_step_or fs step sp r0 (heap w) (env w) in
  let num_classes := Z.of_nat (num_cols (sr_scores r)) in
  well_formed (sr_scores r) ->
  per_node_beam_size (self_fields w) <= num_classes ->
  0 <= beam_size (self_fields w) <= num_classes ->
  - num_classes <= _end_index (self_fields w) < num_classes ->
  sr_heap r !! sr_state r = Some (d1 ++ (key, t) :: d2) ->
  Forall (fun kv => length kv.2 = length sp) d1 ->
  length t <> length sp -> length t <> 1%nat ->
  exists w1 d1',
    search add zero neg_inf gtb sp r0 step fs w = (w1, Raise RuntimeError) /\
    heap w1 !! sr_state r = Some (d1' ++ (key, t) :: d2) /\
    same_keys (broadcast (Z.to_nat (beam_size (self_fields w)))) d1 d1'.
Proof.
  intros r num_classes Hwf Hper Hbeam Hend Hheap Hd1 Hlen Hone. subst num_classes.
  destruct (expand_state_total (length sp) (Z.to_nat (beam_size (self_fields w))) d1 Hd1)
    as (d1' & Hd1').
  assert (expand_state (length sp) (Z.to_nat (beam_size (self_fields w))) t
          = Raise RuntimeError) as Ht.
  { unfold expand_state.
    destruct (Nat.eqb_spec (length t) (length sp)); [done|].
    by destruct (Nat.eqb_spec (length t) 1). }
  unfold search, search_loop, search_init, call. cbn [fst snd]. fold r.
  destruct (Z.ltb_spec (Z.of_nat (num_cols (sr_scores r)))
              (per_node_beam_size (self_fields w))); [lia|].
  destruct (topk_total (beam_size (self_fields w)) (num_cols (sr_scores r))
              (rows (sr_scores r)) Hbeam Hwf) as [tp ->].
  unfold log_probs_after_end.
  destruct (normalize_index_total _ _ Hend) as [j ->]. cbn [bind].
  match goal with |- context [update_state ?f ?st ?w0] =>
    rewrite (update_state_raise f st w0 d1 d1' d2 key t RuntimeError Hheap)
  end; [|eapply same_keys_impl; [|exact Hd1']; by intros x x' [_ Hx] | exact Ht].
  cbn [fst snd]. eexists _, d1'. split; [reflexivity|]. cbn [heap].
  rewrite lookup_insert_eq. split; [done|].
  eapply same_keys_impl; [|exact Hd1'].
  intros x x' [Hlx Hx]. by eapply expand_state_spec.
Qed.

(** ** The default [per_node_beam_size] *)

(** X17.  [__init__] falls back to [beam_size] when [per_node_beam_size] is not
    given, or given as [0].  The configuration check then covers
    [beam_size]: a vocabulary smaller than the beam raises
    [ConfigurationError] after the one scoring call. *)
Theorem default_per_node_beam_size_checks_beam (end_index steps width : Z)
    (per_node : option Z) (sp : list Z) (r0 : nat)
    (step : StepFunctionType) (fs : option StepFunctionType)
    (w : World (Cell:=Cell) (Env:=Env)) :
  let r := first_step_or fs step sp r0 (heap w) (env w) in
  per_node = None \/ per_node = Some 0 ->
  self_fields w = BeamSearch_init end_index steps width per_node ->
  Z.of_nat (num_cols (sr_scores r)) < width ->
  exists w1,
    search add zero neg_inf gtb sp r0 step fs w = (w1, Raise ConfigurationError) /\
    calls w1 = calls w ++ [mkCall (first_callee fs) sp r0 (sr_scores r)].
Proof.
  intros r Hp Hself Hlt.
  unfold search, search_loop, search_init, call. cbn [fst snd]. fold r.
  rewrite Hself.
  assert (per_node_beam_size (BeamSearch_init end_index steps width per_node) = width)
    as ->.
  { by destruct Hp as [-> | ->]. }
  destruct (Z.ltb_spec (Z.of_nat (num_cols (sr_scores r))) width); [|lia].
  cbn. eauto.
Qed.

End Properties.

(** * The statements on the concrete searches *)

Section Witnesses.

Import Example.

Lemma example_prologue : init3 = (w3_0, Ok pr3).
Proof. vm_compute. reflexivity. Qed.

Lemma example_first_iteration :
  xiterates (self_fields (world self5 0)) step3 (pr_batch_size pr3)
    (pr_num_classes pr3) (pr_forced pr3) 1 (pr_loop_state pr3) w3_0 s3_1 w3_1.
Proof.
  apply (iterates_S xadd xgtb _ _ _ _ _ 0 _ _ s3_0 w3_0 lp3_0).
  - apply iterates_O.
  - vm_compute. reflexivity.
  - vm_compute. reflexivity.
  - vm_compute. reflexivity.
Qed.

Lemma example_second_iteration :
  xiterates (self_fields (world self5 0)) step3 (pr_batch_size pr3)
    (pr_num_classes pr3) (pr_forced pr3) 2 (pr_loop_state pr3) w3_0 s3_2 w3_2.
Proof.
  apply (iterates_S xadd xgtb _ _ _ _ _ 1 _ _ s3_1 w3_1 lp3_1).
  - apply example_first_iteration.
  - vm_compute. reflexivity.
  - vm_compute. reflexivity.
  - vm_compute. reflexivity.
Qed.

(** C6 on the running example, after two iterations. *)
Lemma beam_width_invariant_witness :
  init3 = (w3_0, Ok pr3) /\
  xiterates (self_fields (world self5 0)) step3 (pr_batch_size pr3)
    (pr_num_classes pr3) (pr_forced pr3) 2 (pr_loop_state pr3) w3_0 s3_2 w3_2 /\
  (forall t p row, predictions s3_2 !! t = Some p -> row ∈ p ->
     Z.of_nat (length row) = 2) /\
  (forall row, row ∈ last_log_probabilities s3_2 -> Z.of_nat (length row) = 2).
Proof.
  split; [exact example_prologue|]. split; [exact example_second_iteration|].
  exact (beam_width_invariant xadd (Fin 0) NegInf xgtb [9] 0%nat step3 (Some first3)
           (world self5 0) w3_0 w3_2 pr3 2 s3_2
           example_prologue example_second_iteration).
Defined.

Lemma example_second_body :
  xloop_body (self_fields (world self5 0)) step3 (pr_batch_size pr3)
    (pr_num_classes pr3) (pr_forced pr3) s3_1 lp3_1 w3_1 = (w3_2, Ok s3_2).
Proof. vm_compute. reflexivity. Qed.

Lemma example_search :
  xsearch [9] 0%nat step3 (Some first3) (world self5 0) = (w3_end, Ok (out3, lps3)).
Proof. vm_compute. reflexivity. Qed.

Lemma xadd_zero (x : xscore) : xadd (Fin 0) x = x.
Proof. by destruct x. Qed.

Lemma scores_in_place_deterministic (row : list xscore) :
  deterministic (scores_in_place row).
Proof. intros tokens st h e1 e2. done. Qed.

Lemma scores_in_copy_keeps_away (row : list xscore) :
  keeps_away 0 (scores_in_copy row).
Proof.
  intros tokens st h e. simpl. split; [done|]. by rewrite lookup_insert_ne.
Qed.

(** C3 on the second iteration of the running example. *)
Lemma backpointer_is_integer_division_witness :
  xloop_body self5 step3 1 3 forced3 s3_1 lp3_1 w3_1 = (w3_2, Ok s3_2) /\
  exists loc,
    expand_beam xadd xgtb self5 1 3 forced3 lp3_1 (last_log_probabilities s3_1)
      (sr_scores (step3 lp3_1 (state s3_1) (heap w3_1) (env w3_1))) = Ok loc /\
    backpointers s3_2 = backpointers s3_1 ++ [backpointer loc] /\
    forall b k bp, entry (backpointer loc) b k = Some bp ->
      exists rank,
        entry (restricted_beam_indices loc) b k = Some rank /\
        0 <= rank < beam_size self5 * per_node_beam_size self5 /\
        bp = rank `div` per_node_beam_size self5 /\
        0 <= bp <= beam_size self5 - 1.
Proof.
  split; [exact example_second_body|].
  exact (backpointer_is_integer_division xadd xgtb self5 step3 1 3 forced3
           s3_1 s3_2 lp3_1 w3_1 w3_2 example_second_body).
Defined.

(** C1 on the running example, after two iterations. *)
Lemma last_log_probabilities_cumulative_witness :
  init3 = (w3_0, Ok pr3) /\
  xiterates (self_fields (world self5 0)) step3 (pr_batch_size pr3)
    (pr_num_classes pr3) (pr_forced pr3) 2 (pr_loop_state pr3) w3_0 s3_2 w3_2 /\
  exists cs,
    calls w3_2 = calls w3_0 ++ cs /\ length cs = 2%nat /\
    length (predictions s3_2) = 3%nat /\ length (backpointers s3_2) = 2%nat /\
    forall b k v, entry (last_log_probabilities s3_2) b k = Some v ->
      path_score xadd (Z.to_nat (beam_size (self_fields (world self5 0))))
        (rows (pr_start_scores pr3))
        (cleaned_of_call (self_fields (world self5 0)) (pr_forced pr3) <$> cs)
        (predictions s3_2) (backpointers s3_2) 2 b k
      = Some v.
Proof.
  split; [exact example_prologue|]. split; [exact example_second_iteration|].
  exact (last_log_probabilities_cumulative xadd (Fin 0) NegInf xgtb [9] 0%nat step3
           (Some first3) (world self5 0) w3_0 w3_2 pr3 2 s3_2
           example_prologue example_second_iteration).
Defined.

(** C2 on the running example. *)
Lemma reconstruction_consistency_witness :
  xsearch [9] 0%nat step3 (Some first3) (world self5 0) = (w3_end, Ok (out3, lps3)) /\
  exists s,
    xsearch_loop [9] 0%nat step3 (Some first3) (world self5 0) = (w3_end, Ok s) /\
    forall b k seq, entry out3 b k = Some seq ->
      length seq = length (predictions s) /\
      forall t tok, seq !! t = Some tok ->
        exists a,
          ancestor (backpointers s) b t (length (backpointers s) - t) (Z.of_nat k)
            = Some a /\
          token_at (predictions s) t b a = Some tok.
Proof.
  split; [exact example_search|].
  exact (reconstruction_consistency xadd (Fin 0) NegInf xgtb [9] 0%nat step3
           (Some first3) (world self5 0) w3_end out3 lps3 example_search).
Defined.

(** C5 (as amended) on the running example: in the second iteration the
    hypothesis of slot [0] has ended and survives with the end token. *)
Lemma ended_hypothesis_score_witness :
  (forall x, xadd (Fin 0) x = x) /\
  init3 = (w3_0, Ok pr3) /\
  last_predictions_of (self_fields (world self5 0)) (pr_batch_size pr3) s3_1
    = Ok lp3_1 /\
  all_ended (self_fields (world self5 0)) lp3_1 = false /\
  exists (parent : nat) (tok : Z) (score score' : xscore),
    last (backpointers s3_2) ≫= (fun bp => entry bp 0 0) = Some (Z.of_nat parent) /\
    last (predictions s3_2) ≫= (fun p => entry p 0 0) = Some tok /\
    entry (last_log_probabilities s3_1) 0 parent = Some score /\
    entry (last_log_probabilities s3_2) 0 0 = Some score' /\
    (last (predictions s3_1) ≫= (fun p => entry p 0 parent)
       = Some (_end_index (self_fields (world self5 0))) ->
     (tok = _end_index (self_fields (world self5 0)) -> score' = score) /\
     (tok <> _end_index (self_fields (world self5 0)) ->
      score' = xadd NegInf score)).
Proof.
  split; [exact xadd_zero|]. split; [exact example_prologue|].
  split; [vm_compute; reflexivity|]. split; [vm_compute; reflexivity|].
  refine (ended_hypothesis_score xadd (Fin 0) NegInf xgtb [9] 0%nat step3
            (Some first3) (world self5 0) w3_0 w3_1 w3_2 pr3 1 s3_1 s3_2 lp3_1 0 0
            xadd_zero example_prologue example_first_iteration _ _
            example_second_body _ _).
  - vm_compute. reflexivity.
  - vm_compute. reflexivity.
  - vm_compute. lia.
  - vm_compute. lia.
Defined.

(** The claim C5 as stated fails.  After the first step the hypothesis of
    slot [1] has the end token as its last token and the score [-2].  The
    pruning keeps, besides the two finite candidates, one of four
    candidates of score [-inf]; in the order [partition_order] it is the
    second candidate of that finished hypothesis.  So the survivor of slot
    [2] descends from slot [1], selects the token [1] and carries [-inf]:
    the returned sequence [[0; 1]] goes on after the end token. *)
Lemma ended_hypothesis_score_counterexample :
  tie_search_loop.2 = Ok tie_after /\
  predictions tie_before = [[[1; 0; 2]]] /\
  last_log_probabilities tie_before = [[Fin (-1); Fin (-2); NegInf]] /\
  predictions tie_after = predictions tie_before ++ [[[0; 0; 1]]] /\
  backpointers tie_after = [[[0; 1; 1]]] /\
  last_log_probabilities tie_after = [[Fin (-1); Fin (-2); NegInf]] /\
  last (predictions tie_before) ≫= (fun p => entry p 0 1)
    = Some (_end_index self_tie) /\
  entry (last_log_probabilities tie_before) 0 1 = Some (Fin (-2)) /\
  last (backpointers tie_after) ≫= (fun bp => entry bp 0 2) = Some 1 /\
  entry (last_log_probabilities tie_after) 0 2 = Some NegInf /\
  Fin (-2) <> NegInf /\
  tie_search.2
    = Ok ([[[1; 0]; [0; 0]; [0; 1]]], [[Fin (-1); Fin (-2); NegInf]]).
Proof. repeat split; try (vm_compute; reflexivity). discriminate. Qed.

(** C7 (as amended) on a search whose vocabulary of three is smaller than
    [per_node_beam_size = 4]. *)
Lemma configuration_error_iff_witness :
  (xsearch [9] 0%nat step3 (Some first3) (world self_wide 0)).2
    = Raise ConfigurationError /\
  calls (xsearch [9] 0%nat step3 (Some first3) (world self_wide 0)).1
    = [mkCall FirstStepArg [9] 0
         (sr_scores (first3 [9] 0%nat (heap (world self_wide 0)) 0%nat))].
Proof.
  pose proof (configuration_error_iff xadd (Fin 0) NegInf xgtb [9] 0%nat step3
                (Some first3) (world self_wide 0)) as [[_ Hif] Hcalls].
  assert ((xsearch [9] 0%nat step3 (Some first3) (world self_wide 0)).2
          = Raise ConfigurationError) as Herr.
  { apply Hif. vm_compute. reflexivity. }
  split; [exact Herr | exact (Hcalls Herr)].
Defined.

(** The claim C7 as stated fails: without a [first_step] the error comes
    after a call of [step]. *)
Lemma configuration_error_counterexample :
  (xsearch [9] 0%nat step3 None (world self_wide 0)).2 = Raise ConfigurationError /\
  calls (world self_wide 0) = [] /\
  callee <$> calls (xsearch [9] 0%nat step3 None (world self_wide 0)).1 = [StepArg].
Proof. repeat split; vm_compute; reflexivity. Qed.

(** C8 on a search with [max_steps = 1]. *)
Lemma search_needs_a_backpointer_witness :
  max_steps (self_fields (world self1 0)) <= 1 /\
  xsearch [9] 0%nat step3 (Some first3) (world self1 0) = (w1_0, Raise IndexError).
Proof.
  assert (max_steps (self_fields (world self1 0)) <= 1) as Hmax by (vm_compute; discriminate).
  split; [exact Hmax|].
  refine (proj2 (proj1 (search_needs_a_backpointer xadd (Fin 0) NegInf xgtb [9] 0%nat
                          step3 (Some first3) (world self1 0)) (or_introl Hmax))
            w1_0 pr1 _ (or_introl Hmax)).
  vm_compute. reflexivity.
Defined.

(** C9 on the running example, started in two different environments. *)
Lemma search_deterministic_witness :
  deterministic step3 /\
  (forall f, Some first3 = Some f -> deterministic f) /\
  same_inputs (world self5 0) (world self5 7) /\
  (xsearch [9] 0%nat step3 (Some first3) (world self5 0)).2
  = (xsearch [9] 0%nat step3 (Some first3) (world self5 7)).2.
Proof.
  assert (forall f, Some first3 = Some f -> deterministic f) as Hfirst.
  { intros f [= <-]. apply scores_in_place_deterministic. }
  assert (same_inputs (world self5 0) (world self5 7)) as Hsame by done.
  split; [apply scores_in_place_deterministic|]. split; [exact Hfirst|].
  split; [exact Hsame|].
  exact (search_deterministic xadd (Fin 0) NegInf xgtb [9] 0%nat step3 (Some first3)
           (world self5 0) (world self5 7)
           (scores_in_place_deterministic step_row) Hfirst Hsame).
Defined.

(** C10 (as amended) on scoring functions that write the state to a mapping
    of their own. *)
Lemma search_frame_witness :
  keeps_away 0 (scores_in_copy step_row) /\
  (forall f, Some (scores_in_copy first_row) = Some f -> keeps_away 0 f) /\
  self_fields (xsearch [9] 0%nat (scores_in_copy step_row)
                 (Some (scores_in_copy first_row)) (world self5 0)).1 = self5 /\
  heap (xsearch [9] 0%nat (scores_in_copy step_row)
          (Some (scores_in_copy first_row)) (world self5 0)).1 !! 0%nat
  = Some start_state.
Proof.
  assert (forall f, Some (scores_in_copy first_row) = Some f -> keeps_away 0 f) as Hfirst.
  { intros f [= <-]. apply scores_in_copy_keeps_away. }
  pose proof (search_frame xadd (Fin 0) NegInf xgtb [9] 0%nat (scores_in_copy step_row)
                (Some (scores_in_copy first_row)) (world self5 0)) as [Hself Hheap].
  split; [apply scores_in_copy_keeps_away|]. split; [exact Hfirst|].
  split; [exact Hself|].
  exact (Hheap (scores_in_copy_keeps_away step_row) Hfirst).
Defined.

(** The claim C10 as stated fails: the scoring functions of the running
    example return the mapping they were given, and [search] leaves the
    caller's [start_state] with the expanded tensor. *)
Lemma search_frame_counterexample :
  (forall tokens st h e, sr_state (first3 tokens st h e) = st /\
                         sr_heap (first3 tokens st h e) = h) /\
  (forall tokens st h e, sr_state (step3 tokens st h e) = st /\
                         sr_heap (step3 tokens st h e) = h) /\
  (xsearch [9] 0%nat step3 (Some first3) (world self5 0)).2 = Ok (out3, lps3) /\
  heap (world self5 0) !! 0%nat = Some [("h"%string, [7%nat])] /\
  heap (xsearch [9] 0%nat step3 (Some first3) (world self5 0)).1 !! 0%nat
  = Some [("h"%string, [7%nat; 7%nat])].
Proof. repeat split; vm_compute; reflexivity. Qed.

(** C4 at its failing input: with a beam of one, the only hypothesis selects
    the end token at the first step; every hypothesis has ended after step
    [0], no further call is made, and yet [search] raises instead of
    returning sequences of length one. *)
Theorem early_stop_at_first_step_raises :
  predictions narrow_first = [[[_end_index self_narrow]]] /\
  (xsearch [9] 0%nat step3 None (world self_narrow 0)).2 = Raise IndexError /\
  length (calls (xsearch [9] 0%nat step3 None (world self_narrow 0)).1) = 1%nat.
Proof. repeat split; vm_compute; reflexivity. Qed.

(** Early stop on the running example: after two iterations every
    hypothesis has ended, and [search] returns sequences of three tokens
    after three scoring calls, although [max_steps = 5]. *)
Lemma search_returns_after_witness :
  init3 = (w3_0, Ok pr3) /\
  (1 <= 2 <= Z.to_nat (max_steps (self_fields (world self5 0)) - 1))%nat /\
  all_ended (self_fields (world self5 0)) [0; 0] = true /\
  exists out,
    xsearch [9] 0%nat step3 (Some first3) (world self5 0)
      = (w3_2, Ok (out, last_log_probabilities s3_2)) /\
    length (calls w3_2) = (length (calls (world self5 0)) + 1 + 2)%nat /\
    grid (pr_batch_size pr3) (Z.to_nat (beam_size (self_fields (world self5 0)))) out /\
    forall b k seq, entry out b k = Some seq -> length seq = 3%nat.
Proof.
  assert (1 <= 2 <= Z.to_nat (max_steps (self_fields (world self5 0)) - 1))%nat as Ht
    by (vm_compute; lia).
  split; [exact example_prologue|]. split; [exact Ht|].
  split; [vm_compute; reflexivity|].
  refine (search_returns_after xadd (Fin 0) NegInf xgtb [9] 0%nat step3 (Some first3)
            (world self5 0) w3_0 w3_2 pr3 2 s3_2
            example_prologue example_second_iteration Ht _).
  right. exists [0; 0]. split; vm_compute; reflexivity.
Defined.

(** ** The further properties on the concrete searches *)

Lemma xgtb_asym (x y : xscore) : xgtb x y = true -> xgtb y x = false.
Proof. destruct x, y; simpl; try done. intros H. apply Z.ltb_lt in H. apply Z.ltb_ge. lia. Qed.

Lemma xgtb_negtrans (x y z : xscore) :
  xgtb x y = false -> xgtb y z = false -> xgtb x z = false.
Proof.
  destruct x, y, z; simpl; try done.
  intros H1 H2. apply Z.ltb_ge in H1, H2. apply Z.ltb_ge. lia.
Qed.

Lemma scores_in_place_over_vocabulary (row : list xscore) :
  over_vocabulary (length row) (scores_in_place row).
Proof.
  intros tokens st h e. split; [|done].
  unfold well_formed. simpl. by apply Forall_replicate.
Qed.

Lemma example_expansion :
  expand_beam xadd xgtb self5 1 3 forced3 lp3_1 (last_log_probabilities s3_1)
    (sr_scores (step3 lp3_1 (state s3_1) (heap w3_1) (env w3_1))) = Ok loc3_2.
Proof. vm_compute. reflexivity. Qed.

(** The returned scores of the running example are in descending order. *)
Lemma returned_log_probabilities_descending_witness :
  xsearch [9] 0%nat step3 (Some first3) (world self5 0) = (w3_end, Ok (out3, lps3)) /\
  lps3 !! 0%nat = Some [Fin (-2); Fin (-4)] /\
  xgtb (Fin (-4)) (Fin (-2)) = false.
Proof.
  split; [exact example_search|]. split; [reflexivity|].
  exact (returned_log_probabilities_descending xadd (Fin 0) NegInf xgtb
           xgtb_asym xgtb_negtrans [9] 0%nat step3 (Some first3) (world self5 0)
           w3_end out3 lps3 0 0 1 [Fin (-2); Fin (-4)] (Fin (-2)) (Fin (-4))
           example_search eq_refl (le_n 1) eq_refl eq_refl).
Defined.

(** The pruning of the second iteration of the running example. *)
Lemma pruning_keeps_the_best_witness :
  xloop_body self5 step3 1 3 forced3 s3_1 lp3_1 w3_1 = (w3_2, Ok s3_2) /\
  exists loc,
    expand_beam xadd xgtb self5 1 3 forced3 lp3_1 (last_log_probabilities s3_1)
      (sr_scores (step3 lp3_1 (state s3_1) (heap w3_1) (env w3_1))) = Ok loc /\
    last_log_probabilities s3_2 = restricted_beam_log_probs loc /\
    forall b candidates ranks survivors n u v,
      chunks 1 (Z.to_nat (beam_size self5) * Z.to_nat (per_node_beam_size self5))
        (concat (summed_top_log_probabilities loc)) !! b = Some candidates ->
      restricted_beam_indices loc !! b = Some ranks ->
      restricted_beam_log_probs loc !! b = Some survivors ->
      candidates !! n = Some u -> Z.of_nat n ∉ ranks -> v ∈ survivors ->
      xgtb u v = false.
Proof.
  split; [exact example_second_body|].
  exact (pruning_keeps_the_best xadd xgtb xgtb_asym xgtb_negtrans self5 step3 1 3
           forced3 s3_1 s3_2 lp3_1 w3_1 w3_2 example_second_body).
Defined.

(** In the second iteration of the running example the hypothesis of slot
    [0] has ended: its first candidate is the end token, with score [0]. *)
Lemma ended_hypothesis_proposes_end_witness :
  xgtb (Fin 0) NegInf = true /\
  lp3_1 !! 0%nat = Some (_end_index self5) /\
  entry (top_log_probabilities loc3_2) 0 0 = Some (Fin 0) /\
  entry (predicted_classes loc3_2) 0 0 = Some (_end_index self5).
Proof.
  split; [reflexivity|]. split; [reflexivity|].
  refine (ended_hypothesis_proposes_end xadd (Fin 0) NegInf xgtb xgtb_asym
            xgtb_negtrans self5 1 3 forced3 lp3_1 (last_log_probabilities s3_1)
            (sr_scores (step3 lp3_1 (state s3_1) (heap w3_1) (env w3_1))) loc3_2 0
            eq_refl _ example_expansion eq_refl _ _ _).
  - vm_compute. reflexivity.
  - vm_compute. lia.
  - vm_compute. discriminate.
  - vm_compute. reflexivity.
Defined.

(** A beam of four over the vocabulary of three. *)
Lemma beam_wider_than_vocabulary_witness :
  per_node_beam_size self_broad <= 3 /\ 3 < beam_size self_broad /\
  exists w1,
    xsearch [9] 0%nat step3 (Some first3) (world self_broad 0)
      = (w1, Raise RuntimeError) /\
    calls w1 = calls (world self_broad 0) ++
      [mkCall FirstStepArg [9] 0
         (sr_scores (first3 [9] 0%nat (heap (world self_broad 0)) 0%nat))].
Proof.
  assert (per_node_beam_size self_broad <= 3) as Hper by (vm_compute; discriminate).
  assert (3 < beam_size self_broad) as Hbeam by (vm_compute; reflexivity).
  split; [exact Hper|]. split; [exact Hbeam|].
  exact (beam_wider_than_vocabulary xadd (Fin 0) NegInf xgtb [9] 0%nat step3
           (Some first3) (world self_broad 0) Hper Hbeam).
Defined.

(** The end token [7] over the vocabulary of three. *)
Lemma end_index_out_of_range_witness :
  int64 (_end_index self_far) /\
  ~ (-3 <= _end_index self_far < 3) /\
  exists w1,
    xsearch [9] 0%nat step3 (Some first3) (world self_far 0)
      = (w1, Raise IndexError) /\
    calls w1 = calls (world self_far 0) ++
      [mkCall FirstStepArg [9] 0
         (sr_scores (first3 [9] 0%nat (heap (world self_far 0)) 0%nat))].
Proof.
  assert (int64 (_end_index self_far)) as Hint
    by (split; vm_compute; [discriminate | reflexivity]).
  assert (~ (-3 <= _end_index self_far < 3)) as Hend
    by (vm_compute; intros [_ H]; discriminate).
  split; [exact Hint|]. split; [exact Hend|].
  refine (end_index_out_of_range xadd (Fin 0) NegInf xgtb [9] 0%nat step3
            (Some first3) (world self_far 0) _ _ _ Hint Hend).
  - apply (scores_in_place_over_vocabulary first_row).
  - vm_compute. discriminate.
  - split; vm_compute; discriminate.
Defined.

(** The first tokens of the running example. *)
Lemma first_tokens_distinct_witness :
  init3 = (w3_0, Ok pr3) /\
  exists first,
    predictions (pr_loop_state pr3) = [first] /\
    (forall b row, first !! b = Some row -> NoDup row) /\
    (2 <= beam_size (self_fields (world self5 0)) -> [9] <> [] ->
     forall lp,
       last_predictions_of (self_fields (world self5 0)) (pr_batch_size pr3)
         (pr_loop_state pr3) = Ok lp ->
       all_ended (self_fields (world self5 0)) lp = false).
Proof.
  split; [exact example_prologue|].
  exact (first_tokens_distinct (Fin 0) NegInf xgtb [9] 0%nat step3 (Some first3)
           (world self5 0) w3_0 pr3 example_prologue).
Defined.

(** The shape of the result of the running example. *)
Lemma returned_shape_witness :
  xsearch [9] 0%nat step3 (Some first3) (world self5 0) = (w3_end, Ok (out3, lps3)) /\
  exists L : nat,
    2 <= Z.of_nat L <= max_steps (self_fields (world self5 0)) /\
    length (calls w3_end) = (length (calls (world self5 0)) + L)%nat /\
    grid (length [9]) (Z.to_nat (beam_size (self_fields (world self5 0)))) out3 /\
    grid (length [9]) (Z.to_nat (beam_size (self_fields (world self5 0)))) lps3 /\
    forall b k seq, entry out3 b k = Some seq -> length seq = L.
Proof.
  split; [exact example_search|].
  exact (returned_shape xadd (Fin 0) NegInf xgtb [9] 0%nat step3 (Some first3)
           (world self5 0) w3_end out3 lps3 example_search).
Defined.

(** The calls of [step] in the running example. *)
Lemma step_receives_last_predictions_witness :
  init3 = (w3_0, Ok pr3) /\
  exists cs,
    calls w3_2 = calls w3_0 ++ cs /\ length cs = 2%nat /\
    forall i c, cs !! i = Some c ->
      callee c = StepArg /\
      length (call_tokens c)
        = (length [9] * Z.to_nat (beam_size (self_fields (world self5 0))))%nat /\
      exists p, predictions s3_2 !! i = Some p /\ call_tokens c = concat p.
Proof.
  split; [exact example_prologue|].
  exact (step_receives_last_predictions xadd (Fin 0) NegInf xgtb [9] 0%nat step3
           (Some first3) (world self5 0) w3_0 w3_2 pr3 2 s3_2
           example_prologue example_second_iteration).
Defined.

(** The state of the running example after the prologue. *)
Lemma state_is_broadcast_witness :
  init3 = (w3_0, Ok pr3) /\
  exists d d',
    state (pr_loop_state pr3) = 0%nat /\
    heap (world self5 0) !! 0%nat = Some d /\
    heap w3_0 !! 0%nat = Some d' /\
    same_keys (fun t t' => length t = length [9] ->
                 broadcast (Z.to_nat (beam_size (self_fields (world self5 0)))) t t')
      d d'.
Proof.
  split; [exact example_prologue|].
  exact (state_is_broadcast (Fin 0) NegInf xgtb [9] 0%nat step3 (Some first3)
           (world self5 0) w3_0 pr3 example_prologue).
Defined.

(** The state of the running example after the second iteration. *)
Lemma state_follows_backpointers_witness :
  xloop_body self5 step3 1 3 forced3 s3_1 lp3_1 w3_1 = (w3_2, Ok s3_2) /\
  exists bp d d',
    last (backpointers s3_2) = Some bp /\
    state s3_2 = 0%nat /\
    heap w3_1 !! 0%nat = Some d /\
    heap w3_2 !! 0%nat = Some d' /\
    same_keys (regathered (Z.to_nat (beam_size self5)) bp) d d'.
Proof.
  split; [exact example_second_body|].
  exact (state_follows_backpointers xadd xgtb self5 step3 1 3 forced3 s3_1 s3_2
           lp3_1 w3_1 w3_2 example_second_body).
Defined.

(** The tokens of the running example lie in the vocabulary of three. *)
Lemma returned_tokens_are_classes_witness :
  over_vocabulary 3 step3 /\ over_vocabulary 3 first3 /\
  xsearch [9] 0%nat step3 (Some first3) (world self5 0) = (w3_end, Ok (out3, lps3)) /\
  forall b k seq tok, entry out3 b k = Some seq -> tok ∈ seq -> 0 <= tok < 3.
Proof.
  split; [exact (scores_in_place_over_vocabulary step_row)|].
  split; [exact (scores_in_place_over_vocabulary first_row)|].
  split; [exact example_search|].
  exact (fun b k seq tok Hseq Htok =>
           returned_tokens_are_classes xadd (Fin 0) NegInf xgtb 3 [9] 0%nat step3
             (Some first3) (world self5 0) w3_end out3 lps3 b k seq tok
             (scores_in_place_over_vocabulary step_row)
             (scores_in_place_over_vocabulary first_row) example_search Hseq Htok).
Defined.

(** The two sequences of the running example differ. *)
Lemma returned_sequences_distinct_witness :
  xsearch [9] 0%nat step3 (Some first3) (world self5 0) = (w3_end, Ok (out3, lps3)) /\
  forall b k1 k2 seq,
    entry out3 b k1 = Some seq -> entry out3 b k2 = Some seq -> k1 = k2.
Proof.
  split; [exact example_search|].
  exact (fun b k1 k2 seq =>
           returned_sequences_distinct xadd (Fin 0) NegInf xgtb [9] 0%nat step3
             (Some first3) (world self5 0) w3_end out3 lps3 b k1 k2 seq example_search).
Defined.

(** A state whose second tensor cannot be broadcast to the batch of one. *)
Lemma state_rebound_until_failure_witness :
  heap (world_two self5 0) !! 0%nat
    = Some ([("h"%string, [7%nat])] ++ [("c"%string, [1%nat; 2%nat])]) /\
  exists w1 d1',
    xsearch [9] 0%nat step3 (Some first3) (world_two self5 0)
      = (w1, Raise RuntimeError) /\
    heap w1 !! 0%nat = Some (d1' ++ [("c"%string, [1%nat; 2%nat])]) /\
    same_keys (broadcast (Z.to_nat (beam_size self5))) [("h"%string, [7%nat])] d1'.
Proof.
  assert (heap (world_two self5 0) !! 0%nat
          = Some ([("h"%string, [7%nat])] ++ [("c"%string, [1%nat; 2%nat])])) as Hheap
    by (vm_compute; reflexivity).
  split; [exact Hheap|].
  refine (state_rebound_until_failure xadd (Fin 0) NegInf xgtb [9] 0%nat step3
            (Some first3) (world_two self5 0) [("h"%string, [7%nat])] []
            "c"%string [1%nat; 2%nat] _ _ _ _ Hheap _ _ _).
  - apply (scores_in_place_over_vocabulary first_row).
  - vm_compute. discriminate.
  - split; vm_compute; discriminate.
  - split; vm_compute; [discriminate | reflexivity].
  - by repeat constructor.
  - simpl. lia.
  - simpl. lia.
Defined.

(** A beam of five over the vocabulary of three, with the default
    [per_node_beam_size]. *)
Lemma default_per_node_beam_size_checks_beam_witness :
  self_fields (world self_default 0) = BeamSearch_init 0 3 5 None /\
  exists w1,
    xsearch [9] 0%nat step3 (Some first3) (world self_default 0)
      = (w1, Raise ConfigurationError) /\
    calls w1 = calls (world self_default 0) ++
      [mkCall FirstStepArg [9] 0
         (sr_scores (first3 [9] 0%nat (heap (world self_default 0)) 0%nat))].
Proof.
  split; [reflexivity|].
  refine (default_per_node_beam_size_checks_beam xadd (Fin 0) NegInf xgtb 0 3 5 None
            [9] 0%nat step3 (Some first3) (world self_default 0)
            (or_introl eq_refl) eq_refl _).
  vm_compute. reflexivity.
Defined.

End Witnesses.
